(** * beads-sdk: a shallow embedding of the client library

    The development follows the TypeScript sources:
    - [BdCli]      the subprocess client ([src/BeadsClient.ts]): [list],
                   [show], [listWithParents], [create];
    - [Subscribers] the callback arrays shared by the poller and the
                   orchestrating client ([push], [indexOf]/[splice], [for..of]);
    - [ChangePoller] the stats poller ([poller.ts]);
    - [BeadsClient] the orchestrating client ([client.ts]);
    - [JsonlTransport] the snapshot transport's [ready] query;
    - [Callbacks], [ReentrantPoller], [ReentrantClient] the poller and the
                   client once more, with callbacks that may throw, stop the
                   poller or disconnect the client during a round;
    - [Embedding]  the first poller and client as instances of those.

    JavaScript values are modelled as the code sees them: optional fields as
    [option], truthiness of strings and numbers written out, exceptions and
    promise rejections as the [Throws] case of [completion]. *)

From Stdlib Require Import ZArith String List Bool Lia DecimalString.
From stdpp Require Import base gmap list strings.
Import ListNotations.
Open Scope string_scope.

(** ** JavaScript preliminaries *)

(** An [Error] object; only its message is observed. *)
Inductive Error : Type :=
| mkError (message : string).

Definition message (e : Error) : string :=
  match e with mkError m => m end.

(** How a call completes: it returns a value, or it throws.  For an [async]
    function [Returns] is the value the promise fulfils with and [Throws] the
    rejection reason. *)
Inductive completion (A : Type) : Type :=
| Returns (a : A)
| Throws (e : Error).
Arguments Returns {A} a.
Arguments Throws {A} e.

Definition bind {A B : Type} (c : completion A) (k : A -> completion B)
  : completion B :=
  match c with
  | Returns a => k a
  | Throws e => Throws e
  end.

Notation "'let*' x ':=' c 'in' k" := (bind c (fun x => k))
  (at level 10, x name, c at level 100, k at level 200).

(** Truthiness of a string: every string but the empty one. *)
Definition truthy_string (s : string) : bool :=
  negb (s =? EmptyString).

(** Truthiness of an optional string field: present and non-empty. *)
Definition truthy_field (s : option string) : bool :=
  match s with
  | Some s => truthy_string s
  | None => false
  end.

(** [String(n)] for an integral number below 10^21 in size, where it is the
    decimal numeral (from there on JavaScript writes an exponent). *)
Definition String_of_number (n : Z) : string :=
  NilZero.string_of_int (Z.to_int n).

(** [s.includes(needle)]. *)
Fixpoint includes (needle s : string) : bool :=
  String.prefix needle s ||
  match s with
  | EmptyString => false
  | String _ rest => includes needle rest
  end.

(** ** JSON values, as [JSON.parse] produces them *)

Local Unset Elimination Schemes.

(** Numbers are kept integral: the code below only asks whether a number is
    zero.  An object is its list of own properties; [get] reads a property. *)
Inductive json : Type :=
| JNull
| JBool (b : bool)
| JNum (n : Z)
| JStr (s : string)
| JArr (items : list json)
| JObj (props : list (string * json)).

Local Set Elimination Schemes.

(** A JavaScript value at hand: [None] is [undefined]. *)
Definition value : Type := option json.

Definition isArray (v : json) : bool :=
  match v with
  | JArr _ => true
  | _ => false
  end.

(** [v[0]] on an array. *)
Definition first_element (v : json) : value :=
  match v with
  | JArr (x :: _) => Some x
  | _ => None
  end.

Fixpoint lookup_prop (key : string) (props : list (string * json)) : value :=
  match props with
  | [] => None
  | (k, v) :: rest => if k =? key then Some v else lookup_prop key rest
  end.

(** [v.key] on a value that is neither [null] nor [undefined]: an own
    property of an object, [undefined] on anything else (strings, numbers,
    booleans and arrays have no property of the names used here). *)
Definition get (key : string) (v : json) : value :=
  match v with
  | JObj props => lookup_prop key props
  | _ => None
  end.

(** Truthiness: [undefined], [null], [false], [0] and the empty string are
    falsy; every object and array is truthy. *)
Definition truthy (v : value) : bool :=
  match v with
  | None => false
  | Some JNull => false
  | Some (JBool b) => b
  | Some (JNum n) => negb (n =? 0)%Z
  | Some (JStr s) => truthy_string s
  | Some (JArr _) => true
  | Some (JObj _) => true
  end.

(** ** The subprocess client, [src/BeadsClient.ts] *)

Module BdCli.

(** [IssueStatus] of [types.ts]. *)
Inductive IssueStatus : Type :=
| open | in_progress | blocked | deferred | closed.

Definition IssueStatus_eqb (a b : IssueStatus) : bool :=
  match a, b with
  | open, open | in_progress, in_progress | blocked, blocked
  | deferred, deferred | closed, closed => true
  | _, _ => false
  end.

Definition IssueStatus_to_string (s : IssueStatus) : string :=
  match s with
  | open => "open"
  | in_progress => "in_progress"
  | blocked => "blocked"
  | deferred => "deferred"
  | closed => "closed"
  end.

Local Unset Elimination Schemes.

(** [BdIssue]; a [BdDependency] is a [BdIssue] that also carries
    [dependency_type], so one type serves both and the field is optional. *)
Inductive BdIssue : Type := mkBdIssue {
  id : string;
  title : string;
  description : option string;
  status : IssueStatus;
  priority : Z;
  issue_type : string;
  assignee : option string;
  owner : option string;
  created_at : string;
  created_by : option string;
  updated_at : string;
  closed_at : option string;
  parent : option string;
  labels : option (list string);
  dependency_count : option Z;
  dependent_count : option Z;
  dependencies : option (list BdIssue);
  dependents : option (list BdIssue);
  blocked_by : option (list string);
  blocked_by_count : option Z;
  dependency_type : option string;
}.

Local Set Elimination Schemes.

(** Assignments to the fields [listWithParents] writes. *)
Definition set_parent (v : option string) (i : BdIssue) : BdIssue :=
  mkBdIssue (id i) (title i) (description i) (status i) (priority i)
    (issue_type i) (assignee i) (owner i) (created_at i) (created_by i)
    (updated_at i) (closed_at i) v (labels i) (dependency_count i)
    (dependent_count i) (dependencies i) (dependents i) (blocked_by i)
    (blocked_by_count i) (dependency_type i).

Definition set_dependencies (v : option (list BdIssue)) (i : BdIssue)
  : BdIssue :=
  mkBdIssue (id i) (title i) (description i) (status i) (priority i)
    (issue_type i) (assignee i) (owner i) (created_at i) (created_by i)
    (updated_at i) (closed_at i) (parent i) (labels i) (dependency_count i)
    (dependent_count i) v (dependents i) (blocked_by i)
    (blocked_by_count i) (dependency_type i).

Definition set_blocked_by (v : option (list string)) (i : BdIssue)
  : BdIssue :=
  mkBdIssue (id i) (title i) (description i) (status i) (priority i)
    (issue_type i) (assignee i) (owner i) (created_at i) (created_by i)
    (updated_at i) (closed_at i) (parent i) (labels i) (dependency_count i)
    (dependent_count i) (dependencies i) (dependents i) v
    (blocked_by_count i) (dependency_type i).

Definition set_blocked_by_count (v : option Z) (i : BdIssue) : BdIssue :=
  mkBdIssue (id i) (title i) (description i) (status i) (priority i)
    (issue_type i) (assignee i) (owner i) (created_at i) (created_by i)
    (updated_at i) (closed_at i) (parent i) (labels i) (dependency_count i)
    (dependent_count i) (dependencies i) (dependents i) (blocked_by i)
    v (dependency_type i).

Definition set_status (v : IssueStatus) (i : BdIssue) : BdIssue :=
  mkBdIssue (id i) (title i) (description i) v (priority i)
    (issue_type i) (assignee i) (owner i) (created_at i) (created_by i)
    (updated_at i) (closed_at i) (parent i) (labels i) (dependency_count i)
    (dependent_count i) (dependencies i) (dependents i) (blocked_by i)
    (blocked_by_count i) (dependency_type i).

(** [BdListOptions]. *)
Record BdListOptions : Type := mkBdListOptions {
  lo_limit : option Z;
  lo_status : option IssueStatus;
  lo_priority : option Z;
  lo_type : option string;
  lo_assignee : option string;
  lo_parent : option string;
  lo_ready : option bool;
  lo_all : option bool;
}.

(** [BdCreateOptions]. *)
Record BdCreateOptions : Type := mkBdCreateOptions {
  co_title : string;
  co_description : option string;
  co_priority : option Z;
  co_type : option string;
  co_assignee : option string;
  co_parent : option string;
  co_labels : option (list string);
}.

(** [labels.join(",")]. *)
Fixpoint join (sep : string) (l : list string) : string :=
  match l with
  | [] => EmptyString
  | [x] => x
  | x :: rest => x ++ sep ++ join sep rest
  end.

(** [if (field) args.push(flag, field)] for an optional string. *)
Definition push_string (flag : string) (field : option string)
    (args : list string) : list string :=
  match field with
  | Some s => if truthy_string s then args ++ [flag; s] else args
  | None => args
  end.

(** [if (field !== undefined) args.push(flag, String(field))]. *)
Definition push_number (flag : string) (field : option Z)
    (args : list string) : list string :=
  match field with
  | Some n => args ++ [flag; String_of_number n]
  | None => args
  end.

(** [if (field) args.push(flag)] for an optional boolean. *)
Definition push_flag (flag : string) (field : option bool)
    (args : list string) : list string :=
  match field with
  | Some true => args ++ [flag]
  | _ => args
  end.

(** The blockers [listWithParents] counts:
    [dep.dependency_type === "blocks" && dep.status !== "closed"]. *)
Definition is_blocker (dep : BdIssue) : bool :=
  match dependency_type dep with
  | Some t => (t =? "blocks") && negb (IssueStatus_eqb (status dep) closed)
  | None => false
  end.

(** [for (const issue of detailedIssues) detailsMap.set(issue.id, issue)]. *)
Definition build_detailsMap (detailedIssues : list BdIssue)
  : gmap string BdIssue :=
  fold_left (fun m issue => insert (id issue) issue m) detailedIssues
    (empty : gmap string BdIssue).

(** The body of the [issues.map(...)] callback of [listWithParents]. *)
Definition enrich (detailsMap : gmap string BdIssue) (issue : BdIssue)
  : BdIssue :=
  match lookup (id issue) detailsMap with
  | None => issue
  | Some details =>
      let enriched := issue in
      let enriched :=
        if truthy_field (parent details)
        then set_parent (parent details) enriched else enriched in
      match dependencies details with
      | None => enriched
      | Some deps =>
          let enriched := set_dependencies (Some deps) enriched in
          let blockers := List.filter is_blocker deps in
          if (0 <? length blockers)%nat then
            let enriched :=
              set_blocked_by_count (Some (Z.of_nat (length blockers)))
                enriched in
            let enriched := set_blocked_by (Some (map id blockers)) enriched in
            if IssueStatus_eqb (status enriched) open
            then set_status blocked enriched else enriched
          else enriched
      end
  end.

Section Subprocess.

(** [exec(args, this.execOptions)]: the [bd] subprocess, stdout or a
    rejection. *)
Variable exec : list string -> completion string.

(** [JSON.parse(result) as BdIssue[]]. *)
Variable parse_issues : string -> completion (list BdIssue).

(** [JSON.parse(result)], untyped. *)
Variable JSON_parse : string -> completion json.

Definition list (options : BdListOptions)
  : completion (Datatypes.list BdIssue) :=
  let args := ["list"; "--json"] in
  let args := push_number "--limit" (lo_limit options) args in
  let args :=
    push_string "--status"
      (option_map IssueStatus_to_string (lo_status options)) args in
  let args := push_number "--priority" (lo_priority options) args in
  let args := push_string "--type" (lo_type options) args in
  let args := push_string "--assignee" (lo_assignee options) args in
  let args := push_string "--parent" (lo_parent options) args in
  let args := push_flag "--ready" (lo_ready options) args in
  let args := push_flag "--all" (lo_all options) args in
  let* result := exec args in
  parse_issues result.

Definition show (ids : Datatypes.list string)
  : completion (Datatypes.list BdIssue) :=
  let args := (["show"; "--json"] ++ ids)%list in
  let* result := exec args in
  parse_issues result.

Definition listWithParents (options : BdListOptions)
  : completion (Datatypes.list BdIssue) :=
  let* issues := list options in
  if (length issues =? 0)%nat then Returns issues
  else
    let ids := map id issues in
    let* detailedIssues := show ids in
    let detailsMap := build_detailsMap detailedIssues in
    Returns (map (enrich detailsMap) issues).

Definition create_args (options : BdCreateOptions)
  : Datatypes.list string :=
  let args := ["create"; "--json"; co_title options] in
  let args := push_string "--description" (co_description options) args in
  let args := push_number "--priority" (co_priority options) args in
  let args := push_string "--type" (co_type options) args in
  let args := push_string "--assignee" (co_assignee options) args in
  let args := push_string "--parent" (co_parent options) args in
  match co_labels options with
  | Some (l :: ls) => (args ++ ["--labels"; join "," (l :: ls)])%list
  | _ => args
  end.

(** [Array.isArray(parsed) ? parsed[0] : parsed]. *)
Definition pick_issue (parsed : json) : value :=
  if isArray parsed then first_element parsed else Some parsed.

Definition create (options : BdCreateOptions) : completion json :=
  let* result := exec (create_args options) in
  let* parsed := JSON_parse result in
  match pick_issue parsed with
  | Some issue =>
      if negb (truthy (Some issue)) || negb (truthy (get "id" issue))
      then Throws (mkError "bd create did not return an issue")
      else Returns issue
  | None => Throws (mkError "bd create did not return an issue")
  end.

End Subprocess.

End BdCli.

(** The fixtures of [BeadsClient.test.ts]. *)
Module BdCliFixtures.
Import BdCli.

Definition sampleIssue : BdIssue :=
  mkBdIssue "beads-001" "Test issue" None open 2 "task" None None
    "2024-01-15T12:00:00Z" None "2024-01-15T12:00:00Z" None None None
    None None None None None None None.

Definition closedBlocker : BdIssue :=
  mkBdIssue "beads-010" "Test issue" None closed 2 "task" None None
    "2024-01-15T12:00:00Z" None "2024-01-15T12:00:00Z" None None None
    None None None None None None (Some "blocks").

Definition openBlocker : BdIssue :=
  mkBdIssue "beads-010" "Test issue" None open 2 "task" None None
    "2024-01-15T12:00:00Z" None "2024-01-15T12:00:00Z" None None None
    None None None None None None (Some "blocks").

Definition noOptions : BdListOptions :=
  mkBdListOptions None None None None None None None None.

(** A [bd] that answers with its verb, so that the output of [list] and
    the output of [show] are told apart. *)
Definition mockExec (args : Datatypes.list string) : completion string :=
  match args with
  | verb :: _ => Returns verb
  | [] => Throws (mkError "bd: no command")
  end.

Definition mockParse (listed detailed : Datatypes.list BdIssue)
    (out : string) : completion (Datatypes.list BdIssue) :=
  if out =? "list" then Returns listed else Returns detailed.

Definition newIssue : BdCreateOptions :=
  mkBdCreateOptions "New issue" None None None None None None.

(** [JSON.stringify(sampleIssue)] parsed back. *)
Definition sampleJson : json :=
  JObj [("id", JStr "beads-001"); ("title", JStr "Test issue");
        ("status", JStr "open"); ("priority", JNum 2);
        ("issue_type", JStr "task");
        ("created_at", JStr "2024-01-15T12:00:00Z");
        ("updated_at", JStr "2024-01-15T12:00:00Z")].

End BdCliFixtures.

(** ** Transports and the JavaScript runtime *)

(** The two [Transport] implementations, as the objects [connect] builds. *)
Inductive Transport : Type :=
| DaemonTransport (workspaceRoot : string) (requestTimeout : option Z)
    (actor : option string)
| JsonlTransport (workspaceRoot : string).

Global Instance Transport_eq_dec : EqDecision Transport.
Proof. solve_decision. Defined.

(** What the code reaches outside its own objects: the interval timers
    ([setInterval]/[clearInterval]), and the calls made on transports, kept
    as logs, oldest first. *)
Record Runtime : Type := mkRuntime {
  timers : list (nat * Z);
  next_timer : nat;
  sent : list (Transport * string * json);
  closed : list Transport;
  watching : list Transport;
  subscribed : list Transport;
}.

Definition fresh_runtime : Runtime :=
  mkRuntime [] 0 [] [] [] [].

(** [setInterval(f, ms)]: a fresh handle, live until cleared. *)
Definition setInterval (ms : Z) (r : Runtime) : nat * Runtime :=
  (next_timer r,
   mkRuntime (timers r ++ [(next_timer r, ms)]) (S (next_timer r)) (sent r)
     (closed r) (watching r) (subscribed r)).

(** [clearInterval(handle)]. *)
Definition clearInterval (handle : nat) (r : Runtime) : Runtime :=
  mkRuntime (List.filter (fun t => negb (fst t =? handle)%nat) (timers r))
    (next_timer r) (sent r) (closed r) (watching r) (subscribed r).

Definition is_live (handle : nat) (r : Runtime) : bool :=
  existsb (fun t => (fst t =? handle)%nat) (timers r).

(** The record of one [transport.send(operation, args)]. *)
Definition log_send (t : Transport) (operation : string) (args : json)
    (r : Runtime) : Runtime :=
  mkRuntime (timers r) (next_timer r) (sent r ++ [(t, operation, args)])
    (closed r) (watching r) (subscribed r).

(** The record of one [transport.close()]. *)
Definition log_close (t : Transport) (r : Runtime) : Runtime :=
  mkRuntime (timers r) (next_timer r) (sent r) (closed r ++ [t])
    (watching r) (subscribed r).

(** [jsonl.startWatching()]. *)
Definition startWatching (t : Transport) (r : Runtime) : Runtime :=
  mkRuntime (timers r) (next_timer r) (sent r) (closed r)
    (watching r ++ [t]) (subscribed r).

(** [jsonl.onChange(() => this.notifyChange())]: one more subscription, on
    the transport object [connect] has just built. *)
Definition jsonl_onChange (t : Transport) (r : Runtime) : Runtime :=
  mkRuntime (timers r) (next_timer r) (sent r) (closed r) (watching r)
    (subscribed r ++ [t]).

(** [l] without its first [t]. *)
Fixpoint without_first (t : Transport) (l : list Transport)
  : list Transport :=
  match l with
  | [] => []
  | t' :: rest =>
      if bool_decide (t' = t) then rest else t' :: without_first t rest
  end.

(** The unsubscribe function that [jsonl.onChange] returned: it takes back
    the one subscription it was returned for.  The client keeps the function
    of its latest JSONL transport only, so that subscription is the latest
    made on [t]; subscriptions of transport objects built for the same root
    before stay. *)
Definition jsonl_unsubscribe (t : Transport) (r : Runtime) : Runtime :=
  mkRuntime (timers r) (next_timer r) (sent r) (closed r) (watching r)
    (rev (without_first t (rev (subscribed r)))).

(** ** Callback arrays *)

(** A registered callback is a function reference, compared by identity
    ([ref]), and what the function does when called.  Callbacks return
    normally; besides being called, a callback may call unsubscribe functions
    of the array it is registered in.  (Callbacks that throw, or that call
    [stop()] or [disconnect()], are taken up in [ReentrantPoller] and
    [ReentrantClient].) *)
Module Subscribers.

Inductive effect : Type :=
| Unsubscribe (target : nat).

Record callback : Type := mkCallback {
  ref : nat;
  body : list effect;
}.

(** [callbacks.push(callback)]. *)
Definition push (cb : callback) (callbacks : list callback) : list callback :=
  callbacks ++ [cb].

(** [callbacks.indexOf(callback)]; [None] is [-1]. *)
Fixpoint indexOf (target : nat) (callbacks : list callback) : option nat :=
  match callbacks with
  | [] => None
  | cb :: rest =>
      if (ref cb =? target)%nat then Some 0%nat
      else option_map S (indexOf target rest)
  end.

(** The unsubscribe function [onChange] returns:
    [const idx = callbacks.indexOf(callback);
     if (idx >= 0) callbacks.splice(idx, 1)]. *)
Definition unsubscribe (target : nat) (callbacks : list callback)
  : list callback :=
  match indexOf target callbacks with
  | Some idx => delete idx callbacks
  | None => callbacks
  end.

(** What calling [cb()] does to the array. *)
Fixpoint run (effects : list effect) (callbacks : list callback)
  : list callback :=
  match effects with
  | [] => callbacks
  | Unsubscribe target :: rest => run rest (unsubscribe target callbacks)
  end.

(** [for (const cb of callbacks) cb()].  The array iterator holds an index
    into the live array: each step reads [callbacks[i]] from the array as it
    is then, stops when [i] has reached its length, and moves to [i + 1].
    [calls] collects the references called.  [fuel] bounds the number of
    steps; [notify] gives as many as the array is long, which is enough
    since no callback makes the array longer. *)
Fixpoint forOf (fuel i : nat) (callbacks : list callback) (calls : list nat)
  : list callback * list nat :=
  match fuel with
  | O => (callbacks, calls)
  | S fuel =>
      match callbacks !! i with
      | None => (callbacks, calls)
      | Some cb =>
          forOf fuel (S i) (run (body cb) callbacks) (calls ++ [ref cb])
      end
  end.

Definition notify (callbacks : list callback) (calls : list nat)
  : list callback * list nat :=
  forOf (length callbacks) 0 callbacks calls.

(** A callback that only does its own work. *)
Definition inert (cb : callback) : Prop :=
  body cb = [].

End Subscribers.

(** ** The change poller, [poller.ts] *)

Module ChangePoller.
Import Subscribers.

(** The fields of the class, and [calls]: the references of the callbacks
    this poller has called so far (an observation, not a field). *)
Record t : Type := mkChangePoller {
  transport : Transport;
  intervalId : option nat;
  callbacks : list callback;
  lastHash : string;
  calls : list nat;
}.

(** [new ChangePoller(transport)]. *)
Definition new (transport : Transport) : t :=
  mkChangePoller transport None [] EmptyString [].

(** [stop()]. *)
Definition stop (w : Runtime * t) : Runtime * t :=
  let (r, p) := w in
  match intervalId p with
  | Some handle =>
      (clearInterval handle r,
       mkChangePoller (transport p) None (callbacks p) (lastHash p) (calls p))
  | None => w
  end.

(** [onChange(callback)]; the function it returns is [unsubscribe]. *)
Definition onChange (cb : callback) (p : t) : t :=
  mkChangePoller (transport p) (intervalId p) (push cb (callbacks p))
    (lastHash p) (calls p).

Definition unsubscribe (target : nat) (p : t) : t :=
  mkChangePoller (transport p) (intervalId p)
    (Subscribers.unsubscribe target (callbacks p)) (lastHash p) (calls p).

(** [for (const cb of this.callbacks) cb()]. *)
Definition fire (p : t) : t :=
  let (callbacks', calls') := notify (callbacks p) (calls p) in
  mkChangePoller (transport p) (intervalId p) callbacks' (lastHash p) calls'.

(** [this.lastHash && hash !== this.lastHash]. *)
Definition changed (hash : string) (p : t) : bool :=
  truthy_string (lastHash p) && negb (hash =? lastHash p).

(** [poll()], run to completion.  [answer] is how
    [transport.send("stats", {})] completes; a returned stats value is given
    by its JSON text, the string [JSON.stringify(stats)] evaluates to. *)
Definition poll (answer : completion string) (w : Runtime * t) : Runtime * t :=
  let (r, p) := w in
  let r := log_send (transport p) "stats" (JObj []) r in
  match answer with
  | Returns hash =>
      let p := if changed hash p then fire p else p in
      (r, mkChangePoller (transport p) (intervalId p) (callbacks p) hash
            (calls p))
  | Throws _ => (r, p)
  end.

(** [start(intervalMs = 2000)]; [answer] completes the immediate [poll()].
    A timer handle is an object, so [if (this.intervalId)] holds exactly when
    the field is set. *)
Definition start (intervalMs : option Z) (answer : completion string)
    (w : Runtime * t) : Runtime * t :=
  let (r, p) := w in
  match intervalId p with
  | Some _ => w
  | None =>
      let (handle, r) := setInterval (default 2000%Z intervalMs) r in
      poll answer
        (r, mkChangePoller (transport p) (Some handle) (callbacks p)
              (lastHash p) (calls p))
  end.

(** The timer of this poller comes due: [() => this.poll()] runs if the
    interval is still live. *)
Definition tick (answer : completion string) (w : Runtime * t) : Runtime * t :=
  let (r, p) := w in
  match intervalId p with
  | Some handle => if is_live handle r then poll answer w else w
  | None => w
  end.

(** What happens to a poller, one after the other. *)
Inductive event : Type :=
| Start (intervalMs : option Z) (answer : completion string)
| Stop
| Tick (answer : completion string)
| OnChange (cb : callback)
| Unsub (target : nat).

Definition step (w : Runtime * t) (e : event) : Runtime * t :=
  match e with
  | Start intervalMs answer => start intervalMs answer w
  | Stop => stop w
  | Tick answer => tick answer w
  | OnChange cb => (fst w, onChange cb (snd w))
  | Unsub target => (fst w, unsubscribe target (snd w))
  end.

Definition run_events (events : list event) (w : Runtime * t) : Runtime * t :=
  fold_left step events w.

(** The sample an event takes, if it starts a [poll()]. *)
Definition sampled (e : event) (w : Runtime * t) : list (completion string) :=
  match e with
  | Start _ answer =>
      match intervalId (snd w) with
      | Some _ => []
      | None => [answer]
      end
  | Tick answer =>
      match intervalId (snd w) with
      | Some handle => if is_live handle (fst w) then [answer] else []
      | None => []
      end
  | _ => []
  end.

(** The samples a run of events takes, in order. *)
Fixpoint samples (events : list event) (w : Runtime * t)
  : list (completion string) :=
  match events with
  | [] => []
  | e :: rest => (sampled e w ++ samples rest (step w e))%list
  end.

(** The fingerprint of the last sample that succeeded, if any did. *)
Fixpoint baseline (answers : list (completion string)) : option string :=
  match answers with
  | [] => None
  | a :: rest =>
      match baseline rest with
      | Some h => Some h
      | None =>
          match a with
          | Returns h => Some h
          | Throws _ => None
          end
      end
  end.

End ChangePoller.

(** ** The orchestrating client, [client.ts] *)

(** The double quote character, for messages that quote a name. *)
Definition dquote : string :=
  String (Ascii.ascii_of_nat 34) EmptyString.

(** [props[key] = v] on an object's property list. *)
Fixpoint set_prop (key : string) (v : json) (props : list (string * json))
  : list (string * json) :=
  match props with
  | [] => [(key, v)]
  | (k, old) :: rest =>
      if k =? key then (k, v) :: rest else (k, old) :: set_prop key v rest
  end.

(** [{ ...props, ...more }]. *)
Definition spread (props more : list (string * json))
  : list (string * json) :=
  fold_left (fun acc kv => set_prop (fst kv) (snd kv) acc) more props.

(** [DepType] of [types.ts]. *)
Inductive DepType : Type :=
| blocks | parent_child | related | discovered_from.

Definition DepType_to_string (d : DepType) : string :=
  match d with
  | blocks => "blocks"
  | parent_child => "parent-child"
  | related => "related"
  | discovered_from => "discovered-from"
  end.

Module BeadsClient.
Import Subscribers.

Record BeadsClientOptions : Type := mkBeadsClientOptions {
  requestTimeout : option Z;
  actor : option string;
  pollInterval : option Z;
}.

(** The fields of the class.  [jsonlUnsubscribe] names the transport whose
    [onChange] returned the stored function.  [calls] is an observation, not
    a field: the references of the change callbacks called so far. *)
Record t : Type := mkBeadsClient {
  daemon : option Transport;
  jsonl : option Transport;
  transport : option Transport;
  poller : option ChangePoller.t;
  changeCallbacks : list callback;
  jsonlUnsubscribe : option Transport;
  connected : bool;
  workspaceRoot : option string;
  options : BeadsClientOptions;
  calls : list nat;
}.

(** [new BeadsClient(options)]. *)
Definition new (options : BeadsClientOptions) : t :=
  mkBeadsClient None None None None [] None false None options [].

(** How the outside answers one [connect]: the daemon's reply to the ping,
    whether [jsonl.load()] found and loaded the file, and the daemon's reply
    to the poller's first [stats] (as JSON text). *)
Record answers : Type := mkAnswers {
  ping_answer : completion json;
  load_answer : bool;
  stats_answer : completion string;
}.

(** The one subscriber of the client's own poller,
    [() => this.notifyChange()]. *)
Definition notifier : callback :=
  mkCallback 0 [].

Definition no_file_message : string :=
  "Could not connect to daemon or find JSONL file. " ++
  "Make sure the beads daemon is running or .beads/issues.jsonl exists.".

(** [connect(workspaceRoot)]. *)
Definition connect (root : string) (env : answers) (w : Runtime * t)
  : completion unit * (Runtime * t) :=
  let (r, c) := w in
  let d := DaemonTransport root (requestTimeout (options c))
             (actor (options c)) in
  let r := log_send d "ping" (JObj []) r in
  match ping_answer env with
  | Returns _ =>
      let p := ChangePoller.onChange notifier (ChangePoller.new d) in
      let (r, p) :=
        ChangePoller.start (Some (default 2000%Z (pollInterval (options c))))
          (stats_answer env) (r, p) in
      (Returns tt,
       (r, mkBeadsClient (Some d) (jsonl c) (Some d) (Some p)
             (changeCallbacks c) (jsonlUnsubscribe c) true (Some root)
             (options c) (calls c)))
  | Throws _ =>
      let j := JsonlTransport root in
      if load_answer env then
        let r := startWatching j r in
        let r := jsonl_onChange j r in
        (Returns tt,
         (r, mkBeadsClient (daemon c) (Some j) (Some j) (poller c)
               (changeCallbacks c) (Some j) true (Some root) (options c)
               (calls c)))
      else
        (Throws (mkError no_file_message),
         (r, mkBeadsClient (daemon c) (jsonl c) (transport c) (poller c)
               (changeCallbacks c) (jsonlUnsubscribe c) (connected c)
               (Some root) (options c) (calls c)))
  end.

(** [disconnect()]. *)
Definition disconnect (w : Runtime * t) : completion unit * (Runtime * t) :=
  let (r, c) := w in
  let r :=
    match poller c with
    | Some p => fst (ChangePoller.stop (r, p))
    | None => r
    end in
  let r :=
    match jsonlUnsubscribe c with
    | Some j => jsonl_unsubscribe j r
    | None => r
    end in
  let r := match daemon c with Some d => log_close d r | None => r end in
  let r := match jsonl c with Some j => log_close j r | None => r end in
  (Returns tt,
   (r, mkBeadsClient None None None None [] None false (workspaceRoot c)
         (options c) (calls c))).

Definition isConnected (c : t) : bool :=
  connected c.

(** [onChange(callback)]; the function it returns is [unsubscribe]. *)
Definition onChange (cb : callback) (c : t) : t :=
  mkBeadsClient (daemon c) (jsonl c) (transport c) (poller c)
    (push cb (changeCallbacks c)) (jsonlUnsubscribe c) (connected c)
    (workspaceRoot c) (options c) (calls c).

Definition unsubscribe (target : nat) (c : t) : t :=
  mkBeadsClient (daemon c) (jsonl c) (transport c) (poller c)
    (Subscribers.unsubscribe target (changeCallbacks c))
    (jsonlUnsubscribe c) (connected c) (workspaceRoot c) (options c)
    (calls c).

(** [notifyChange()]: [for (const cb of this.changeCallbacks) cb()]. *)
Definition notifyChange (c : t) : t :=
  let (callbacks', calls') := notify (changeCallbacks c) (calls c) in
  mkBeadsClient (daemon c) (jsonl c) (transport c) (poller c) callbacks'
    (jsonlUnsubscribe c) (connected c) (workspaceRoot c) (options c) calls'.

(** [send(operation, args)]; [answer] is how the transport's [send]
    completes. *)
Definition send (operation : string) (args : json) (answer : completion json)
    (w : Runtime * t) : completion json * (Runtime * t) :=
  let (r, c) := w in
  match transport c with
  | None => (Throws (mkError "Not connected. Call connect() first."), w)
  | Some tr => (answer, (log_send tr operation args r, c))
  end.

Definition requires_daemon_message (operation : string) : string :=
  "Operation " ++ dquote ++ operation ++ dquote ++
  " requires a daemon connection. " ++ "JSONL fallback is read-only.".

(** [requireDaemon(operation)]. *)
Definition requireDaemon (operation : string) (c : t) : completion unit :=
  match daemon c with
  | None => Throws (mkError (requires_daemon_message operation))
  | Some _ => Returns tt
  end.

(** [create(input)]; the input object is passed on as it is. *)
Definition create (input : json) (answer : completion json)
    (w : Runtime * t) : completion json * (Runtime * t) :=
  match requireDaemon "create" (snd w) with
  | Throws e => (Throws e, w)
  | Returns _ => send "create" input answer w
  end.

(** [update(id, changes)]: [{ id, ...changes }]. *)
Definition update (id : string) (changes : list (string * json))
    (answer : completion json) (w : Runtime * t)
  : completion json * (Runtime * t) :=
  match requireDaemon "update" (snd w) with
  | Throws e => (Throws e, w)
  | Returns _ =>
      send "update" (JObj (spread [("id", JStr id)] changes)) answer w
  end.

(** [close(id, reason?)]. *)
Definition close (id : string) (reason : option string)
    (answer : completion json) (w : Runtime * t)
  : completion json * (Runtime * t) :=
  match requireDaemon "close" (snd w) with
  | Throws e => (Throws e, w)
  | Returns _ =>
      let args := [("id", JStr id)] in
      let args :=
        match reason with
        | Some s => if truthy_string s then set_prop "reason" (JStr s) args
                    else args
        | None => args
        end in
      send "close" (JObj args) answer w
  end.

(** [addDependency(fromId, toId, type)]; the promise resolves to nothing. *)
Definition addDependency (fromId toId : string) (type : DepType)
    (answer : completion json) (w : Runtime * t)
  : completion unit * (Runtime * t) :=
  match requireDaemon "dep_add" (snd w) with
  | Throws e => (Throws e, w)
  | Returns _ =>
      let (result, w') :=
        send "dep_add"
          (JObj [("from_id", JStr fromId); ("to_id", JStr toId);
                 ("dep_type", JStr (DepType_to_string type))]) answer w in
      (let* _ := result in Returns tt, w')
  end.

(** The four write operations, by name. *)
Inductive write : Type :=
| Create (input : json)
| Update (id : string) (changes : list (string * json))
| Close (id : string) (reason : option string)
| AddDependency (fromId toId : string) (type : DepType).

(** The name a write operation passes to [requireDaemon] and [send]. *)
Definition operation_of (op : write) : string :=
  match op with
  | Create _ => "create"
  | Update _ _ => "update"
  | Close _ _ => "close"
  | AddDependency _ _ _ => "dep_add"
  end.

(** A write call; the value a promise fulfils with is left out. *)
Definition perform (op : write) (answer : completion json) (w : Runtime * t)
  : completion unit * (Runtime * t) :=
  match op with
  | Create input =>
      let (result, w') := create input answer w in
      (let* _ := result in Returns tt, w')
  | Update id changes =>
      let (result, w') := update id changes answer w in
      (let* _ := result in Returns tt, w')
  | Close id reason =>
      let (result, w') := close id reason answer w in
      (let* _ := result in Returns tt, w')
  | AddDependency fromId toId type => addDependency fromId toId type answer w
  end.

(** The timer of the client's poller comes due.  When the poller calls its
    subscriber, that subscriber runs [notifyChange]. *)
Definition tick (answer : completion string) (w : Runtime * t)
  : Runtime * t :=
  let (r, c) := w in
  match poller c with
  | None => w
  | Some p =>
      let (r', p') := ChangePoller.tick answer (r, p) in
      let c' :=
        mkBeadsClient (daemon c) (jsonl c) (transport c) (Some p')
          (changeCallbacks c) (jsonlUnsubscribe c) (connected c)
          (workspaceRoot c) (options c) (calls c) in
      if (length (ChangePoller.calls p) <? length (ChangePoller.calls p'))%nat
      then (r', notifyChange c') else (r', c')
  end.

(** The watcher of the JSONL transport [j] reports a change of the file. *)
Definition fileChange (j : Transport) (w : Runtime * t) : Runtime * t :=
  let (r, c) := w in
  if bool_decide (elem_of j (subscribed r)) then (r, notifyChange c) else w.

(** What happens to a client, one after the other.  [Notified] is a call of
    [notifyChange] from a change source the client holds no reference to any
    more (a poller or a watcher that an earlier [connect] left behind). *)
Inductive event : Type :=
| Connect (root : string) (env : answers)
| Disconnect
| OnChange (cb : callback)
| Unsub (target : nat)
| Tick (answer : completion string)
| FileChange (j : Transport)
| Notified
| Write (op : write) (answer : completion json).

Definition step (w : Runtime * t) (e : event) : Runtime * t :=
  match e with
  | Connect root env => snd (connect root env w)
  | Disconnect => snd (disconnect w)
  | OnChange cb => (fst w, onChange cb (snd w))
  | Unsub target => (fst w, unsubscribe target (snd w))
  | Tick answer => tick answer w
  | FileChange j => fileChange j w
  | Notified => (fst w, notifyChange (snd w))
  | Write op answer => snd (perform op answer w)
  end.

Definition run_events (events : list event) (w : Runtime * t) : Runtime * t :=
  fold_left step events w.

(** An event that registers the function [target] again. *)
Definition registers (target : nat) (e : event) : Prop :=
  match e with
  | OnChange cb => ref cb = target
  | _ => False
  end.

End BeadsClient.

(** The fixtures of [poller.test.ts]: two plain callbacks, one that
    unsubscribes itself when called (a one-shot listener), and stats answers
    given by their JSON text. *)
Module PollerFixtures.
Import Subscribers.

Definition statsTransport : Transport :=
  DaemonTransport "/repo" None None.

Definition first : callback :=
  mkCallback 1 [].

Definition second : callback :=
  mkCallback 2 [].

Definition once : callback :=
  mkCallback 1 [Unsubscribe 1].

Definition third : callback :=
  mkCallback 3 [].


Definition total5 : completion string :=
  Returns "[5]".

Definition total6 : completion string :=
  Returns "[6]".

Definition refused : completion string :=
  Throws (mkError "connection refused").

End PollerFixtures.

(** The situations of [client.test.ts]: a daemon that answers, no daemon but
    a JSONL file, and neither. *)
Module ClientFixtures.
Import Subscribers BeadsClient.

Definition defaults : BeadsClientOptions :=
  mkBeadsClientOptions None None None.

Definition pong : json :=
  JObj [("message", JStr "pong"); ("version", JStr "0.49.0")].

Definition noSocket : Error :=
  mkError "connect ENOENT /repo/.beads/bd.sock".

Definition daemonUp : answers :=
  mkAnswers (Returns pong) true (Returns "[5]").

Definition fileOnly : answers :=
  mkAnswers (Throws noSocket) true (Throws noSocket).

Definition neither : answers :=
  mkAnswers (Throws noSocket) false (Throws noSocket).

Definition newTitle : json :=
  JObj [("title", JStr "New")].

(** What the JSONL transport answers to a write. *)
Definition readOnly : completion json :=
  Throws (mkError "JSONL transport is read-only").

End ClientFixtures.

(** ** The snapshot transport's [ready] query

    [transport/jsonl.ts] is not among the sources at hand; its test file and
    the record types of [types.ts] are.  The types below are those of
    [types.ts]; the functions are modelled from the specification, in its
    words. *)

Module JsonlTransport.

(** [RawJsonlDependency]. *)
Record RawJsonlDependency : Type := mkRawJsonlDependency {
  issue_id : string;
  depends_on_id : string;
  type : string;
  dep_created_at : string;
  dep_created_by : option string;
}.

(** [RawJsonlIssue]. *)
Record RawJsonlIssue : Type := mkRawJsonlIssue {
  raw_id : string;
  raw_title : string;
  raw_description : option string;
  raw_status : string;
  raw_priority : Z;
  raw_issue_type : string;
  raw_assignee : option string;
  raw_labels : option (list string);
  raw_created_at : string;
  raw_updated_at : string;
  raw_closed_at : option string;
  raw_design : option string;
  raw_acceptance_criteria : option string;
  raw_notes : option string;
  raw_external_ref : option string;
  raw_estimated_minutes : option Z;
  raw_due_at : option string;
  raw_defer_until : option string;
  raw_owner : option string;
  raw_metadata : option json;
  raw_dependencies : option (list RawJsonlDependency);
  raw_dependency_count : option Z;
  raw_dependent_count : option Z;
}.

(** [LinkedIssue]. *)
Record LinkedIssue : Type := mkLinkedIssue {
  linked_id : string;
  linked_title : string;
  linked_description : string;
  linked_status : string;
  linked_priority : Z;
  linked_issue_type : string;
  linked_assignee : option string;
  linked_labels : list string;
  linked_created_at : string;
  linked_updated_at : string;
  linked_closed_at : option string;
  dependency_type : option string;
  linked_dependency_count : Z;
  linked_dependent_count : Z;
}.

(** [Issue]. *)
Record Issue : Type := mkIssue {
  id : string;
  title : string;
  description : string;
  status : string;
  priority : Z;
  issue_type : string;
  assignee : option string;
  labels : list string;
  created_at : string;
  updated_at : string;
  closed_at : option string;
  design : option string;
  acceptance_criteria : option string;
  notes : option string;
  external_ref : option string;
  dependency_count : Z;
  dependent_count : Z;
  dependencies : list LinkedIssue;
  dependents : list LinkedIssue;
}.

(** The in-memory index: a [Map] from id to record, in insertion order. *)
Definition index : Type := list (string * RawJsonlIssue).

(** [map.get(key)]. *)
Fixpoint get_record (key : string) (m : index) : option RawJsonlIssue :=
  match m with
  | [] => None
  | (k, v) :: rest => if k =? key then Some v else get_record key rest
  end.

(** [map.set(key, v)]: a key already present keeps its place. *)
Fixpoint set_record (key : string) (v : RawJsonlIssue) (m : index) : index :=
  match m with
  | [] => [(key, v)]
  | (k, old) :: rest =>
      if k =? key then (k, v) :: rest else (k, old) :: set_record key v rest
  end.

(** Modelled from the spec: the load step of the snapshot transport
    ([load] of [transport/jsonl.ts]), on the records of the lines that
    parse: "Loading populates an id-keyed mapping (unique keys; last record
    with a given id wins if duplicates occur)". *)
Definition load (records : list RawJsonlIssue) : index :=
  fold_left (fun m record => set_record (raw_id record) record m) records [].

(** The records of the index, in order. *)
Definition records_of (m : index) : list RawJsonlIssue :=
  map snd m.

(** The outgoing edges embedded in a record. *)
Definition edges (record : RawJsonlIssue) : list RawJsonlDependency :=
  default [] (raw_dependencies record).

(** The projection of a record that a [LinkedIssue] is, with the type of
    the edge that leads to it. *)
Definition link (edge_type : string) (record : RawJsonlIssue) : LinkedIssue :=
  mkLinkedIssue (raw_id record) (raw_title record)
    (default EmptyString (raw_description record)) (raw_status record)
    (raw_priority record) (raw_issue_type record) (raw_assignee record)
    (default [] (raw_labels record)) (raw_created_at record)
    (raw_updated_at record) (raw_closed_at record) (Some edge_type)
    (default 0%Z (raw_dependency_count record))
    (default 0%Z (raw_dependent_count record)).

(** Modelled from the spec: the graph reconstruction of the snapshot
    transport, forward direction: "for an issue A with an edge to B, A gains
    a dependencies entry referencing B (carrying the edge's type)"; an edge
    whose target is not in the snapshot gives no entry ("excluded from
    derived views that require the target to exist"). *)
Definition dependencies_of (m : index) (record : RawJsonlIssue)
  : list LinkedIssue :=
  omap (fun edge =>
          option_map (link (type edge)) (get_record (depends_on_id edge) m))
    (edges record).

(** Modelled from the spec: the graph reconstruction of the snapshot
    transport, reverse direction: "B gains a dependents entry referencing A
    (same type, reversed direction)". *)
Definition dependents_of (m : index) (record : RawJsonlIssue)
  : list LinkedIssue :=
  flat_map
    (fun other =>
       map (fun edge => link (type edge) other)
         (List.filter (fun edge => depends_on_id edge =? raw_id record)
            (edges other)))
    (records_of m).

(** The [Issue] a record is shown as. *)
Definition to_issue (m : index) (record : RawJsonlIssue) : Issue :=
  mkIssue (raw_id record) (raw_title record)
    (default EmptyString (raw_description record)) (raw_status record)
    (raw_priority record) (raw_issue_type record) (raw_assignee record)
    (default [] (raw_labels record)) (raw_created_at record)
    (raw_updated_at record) (raw_closed_at record) (raw_design record)
    (raw_acceptance_criteria record) (raw_notes record)
    (raw_external_ref record)
    (Z.of_nat (length (dependencies_of m record)))
    (Z.of_nat (length (dependents_of m record)))
    (dependencies_of m record) (dependents_of m record).

Definition issues (m : index) : list Issue :=
  map (to_issue m) (records_of m).

(** The blockers of an issue that are not resolved: its dependencies over
    a [blocks] edge whose status is not [closed]. *)
Definition unresolved (dep : LinkedIssue) : bool :=
  match dependency_type dep with
  | Some t => (t =? "blocks") && negb (linked_status dep =? "closed")
  | None => false
  end.

Definition open_blockers (issue : Issue) : list LinkedIssue :=
  List.filter unresolved (dependencies issue).

(** Modelled from the spec: the [ready] query of the snapshot transport
    ([send("ready", {})] of [transport/jsonl.ts]), with no filter: "issues
    whose status is open or in_progress AND that have zero unresolved blocks
    edges pointing to them (an edge is unresolved if the referenced blocker's
    status is not closed)", in the order of the snapshot. *)
Definition ready (m : index) : list Issue :=
  List.filter
    (fun issue =>
       ((status issue =? "open") || (status issue =? "in_progress")) &&
       (length (open_blockers issue) =? 0)%nat)
    (issues m).

(** [makeIssue(overrides)] of the test file, for the fields the tests
    override here. *)
Definition makeIssue (id status : string)
    (dependencies : option (list RawJsonlDependency)) : RawJsonlIssue :=
  mkRawJsonlIssue id "Test issue" (Some "A test issue") status 2 "task" None
    (Some []) "2025-01-01T00:00:00Z" "2025-01-01T00:00:00Z" None None None
    None None None None None None None dependencies (Some 0%Z) (Some 0%Z).

(** The snapshot of "returns open issues with no blockers": an open, a
    closed and an in-progress issue, none with an edge. *)
Definition threeStatuses : list RawJsonlIssue :=
  [makeIssue "bd-1" "open" None;
   makeIssue "bd-2" "closed" None;
   makeIssue "bd-3" "in_progress" None].

(** The snapshot of "excludes issues with open blockers". *)
Definition withBlocker : list RawJsonlIssue :=
  [makeIssue "bd-blocker" "open" None;
   makeIssue "bd-blocked" "open"
     (Some [mkRawJsonlDependency "bd-blocked" "bd-blocker" "blocks"
              "2025-01-01T00:00:00Z" None]);
   makeIssue "bd-free" "open" None].

(** An issue in progress whose one blocker is closed, and an open issue
    that it blocks in turn. *)
Definition started : RawJsonlIssue :=
  makeIssue "bd-started" "in_progress"
    (Some [mkRawJsonlDependency "bd-started" "bd-done" "blocks"
             "2025-01-01T00:00:00Z" None]).

Definition inProgress : list RawJsonlIssue :=
  [makeIssue "bd-done" "closed" None;
   started;
   makeIssue "bd-next" "open"
     (Some [mkRawJsonlDependency "bd-next" "bd-started" "blocks"
              "2025-01-01T00:00:00Z" None])].

End JsonlTransport.

(** ** Invariants of the poller and of the client, and the client's reads *)

Module ChangePollerInvariants.
Import ChangePoller.

(** The interval the runtime holds for a poller is the one in its
    [intervalId], and there is no other. *)
Definition one_interval (w : Runtime * t) : Prop :=
  match intervalId (snd w) with
  | Some handle => exists ms, timers (fst w) = [(handle, ms)]
  | None => timers (fst w) = []
  end.

(** An event that registers the function [target]. *)
Definition registers (target : nat) (e : event) : Prop :=
  match e with
  | OnChange cb => Subscribers.ref cb = target
  | _ => False
  end.

End ChangePollerInvariants.

(** The read operations of [client.ts]; a filter object is given by its
    property list, and [{ ...filter }] is a copy of it. *)
Module BeadsClientReads.
Import BeadsClient.

(** [show(id)]. *)
Definition show (id : string) (answer : completion json) (w : Runtime * t)
  : completion json * (Runtime * t) :=
  send "show" (JObj [("id", JStr id)]) answer w.

(** [ready(filter = {})]. *)
Definition ready (filter : list (string * json)) (answer : completion json)
    (w : Runtime * t) : completion json * (Runtime * t) :=
  send "ready" (JObj (spread [] filter)) answer w.

(** [blocked(filter = {})]. *)
Definition blocked (filter : list (string * json)) (answer : completion json)
    (w : Runtime * t) : completion json * (Runtime * t) :=
  send "blocked" (JObj (spread [] filter)) answer w.

(** [stats()]. *)
Definition stats (answer : completion json) (w : Runtime * t)
  : completion json * (Runtime * t) :=
  send "stats" (JObj []) answer w.

(** [ping()]. *)
Definition ping (answer : completion json) (w : Runtime * t)
  : completion json * (Runtime * t) :=
  send "ping" (JObj []) answer w.

(** [health()]. *)
Definition health (answer : completion json) (w : Runtime * t)
  : completion json * (Runtime * t) :=
  send "health" (JObj []) answer w.

(** The read operations, by name. *)
Inductive read : Type :=
| List (filter : list (string * json))
| Show (id : string)
| Ready (filter : list (string * json))
| Blocked (filter : list (string * json))
| Stats
| Ping
| Health.

(** The name a read operation passes to [send]. *)
Definition read_operation (q : read) : string :=
  match q with
  | List _ => "list"
  | Show _ => "show"
  | Ready _ => "ready"
  | Blocked _ => "blocked"
  | Stats => "stats"
  | Ping => "ping"
  | Health => "health"
  end.

(** [list(filter = {})]. *)
Definition list (filter : Datatypes.list (string * json))
    (answer : completion json) (w : Runtime * t)
  : completion json * (Runtime * t) :=
  send "list" (JObj (spread [] filter)) answer w.

(** A read call. *)
Definition query (q : read) (answer : completion json) (w : Runtime * t)
  : completion json * (Runtime * t) :=
  match q with
  | List filter => list filter answer w
  | Show id => show id answer w
  | Ready filter => ready filter answer w
  | Blocked filter => blocked filter answer w
  | Stats => stats answer w
  | Ping => ping answer w
  | Health => health answer w
  end.

End BeadsClientReads.

Module BeadsClientInvariants.
Import BeadsClient.

(** What the fields of a client have to do with each other. *)
Definition coherent (c : t) : Prop :=
  (connected c = true <-> transport c <> None) /\
  (forall tr, transport c = Some tr -> daemon c = Some tr \/ jsonl c = Some tr) /\
  jsonlUnsubscribe c = jsonl c /\
  (forall p, poller c = Some p ->
     daemon c = Some (ChangePoller.transport p) /\
     ChangePoller.callbacks p = [notifier] /\
     ChangePoller.intervalId p <> None).

(** The value bound to [key] by the last entry for it in a property list. *)
Fixpoint last_binding (key : string) (props : list (string * json))
  : value :=
  match props with
  | [] => None
  | (k, v) :: rest =>
      match last_binding key rest with
      | Some v' => Some v'
      | None => if k =? key then Some v else None
      end
  end.

End BeadsClientInvariants.

(** ** More of the subprocess client: options left empty, details by id *)

Module BdCliOptions.
Import BdCli.

(** An optional string with the empty string read as absent. *)
Definition nonempty (s : option string) : option string :=
  if truthy_field s then s else None.

(** An optional flag with [false] read as absent. *)
Definition raised (b : option bool) : option bool :=
  match b with
  | Some true => Some true
  | _ => None
  end.

(** Create options with every empty string and an empty label list read as
    absent. *)
Definition create_given (o : BdCreateOptions) : BdCreateOptions :=
  mkBdCreateOptions (co_title o) (nonempty (co_description o))
    (co_priority o) (nonempty (co_type o)) (nonempty (co_assignee o))
    (nonempty (co_parent o))
    match co_labels o with
    | Some [] => None
    | other => other
    end.

(** List options with every empty string and every [false] read as
    absent. *)
Definition list_given (o : BdListOptions) : BdListOptions :=
  mkBdListOptions (lo_limit o) (lo_status o) (lo_priority o)
    (nonempty (lo_type o)) (nonempty (lo_assignee o)) (nonempty (lo_parent o))
    (raised (lo_ready o)) (raised (lo_all o)).

(** The fields of an issue that [listWithParents] never writes. *)
Definition same_listing (a b : BdIssue) : Prop :=
  id a = id b /\ title a = title b /\ description a = description b /\
  priority a = priority b /\ issue_type a = issue_type b /\
  assignee a = assignee b /\ owner a = owner b /\
  created_at a = created_at b /\ created_by a = created_by b /\
  updated_at a = updated_at b /\ closed_at a = closed_at b /\
  labels a = labels b /\ dependency_count a = dependency_count b /\
  dependent_count a = dependent_count b /\ dependents a = dependents b /\
  dependency_type a = dependency_type b.

(** The last issue with the given id in what [bd show] printed. *)
Definition last_shown (key : string) (detailedIssues : Datatypes.list BdIssue)
  : option BdIssue :=
  find (fun issue => id issue =? key) (rev detailedIssues).

End BdCliOptions.

(** ** [JSON.stringify] on JSON values

    The fingerprint the poller compares is [JSON.stringify(stats)].  A number
    is integral and below 10^21 in size, where [String(n)] is its decimal
    numeral; the characters of a string are taken one by one. *)

Definition hex_digit (n : nat) : string :=
  String.substring n 1 "0123456789abcdef".

(** One character inside a quoted string: the quote and the backslash are
    escaped, the control characters are written [\b], [\t], [\n], [\f],
    [\r], or [\u00xx] in lower case; every other character stands for
    itself. *)
Definition escape (c : Ascii.ascii) : string :=
  let n := Ascii.nat_of_ascii c in
  if (n =? 34)%nat then "\" ++ dquote
  else if (n =? 92)%nat then "\\"
  else if (n =? 8)%nat then "\b"
  else if (n =? 9)%nat then "\t"
  else if (n =? 10)%nat then "\n"
  else if (n =? 12)%nat then "\f"
  else if (n =? 13)%nat then "\r"
  else if (n <? 32)%nat
       then "\u00" ++ hex_digit (n / 16) ++ hex_digit (n mod 16)
  else String c EmptyString.

Fixpoint escape_all (s : string) : string :=
  match s with
  | EmptyString => EmptyString
  | String c rest => escape c ++ escape_all rest
  end.

Definition quote (s : string) : string :=
  dquote ++ escape_all s ++ dquote.

(** [JSON.stringify(v)], with no indentation. *)
Fixpoint JSON_stringify (v : json) : string :=
  match v with
  | JNull => "null"
  | JBool b => if b then "true" else "false"
  | JNum n => String_of_number n
  | JStr s => quote s
  | JArr items => "[" ++ BdCli.join "," (map JSON_stringify items) ++ "]"
  | JObj props =>
      "{" ++
      BdCli.join ","
        (map (fun kv : string * json =>
                let (k, x) := kv in quote k ++ ":" ++ JSON_stringify x)
           props) ++
      "}"
  end.

(** ** Callbacks that throw or call back

    The poller and the client of the sections above take a callback to
    return normally and to do nothing to its object but unsubscribe.  The
    sections below take them up again for callbacks that are free to throw
    and to call [stop()] or [disconnect()] from inside a notification round,
    and for polls that are answered while other calls have been made in
    between. *)

Module Callbacks.

(** A registered callback: a function reference, compared by identity
    ([ref]), and what the function does when it is called, step by step
    ([body], over the steps a callback of the object is given to take).  A
    callback whose steps run out returns. *)
Record callback (A : Type) : Type := mkCallback {
  ref : nat;
  body : list A;
}.
Arguments mkCallback {A} ref body.
Arguments ref {A} c.
Arguments body {A} c.

(** [callbacks.indexOf(callback)]; [None] is [-1]. *)
Fixpoint indexOf {A : Type} (target : nat) (callbacks : list (callback A))
  : option nat :=
  match callbacks with
  | [] => None
  | cb :: rest =>
      if (ref cb =? target)%nat then Some 0%nat
      else option_map S (indexOf target rest)
  end.

(** The unsubscribe function [onChange] returns, on the array it finds:
    [const idx = callbacks.indexOf(callback);
     if (idx >= 0) callbacks.splice(idx, 1)]. *)
Definition unsubscribe {A : Type} (target : nat)
    (callbacks : list (callback A)) : list (callback A) :=
  match indexOf target callbacks with
  | Some idx => delete idx callbacks
  | None => callbacks
  end.

(** A callback that only does its own work. *)
Definition inert {A : Type} (cb : callback A) : Prop :=
  body cb = [].

End Callbacks.

(** ** The change poller with such callbacks, [poller.ts] *)

Module ReentrantPoller.
Import Callbacks.

(** The steps of a callback of the poller: it calls the unsubscribe
    function [onChange] returned for a callback, it calls [stop()], or it
    throws.  A callback does not register callbacks while a round runs. *)
Inductive action : Type :=
| Unsubscribe (target : nat)
| StopPolling
| Throw (e : Error).

Definition callback : Type := Callbacks.callback action.

(** The fields of the class, and two observations: [inflight], the calls of
    [poll()] that wait at [await this.transport.send("stats", {})], and
    [calls], the references of the callbacks called so far. *)
Record t : Type := mkChangePoller {
  transport : Transport;
  intervalId : option nat;
  callbacks : list callback;
  lastHash : string;
  inflight : nat;
  calls : list nat;
}.

Definition set_intervalId (v : option nat) (p : t) : t :=
  mkChangePoller (transport p) v (callbacks p) (lastHash p) (inflight p)
    (calls p).

Definition set_callbacks (v : list callback) (p : t) : t :=
  mkChangePoller (transport p) (intervalId p) v (lastHash p) (inflight p)
    (calls p).

Definition set_lastHash (v : string) (p : t) : t :=
  mkChangePoller (transport p) (intervalId p) (callbacks p) v (inflight p)
    (calls p).

Definition set_inflight (v : nat) (p : t) : t :=
  mkChangePoller (transport p) (intervalId p) (callbacks p) (lastHash p) v
    (calls p).

Definition set_calls (v : list nat) (p : t) : t :=
  mkChangePoller (transport p) (intervalId p) (callbacks p) (lastHash p)
    (inflight p) v.

(** [new ChangePoller(transport)]. *)
Definition new (transport : Transport) : t :=
  mkChangePoller transport None [] EmptyString 0 [].

(** [stop()]. *)
Definition stop (w : Runtime * t) : Runtime * t :=
  let (r, p) := w in
  match intervalId p with
  | Some handle => (clearInterval handle r, set_intervalId None p)
  | None => w
  end.

(** [onChange(callback)]; the function it returns is [unsubscribe]. *)
Definition onChange (cb : callback) (p : t) : t :=
  set_callbacks (callbacks p ++ [cb])%list p.

Definition unsubscribe (target : nat) (p : t) : t :=
  set_callbacks (Callbacks.unsubscribe target (callbacks p)) p.

(** [cb()]: the steps of the callback, up to the first that throws. *)
Fixpoint run (actions : list action) (w : Runtime * t)
  : completion unit * (Runtime * t) :=
  match actions with
  | [] => (Returns tt, w)
  | Unsubscribe target :: rest => run rest (fst w, unsubscribe target (snd w))
  | StopPolling :: rest => run rest (stop w)
  | Throw e :: _ => (Throws e, w)
  end.

Definition call (cb : callback) (w : Runtime * t)
  : completion unit * (Runtime * t) :=
  run (body cb) (fst w, set_calls (calls (snd w) ++ [ref cb])%list (snd w)).

(** [for (const cb of this.callbacks) cb()].  The array iterator holds an
    index into the live array: each step reads [this.callbacks[i]] from the
    array as it is then, stops when [i] has reached its length, and moves to
    [i + 1]; a callback that throws ends the loop.  [fuel] bounds the number
    of steps; [fire] gives as many as the array is long, which is enough
    since no callback makes the array longer. *)
Fixpoint forOf (fuel i : nat) (w : Runtime * t)
  : completion unit * (Runtime * t) :=
  match fuel with
  | O => (Returns tt, w)
  | S fuel =>
      match callbacks (snd w) !! i with
      | None => (Returns tt, w)
      | Some cb =>
          match call cb w with
          | (Returns _, w') => forOf fuel (S i) w'
          | (Throws e, w') => (Throws e, w')
          end
      end
  end.

Definition fire (w : Runtime * t) : completion unit * (Runtime * t) :=
  forOf (length (callbacks (snd w))) 0 w.

(** [this.lastHash && hash !== this.lastHash]. *)
Definition changed (hash : string) (p : t) : bool :=
  truthy_string (lastHash p) && negb (hash =? lastHash p).

(** [poll()] up to its [await]: the request is made, and the call waits for
    the answer. *)
Definition request (w : Runtime * t) : Runtime * t :=
  let (r, p) := w in
  (log_send (transport p) "stats" (JObj []) r,
   set_inflight (S (inflight p)) p).

(** [poll()] from its [await] on, when [transport.send("stats", {})]
    completes with [answer]: everything happens inside the one [try], so a
    rejected request and a callback that throws both end the call there, with
    [lastHash] as it was. *)
Definition resume (answer : completion json) (w : Runtime * t)
  : Runtime * t :=
  let (r, p) := w in
  let p := set_inflight (pred (inflight p)) p in
  match answer with
  | Returns stats =>
      let hash := JSON_stringify stats in
      if changed hash p then
        match fire (r, p) with
        | (Returns _, (r', p')) => (r', set_lastHash hash p')
        | (Throws _, w') => w'
        end
      else (r, set_lastHash hash p)
  | Throws _ => (r, p)
  end.

(** A [poll()] that is answered before anything else happens. *)
Definition poll (answer : completion json) (w : Runtime * t) : Runtime * t :=
  resume answer (request w).

(** [start(intervalMs = 2000)]: the immediate [poll()] makes its request.
    A timer handle is an object, so [if (this.intervalId)] holds exactly when
    the field is set. *)
Definition start (intervalMs : option Z) (w : Runtime * t) : Runtime * t :=
  let (r, p) := w in
  match intervalId p with
  | Some _ => w
  | None =>
      let (handle, r) := setInterval (default 2000%Z intervalMs) r in
      request (r, set_intervalId (Some handle) p)
  end.

(** The timer of this poller comes due: [() => this.poll()] runs if the
    interval is still live. *)
Definition tick (w : Runtime * t) : Runtime * t :=
  let (r, p) := w in
  match intervalId p with
  | Some handle => if is_live handle r then request w else w
  | None => w
  end.

(** A request of this poller is answered, if one is waiting. *)
Definition reply (answer : completion json) (w : Runtime * t)
  : Runtime * t :=
  if (0 <? inflight (snd w))%nat then resume answer w else w.

(** What happens to a poller, one after the other. *)
Inductive event : Type :=
| Start (intervalMs : option Z)
| Stop
| Tick
| Reply (answer : completion json)
| OnChange (cb : callback)
| Unsub (target : nat).

Definition step (w : Runtime * t) (e : event) : Runtime * t :=
  match e with
  | Start intervalMs => start intervalMs w
  | Stop => stop w
  | Tick => tick w
  | Reply answer => reply answer w
  | OnChange cb => (fst w, onChange cb (snd w))
  | Unsub target => (fst w, unsubscribe target (snd w))
  end.

Definition run_events (events : list event) (w : Runtime * t) : Runtime * t :=
  fold_left step events w.

(** The sample an event brings in: the answer to a waiting request. *)
Definition sampled (e : event) (w : Runtime * t) : list (completion json) :=
  match e with
  | Reply answer => if (0 <? inflight (snd w))%nat then [answer] else []
  | _ => []
  end.

(** The samples of a run of events, in order. *)
Fixpoint samples (events : list event) (w : Runtime * t)
  : list (completion json) :=
  match events with
  | [] => []
  | e :: rest => (sampled e w ++ samples rest (step w e))%list
  end.

(** A sample that did not succeed. *)
Definition failed (answer : completion json) : Prop :=
  match answer with
  | Returns _ => False
  | Throws _ => True
  end.



(** A callback that never throws. *)
Definition returns (cb : callback) : Prop :=
  forall e, ~ In (Throw e) (body cb).


End ReentrantPoller.

(** ** The orchestrating client with such callbacks, [client.ts] *)

Module ReentrantClient.
Import Callbacks.

(** The steps of a change callback of the client: it calls the unsubscribe
    function [onChange] returned for a callback, it calls [disconnect()], or
    it throws.  A callback does not register callbacks while a round runs. *)
Inductive action : Type :=
| Unsubscribe (target : nat)
| Disconnect
| Throw (e : Error).

Definition callback : Type := Callbacks.callback action.

(** What is observed of a client: a change callback is called, and
    [disconnect()] runs. *)
Inductive observation : Type :=
| Called (callback_ref : nat)
| Disconnected.

(** The fields of the class.  [changeCallbacks] holds a reference to an
    array object: [disconnect()] binds the field to a new array, and a round
    of [notifyChange] that is running goes on over the array it began with.
    [poller] is the client's poller, whose one subscriber is
    [() => this.notifyChange()]; [jsonlUnsubscribe] names the transport whose
    [onChange] returned the stored function. *)
Record t : Type := mkBeadsClient {
  daemon : option Transport;
  jsonl : option Transport;
  transport : option Transport;
  poller : option ChangePoller.t;
  changeCallbacks : nat;
  jsonlUnsubscribe : option Transport;
  connected : bool;
  workspaceRoot : option string;
  options : BeadsClient.BeadsClientOptions;
}.

(** The client in its surroundings: the runtime, the callback arrays
    allocated so far (an array reference is an index into [arrays]), and the
    log of what has been observed, oldest first. *)
Record world : Type := mkWorld {
  runtime : Runtime;
  arrays : list (list callback);
  client : t;
  log : list observation;
}.

Definition set_runtime (r : Runtime) (w : world) : world :=
  mkWorld r (arrays w) (client w) (log w).

Definition set_client (c : t) (w : world) : world :=
  mkWorld (runtime w) (arrays w) c (log w).

(** The array object [a] as it is now; [current] is [this.changeCallbacks]. *)
Definition array (a : nat) (w : world) : list callback :=
  default [] (arrays w !! a).

Definition current (w : world) : list callback :=
  array (changeCallbacks (client w)) w.

(** [array[a] = l] for the array object [a]. *)
Definition set_array (a : nat) (l : list callback) (w : world) : world :=
  mkWorld (runtime w) (<[a := l]> (arrays w)) (client w) (log w).

(** [new BeadsClient(options)], with its empty callback array. *)
Definition new (options : BeadsClient.BeadsClientOptions) (r : Runtime)
  : world :=
  mkWorld r [[]]
    (mkBeadsClient None None None None 0 None false None options) [].

(** [connect(workspaceRoot)]. *)
Definition connect (root : string) (env : BeadsClient.answers) (w : world)
  : completion unit * world :=
  let c := client w in
  let d := DaemonTransport root (BeadsClient.requestTimeout (options c))
             (BeadsClient.actor (options c)) in
  let r := log_send d "ping" (JObj []) (runtime w) in
  match BeadsClient.ping_answer env with
  | Returns _ =>
      let p := ChangePoller.onChange BeadsClient.notifier
                 (ChangePoller.new d) in
      let (r, p) :=
        ChangePoller.start
          (Some (default 2000%Z (BeadsClient.pollInterval (options c))))
          (BeadsClient.stats_answer env) (r, p) in
      (Returns tt,
       mkWorld r (arrays w)
         (mkBeadsClient (Some d) (jsonl c) (Some d) (Some p)
            (changeCallbacks c) (jsonlUnsubscribe c) true (Some root)
            (options c))
         (log w))
  | Throws _ =>
      let j := JsonlTransport root in
      if BeadsClient.load_answer env then
        let r := startWatching j r in
        let r := jsonl_onChange j r in
        (Returns tt,
         mkWorld r (arrays w)
           (mkBeadsClient (daemon c) (Some j) (Some j) (poller c)
              (changeCallbacks c) (Some j) true (Some root) (options c))
           (log w))
      else
        (Throws (mkError BeadsClient.no_file_message),
         mkWorld r (arrays w)
           (mkBeadsClient (daemon c) (jsonl c) (transport c) (poller c)
              (changeCallbacks c) (jsonlUnsubscribe c) (connected c)
              (Some root) (options c))
           (log w))
  end.

(** [disconnect()]; [this.changeCallbacks = []] allocates an array. *)
Definition disconnect (w : world) : completion unit * world :=
  let c := client w in
  let r := runtime w in
  let r :=
    match poller c with
    | Some p => fst (ChangePoller.stop (r, p))
    | None => r
    end in
  let r :=
    match jsonlUnsubscribe c with
    | Some j => jsonl_unsubscribe j r
    | None => r
    end in
  let r := match daemon c with Some d => log_close d r | None => r end in
  let r := match jsonl c with Some j => log_close j r | None => r end in
  (Returns tt,
   mkWorld r (arrays w ++ [[]])%list
     (mkBeadsClient None None None None (length (arrays w)) None false
        (workspaceRoot c) (options c))
     (log w ++ [Disconnected])%list).

Definition isConnected (c : t) : bool :=
  connected c.

(** [onChange(callback)]: [this.changeCallbacks.push(callback)].  The
    function it returns is [unsubscribe]; it reads [this.changeCallbacks]
    when it is called. *)
Definition onChange (cb : callback) (w : world) : world :=
  set_array (changeCallbacks (client w)) (current w ++ [cb])%list w.

Definition unsubscribe (target : nat) (w : world) : world :=
  set_array (changeCallbacks (client w))
    (Callbacks.unsubscribe target (current w)) w.

(** [cb()]: the steps of the callback, up to the first that throws. *)
Fixpoint run (actions : list action) (w : world) : completion unit * world :=
  match actions with
  | [] => (Returns tt, w)
  | Unsubscribe target :: rest => run rest (unsubscribe target w)
  | Disconnect :: rest => run rest (snd (disconnect w))
  | Throw e :: _ => (Throws e, w)
  end.

Definition call (cb : callback) (w : world) : completion unit * world :=
  run (body cb)
    (mkWorld (runtime w) (arrays w) (client w)
       (log w ++ [Called (ref cb)])%list).

(** [for (const cb of array) cb()] over the array object [a].  The iterator
    holds the array it was created on and an index into it: each step reads
    [array[i]] from the array as it is then, stops when [i] has reached its
    length, and moves to [i + 1]; a callback that throws ends the loop.
    [fuel] bounds the number of steps; [notifyChange] gives as many as the
    array is long, which is enough since no callback makes it longer. *)
Fixpoint forOf (fuel i a : nat) (w : world) : completion unit * world :=
  match fuel with
  | O => (Returns tt, w)
  | S fuel =>
      match array a w !! i with
      | None => (Returns tt, w)
      | Some cb =>
          match call cb w with
          | (Returns _, w') => forOf fuel (S i) a w'
          | (Throws e, w') => (Throws e, w')
          end
      end
  end.

(** [notifyChange()]: [for (const cb of this.changeCallbacks) cb()]; the
    field is read once, when the loop begins. *)
Definition notifyChange (w : world) : completion unit * world :=
  let a := changeCallbacks (client w) in
  forOf (length (array a w)) 0 a w.

(** [send(operation, args)]; [answer] is how the transport's [send]
    completes. *)
Definition send (operation : string) (args : json) (answer : completion json)
    (w : world) : completion json * world :=
  match transport (client w) with
  | None => (Throws (mkError "Not connected. Call connect() first."), w)
  | Some tr =>
      (answer, set_runtime (log_send tr operation args (runtime w)) w)
  end.

(** [this.lastHash = hash] at the end of a [poll()] of the client's poller.
    The poller is the one the client holds, unless a [disconnect()] during
    the round has let go of it; nothing refers to it then. *)
Definition store_hash (hash : string) (w : world) : world :=
  match poller (client w) with
  | Some p =>
      let c := client w in
      set_client
        (mkBeadsClient (daemon c) (jsonl c) (transport c)
           (Some (ChangePoller.mkChangePoller (ChangePoller.transport p)
                    (ChangePoller.intervalId p) (ChangePoller.callbacks p)
                    hash (ChangePoller.calls p)))
           (changeCallbacks c) (jsonlUnsubscribe c) (connected c)
           (workspaceRoot c) (options c))
        w
  | None => w
  end.

(** [for (const cb of this.callbacks) cb()] in the client's poller: every
    subscriber of that poller is [() => this.notifyChange()], and the array
    is out of reach of the change callbacks. *)
Fixpoint notifiers (subscribers : list Subscribers.callback) (w : world)
  : completion unit * world :=
  match subscribers with
  | [] => (Returns tt, w)
  | _ :: rest =>
      match notifyChange w with
      | (Returns _, w') => notifiers rest w'
      | (Throws e, w') => (Throws e, w')
      end
  end.

(** The [poll()] of the client's poller [p], run to completion; [answer] is
    how [transport.send("stats", {})] completes, a stats value given by its
    JSON text. *)
Definition poll (answer : completion string) (p : ChangePoller.t) (w : world)
  : world :=
  let w :=
    set_runtime
      (log_send (ChangePoller.transport p) "stats" (JObj []) (runtime w)) w in
  match answer with
  | Returns hash =>
      if ChangePoller.changed hash p then
        match notifiers (ChangePoller.callbacks p) w with
        | (Returns _, w') => store_hash hash w'
        | (Throws _, w') => w'
        end
      else store_hash hash w
  | Throws _ => w
  end.

(** The timer of the client's poller comes due. *)
Definition tick (answer : completion string) (w : world) : world :=
  match poller (client w) with
  | Some p =>
      match ChangePoller.intervalId p with
      | Some handle => if is_live handle (runtime w) then poll answer p w else w
      | None => w
      end
  | None => w
  end.

(** The watcher of the JSONL transport [j] reports a change of the file;
    what a change callback throws is the watcher's to deal with. *)
Definition fileChange (j : Transport) (w : world) : world :=
  if bool_decide (elem_of j (subscribed (runtime w)))
  then snd (notifyChange w) else w.

(** What happens to a client, one after the other.  [Notified] is a call of
    [notifyChange] from a change source the client holds no reference to any
    more (a poller or a watcher that an earlier [connect] left behind, or a
    poll answered late).  [Send] is a read or a write that reaches [send];
    a write that [requireDaemon] refuses changes nothing. *)
Inductive event : Type :=
| Connect (root : string) (env : BeadsClient.answers)
| CallDisconnect
| OnChange (cb : callback)
| Unsub (target : nat)
| Tick (answer : completion string)
| FileChange (j : Transport)
| Notified
| Send (operation : string) (args : json) (answer : completion json).

Definition step (w : world) (e : event) : world :=
  match e with
  | Connect root env => snd (connect root env w)
  | CallDisconnect => snd (disconnect w)
  | OnChange cb => onChange cb w
  | Unsub target => unsubscribe target w
  | Tick answer => tick answer w
  | FileChange j => fileChange j w
  | Notified => snd (notifyChange w)
  | Send operation args answer => snd (send operation args answer w)
  end.

Definition run_events (events : list event) (w : world) : world :=
  fold_left step events w.

(** An event that registers the function [target] again. *)
Definition registers (target : nat) (e : event) : Prop :=
  match e with
  | OnChange cb => ref cb = target
  | _ => False
  end.

End ReentrantClient.

(** ** Invariants of the poller and the client with such callbacks *)

Module ReentrantPollerInvariants.
Import Callbacks ReentrantPoller.



End ReentrantPollerInvariants.

Module ReentrantClientInvariants.
Import Callbacks ReentrantClient.

(** From [w] to [w'] no array has gained a callback, and the array the
    client holds has none that it did not hold before. *)
Definition shrinks (w w' : world) : Prop :=
  (forall a cb, In cb (array a w') -> In cb (array a w)) /\
  (forall a, length (array a w') <= length (array a w)) /\
  (forall cb, In cb (current w') -> In cb (current w)) /\
  (current w = [] -> current w' = []).

(** What [w'] has logged since [w]. *)
Definition since (w w' : world) (seen : list observation) : Prop :=
  log w' = (log w ++ seen)%list.

(** The callbacks a log says were called, in order. *)
Fixpoint called (seen : list observation) : list nat :=
  match seen with
  | [] => []
  | Called x :: rest => x :: called rest
  | Disconnected :: rest => called rest
  end.

(** A callback that never throws. *)
Definition returns (cb : callback) : Prop :=
  forall e, ~ In (Throw e) (body cb).

(** The array object [a] is one the client held before and has let go of:
    the field refers to an array allocated later. *)
Definition let_go (a : nat) (w : world) : Prop :=
  a < changeCallbacks (client w) /\
  changeCallbacks (client w) < length (arrays w).

(** [w'] comes from [w] by calls that register nothing: arrays have only
    lost callbacks, every callback called was in the array the client held
    in [w], and if [disconnect()] has run the client holds an empty array. *)
Definition settles (w w' : world) : Prop :=
  shrinks w w' /\
  exists seen,
    since w w' seen /\
    (forall x, In (Called x) seen -> In x (map ref (current w))) /\
    (In Disconnected seen -> current w' = []).

End ReentrantClientInvariants.

(** ** The first development inside the second

    A callback of the first sections is a callback here that only
    unsubscribes, a poll of the first sections is a request that is
    answered at once, and a client of the first sections is a client here
    whose callback array is the one the field refers to. *)

Module Embedding.

(** A callback of the first sections, as a callback of the poller here: it
    only unsubscribes. *)
Definition poller_action (e : Subscribers.effect) : ReentrantPoller.action :=
  match e with
  | Subscribers.Unsubscribe target => ReentrantPoller.Unsubscribe target
  end.

Definition poller_callback (cb : Subscribers.callback)
  : ReentrantPoller.callback :=
  Callbacks.mkCallback (Subscribers.ref cb)
    (map poller_action (Subscribers.body cb)).

(** A poller of the first sections, with [waiting] requests under way. *)
Definition poller (waiting : nat) (p : ChangePoller.t) : ReentrantPoller.t :=
  ReentrantPoller.mkChangePoller (ChangePoller.transport p)
    (ChangePoller.intervalId p)
    (map poller_callback (ChangePoller.callbacks p))
    (ChangePoller.lastHash p) waiting (ChangePoller.calls p).

(** A stats answer by its JSON text. *)
Definition stats_text (answer : completion json) : completion string :=
  match answer with
  | Returns stats => Returns (JSON_stringify stats)
  | Throws e => Throws e
  end.


(** A change callback of the first sections, as a change callback of the
    client here: it only unsubscribes. *)
Definition client_action (e : Subscribers.effect) : ReentrantClient.action :=
  match e with
  | Subscribers.Unsubscribe target => ReentrantClient.Unsubscribe target
  end.

Definition client_callback (cb : Subscribers.callback)
  : ReentrantClient.callback :=
  Callbacks.mkCallback (Subscribers.ref cb)
    (map client_action (Subscribers.body cb)).

(** The fields of a client of the first sections, with the array reference
    and the poller given. *)
Definition client_fields (c : BeadsClient.t) (a : nat)
    (p : option ChangePoller.t) : ReentrantClient.t :=
  ReentrantClient.mkBeadsClient (BeadsClient.daemon c) (BeadsClient.jsonl c)
    (BeadsClient.transport c) p a (BeadsClient.jsonlUnsubscribe c)
    (BeadsClient.connected c) (BeadsClient.workspaceRoot c)
    (BeadsClient.options c).

(** The same poller of a client, whatever calls it has on record: the
    client here logs the calls of the change callbacks, not those of the
    poller's one subscriber. *)
Definition same_poller (p q : option ChangePoller.t) : Prop :=
  match p, q with
  | None, None => True
  | Some p, Some q =>
      ChangePoller.transport q = ChangePoller.transport p /\
      ChangePoller.intervalId q = ChangePoller.intervalId p /\
      ChangePoller.callbacks q = [BeadsClient.notifier] /\
      ChangePoller.callbacks p = [BeadsClient.notifier] /\
      ChangePoller.lastHash q = ChangePoller.lastHash p
  | _, _ => False
  end.

(** A client of the first sections and a client here in the same state: the
    same runtime and fields, the same poller, the same callbacks in the
    array the client holds, and the same calls made so far. *)
Definition same_client (w : Runtime * BeadsClient.t)
    (g : ReentrantClient.world) : Prop :=
  ReentrantClient.runtime g = fst w /\
  ReentrantClient.client g =
    client_fields (snd w)
      (ReentrantClient.changeCallbacks (ReentrantClient.client g))
      (ReentrantClient.poller (ReentrantClient.client g)) /\
  same_poller (BeadsClient.poller (snd w))
    (ReentrantClient.poller (ReentrantClient.client g)) /\
  ReentrantClient.changeCallbacks (ReentrantClient.client g) <
    length (ReentrantClient.arrays g) /\
  ReentrantClient.current g =
    map client_callback (BeadsClient.changeCallbacks (snd w)) /\
  ReentrantClientInvariants.called (ReentrantClient.log g) =
    BeadsClient.calls (snd w).

(** The arguments a write passes to [send]. *)
Definition args_of (op : BeadsClient.write) : json :=
  match op with
  | BeadsClient.Create input => input
  | BeadsClient.Update id changes =>
      JObj (spread [("id", JStr id)] changes)
  | BeadsClient.Close id reason =>
      let args := [("id", JStr id)] in
      JObj match reason with
           | Some s => if truthy_string s then set_prop "reason" (JStr s) args
                       else args
           | None => args
           end
  | BeadsClient.AddDependency fromId toId type =>
      JObj [("from_id", JStr fromId); ("to_id", JStr toId);
            ("dep_type", JStr (DepType_to_string type))]
  end.

(** What an event of the first sections is here.  A write that
    [requireDaemon] refuses is no event; one that it lets through is the
    [send] it ends in. *)
Definition client_event (c : BeadsClient.t) (e : BeadsClient.event)
  : list ReentrantClient.event :=
  match e with
  | BeadsClient.Connect root env => [ReentrantClient.Connect root env]
  | BeadsClient.Disconnect => [ReentrantClient.CallDisconnect]
  | BeadsClient.OnChange cb => [ReentrantClient.OnChange (client_callback cb)]
  | BeadsClient.Unsub target => [ReentrantClient.Unsub target]
  | BeadsClient.Tick answer => [ReentrantClient.Tick answer]
  | BeadsClient.FileChange j => [ReentrantClient.FileChange j]
  | BeadsClient.Notified => [ReentrantClient.Notified]
  | BeadsClient.Write op answer =>
      match BeadsClient.daemon c with
      | None => []
      | Some _ =>
          [ReentrantClient.Send (BeadsClient.operation_of op) (args_of op)
             answer]
      end
  end.

(** The events of a run, each as the client of that moment makes it. *)
Fixpoint client_events (events : list BeadsClient.event)
    (w : Runtime * BeadsClient.t) : list ReentrantClient.event :=
  match events with
  | [] => []
  | e :: rest =>
      client_event (snd w) e ++ client_events rest (BeadsClient.step w e)
  end.

End Embedding.

(** Callbacks for the sections above: a one-shot listener, one that throws,
    one that disconnects the client, and plain ones. *)
Module ReentrantFixtures.
Import Callbacks.



Definition refused : completion json :=
  Throws (mkError "connection refused").

Definition once : ReentrantPoller.callback :=
  mkCallback 1 [ReentrantPoller.Unsubscribe 1].


Definition first : ReentrantPoller.callback :=
  mkCallback 1 [].

Definition second : ReentrantPoller.callback :=
  mkCallback 2 [].

Definition leaver : ReentrantClient.callback :=
  mkCallback 1 [ReentrantClient.Disconnect].

Definition listener : ReentrantClient.callback :=
  mkCallback 2 [].

Definition newcomer : ReentrantClient.callback :=
  mkCallback 3 [].

End ReentrantFixtures.

(** * Properties *)

(** ** The subprocess client *)

Module BdCliFacts.
Import BdCli BdCliFixtures.

Lemma IssueStatus_eqb_eq (a b : IssueStatus) :
  IssueStatus_eqb a b = true <-> a = b.
Proof. destruct a, b; simpl; split; congruence. Qed.

Lemma is_blocker_spec (dep : BdIssue) :
  is_blocker dep = true <->
  dependency_type dep = Some "blocks" /\ status dep <> closed.
Proof.
  unfold is_blocker. destruct (dependency_type dep) as [t|].
  - rewrite andb_true_iff, negb_true_iff, String.eqb_eq.
    split.
    + intros [-> Hs]. split; [reflexivity|].
      intros Hc. apply IssueStatus_eqb_eq in Hc. congruence.
    + intros [Ht Hs]. injection Ht as ->. split; [reflexivity|].
      destruct (IssueStatus_eqb (status dep) closed) eqn:E; [|reflexivity].
      apply IssueStatus_eqb_eq in E. contradiction.
  - split; [discriminate|]. intros [H _]. discriminate.
Qed.

(** What [enrich] leaves on an issue whose details list dependencies. *)
Lemma enrich_with_dependencies detailsMap issue details deps :
  lookup (id issue) detailsMap = Some details ->
  dependencies details = Some deps ->
  let blockers := List.filter is_blocker deps in
  let enriched := enrich detailsMap issue in
  (blockers <> [] ->
     blocked_by_count enriched = Some (Z.of_nat (length blockers)) /\
     blocked_by enriched = Some (map id blockers)) /\
  (blockers = [] ->
     blocked_by enriched = blocked_by issue /\
     blocked_by_count enriched = blocked_by_count issue /\
     status enriched = status issue).
Proof.
  intros Hd Hdeps blockers enriched. subst enriched.
  unfold enrich. rewrite Hd, Hdeps. fold blockers.
  split; intros Hb.
  - destruct blockers as [|b bs] eqn:E; [contradiction|].
    cbn [length Nat.ltb Nat.leb].
    destruct (truthy_field (parent details));
      cbn [set_parent set_dependencies set_blocked_by set_blocked_by_count
             status];
      match goal with
      | |- context [IssueStatus_eqb ?s open] =>
          destruct (IssueStatus_eqb s open)
      end; split; reflexivity.
  - rewrite Hb. cbn [length Nat.ltb Nat.leb].
    destruct (truthy_field (parent details)); repeat split; reflexivity.
Qed.

Lemma no_open_blocker deps :
  (forall dep, In dep deps ->
     dependency_type dep = Some "blocks" -> status dep = closed) ->
  List.filter is_blocker deps = [].
Proof.
  intros Hclosed. induction deps as [|d ds IH]; [reflexivity|].
  cbn [List.filter].
  destruct (is_blocker d) eqn:E.
  - apply is_blocker_spec in E as [Ht Hs].
    exfalso. apply Hs, Hclosed; [left; reflexivity | exact Ht].
  - apply IH. intros dep Hin. apply Hclosed. right. exact Hin.
Qed.

Lemma listWithParents_unfold exec parse_issues options issues detailedIssues :
  list exec parse_issues options = Returns issues ->
  issues <> [] ->
  show exec parse_issues (map id issues) = Returns detailedIssues ->
  listWithParents exec parse_issues options =
  Returns (map (enrich (build_detailsMap detailedIssues)) issues).
Proof.
  intros Hlist Hne Hshow. unfold listWithParents.
  rewrite Hlist. cbn [bind].
  destruct issues as [|i rest]; [contradiction|].
  cbn [length Nat.eqb]. rewrite Hshow. reflexivity.
Qed.

(** C2.  Take a listing as [bd list] prints it, its issues without
    [blocked_by] and [blocked_by_count] (the two fields come "from bd blocked
    command", [types.ts]).  For every issue [listWithParents] enriches from
    details that list dependencies, the blockers counted are exactly the
    dependencies whose [dependency_type] is "blocks" and whose status is not
    "closed"; when there is one, [blocked_by_count] is their number and
    [blocked_by] their ids.  When every "blocks" dependency is closed, the
    issue returned has no [blocked_by] and no [blocked_by_count] (no empty
    list, no zero), and its status is the listed one.  An issue without
    details, or whose details list no dependencies, has neither field. *)
Theorem listWithParents_counts_open_blockers
    exec parse_issues options issues detailedIssues
    (Hlist : list exec parse_issues options = Returns issues)
    (Hne : issues <> [])
    (Hplain : forall issue, In issue issues ->
                blocked_by issue = None /\ blocked_by_count issue = None)
    (Hshow : show exec parse_issues (map id issues) = Returns detailedIssues) :
  let detailsMap := build_detailsMap detailedIssues in
  listWithParents exec parse_issues options =
    Returns (map (enrich detailsMap) issues) /\
  forall issue,
    In issue issues ->
    let enriched := enrich detailsMap issue in
    (forall details deps,
       lookup (id issue) detailsMap = Some details ->
       dependencies details = Some deps ->
       let blockers := List.filter is_blocker deps in
       (forall dep, In dep blockers <->
          In dep deps /\ dependency_type dep = Some "blocks" /\
          status dep <> closed) /\
       (blockers <> [] ->
          blocked_by_count enriched = Some (Z.of_nat (length blockers)) /\
          blocked_by enriched = Some (map id blockers)) /\
       ((forall dep, In dep deps ->
           dependency_type dep = Some "blocks" -> status dep = closed) ->
          blocked_by enriched = None /\
          blocked_by_count enriched = None /\
          status enriched = status issue)) /\
    (lookup (id issue) detailsMap = None ->
       blocked_by enriched = None /\ blocked_by_count enriched = None) /\
    (forall details,
       lookup (id issue) detailsMap = Some details ->
       dependencies details = None ->
       blocked_by enriched = None /\ blocked_by_count enriched = None).
Proof.
  intros detailsMap. split.
  - apply listWithParents_unfold; assumption.
  - intros issue Hin enriched.
    destruct (Hplain issue Hin) as [Hb0 Hc0].
    split; [|split].
    + intros details deps Hd Hdeps blockers.
      destruct (enrich_with_dependencies detailsMap issue details deps Hd
                  Hdeps) as [Hsome Hnone].
      split; [|split].
      * intros dep. unfold blockers. rewrite filter_In, is_blocker_spec.
        reflexivity.
      * exact Hsome.
      * intros Hclosed. apply no_open_blocker in Hclosed.
        destruct (Hnone Hclosed) as (Hb & Hc & Hs). unfold enriched.
        rewrite Hb, Hc. split; [exact Hb0|]. split; [exact Hc0|exact Hs].
    + intros Hd. unfold enriched, enrich. rewrite Hd. split; assumption.
    + intros details Hd Hdeps. unfold enriched, enrich. rewrite Hd, Hdeps.
      destruct (truthy_field (parent details)); split; assumption.
Qed.

(** The closed-dependency test of [BeadsClient.test.ts]: the listed issue
    has no blocker fields, its one "blocks" dependency is closed, and the
    issue returned has neither field. *)
Lemma listWithParents_counts_open_blockers_witness :
  let detailed := [set_dependencies (Some [closedBlocker]) sampleIssue] in
  listWithParents mockExec (mockParse [sampleIssue] detailed) noOptions =
    Returns [set_dependencies (Some [closedBlocker]) sampleIssue] /\
  blocked_by (enrich (build_detailsMap detailed) sampleIssue) = None /\
  blocked_by_count (enrich (build_detailsMap detailed) sampleIssue) = None.
Proof.
  intros detailed.
  destruct (listWithParents_counts_open_blockers mockExec
              (mockParse [sampleIssue] detailed) noOptions
              [sampleIssue] detailed
              eq_refl ltac:(discriminate)
              ltac:(intros issue [<-|[]]; split; reflexivity) eq_refl)
    as [Hout Hper].
  split; [exact Hout|].
  destruct (Hper sampleIssue ltac:(left; reflexivity)) as (Hdeps & _).
  destruct (Hdeps (set_dependencies (Some [closedBlocker]) sampleIssue)
              [closedBlocker] eq_refl eq_refl) as (_ & _ & Hclosed).
  destruct Hclosed as (Hb & Hc & _).
  { intros dep [<-|[]] _. reflexivity. }
  split; assumption.
Defined.

(** The blocker of "enriches issues with parent and dependency info": one
    open "blocks" dependency makes the listed open issue blocked by it. *)
Example listWithParents_open_blocker :
  let detailed := [set_dependencies (Some [openBlocker]) sampleIssue] in
  listWithParents mockExec (mockParse [sampleIssue] detailed) noOptions =
    Returns [set_status blocked
               (set_blocked_by (Some ["beads-010"])
                  (set_blocked_by_count (Some 1%Z)
                     (set_dependencies (Some [openBlocker]) sampleIssue)))].
Proof. reflexivity. Qed.

(** C10.  [create] takes the parsed value itself, or the first element when
    [bd] printed an array; it rejects with "bd create did not return an
    issue" whenever that value is missing, is null, or has no [id]; when
    the value has a truthy [id] it is what [create] returns; and whatever
    [create] returns has an [id]. *)
Theorem create_returns_issue_with_id exec JSON_parse options :
  (forall issue,
     create exec JSON_parse options = Returns issue ->
     exists v, get "id" issue = Some v /\ truthy (Some v) = true) /\
  (forall result parsed,
     exec (create_args options) = Returns result ->
     JSON_parse result = Returns parsed ->
     (pick_issue parsed =
        match parsed with JArr items => head items | _ => Some parsed end) /\
     (pick_issue parsed = None \/ pick_issue parsed = Some JNull \/
      (exists issue, pick_issue parsed = Some issue /\
                     get "id" issue = None) ->
      create exec JSON_parse options =
        Throws (mkError "bd create did not return an issue")) /\
     (forall issue,
        pick_issue parsed = Some issue -> truthy (get "id" issue) = true ->
        create exec JSON_parse options = Returns issue)).
Proof.
  split.
  - intros issue. unfold create.
    destruct (exec (create_args options)) as [result|e]; [|discriminate].
    cbn [bind].
    destruct (JSON_parse result) as [parsed|e]; [|discriminate].
    cbn [bind].
    destruct (pick_issue parsed) as [picked|]; [|discriminate].
    destruct (truthy (Some picked)); [|discriminate]. cbn [negb orb].
    destruct (get "id" picked) as [v|] eqn:Hid; [|discriminate].
    destruct (truthy (Some v)) eqn:Hv; [|discriminate].
    cbn [negb]. intros [= <-]. exists v. rewrite Hid. split; [reflexivity|assumption].
  - intros result parsed Hexec Hparse. unfold create.
    rewrite Hexec. cbn [bind]. rewrite Hparse. cbn [bind].
    split; [|split].
    + destruct parsed as [| | | |[|x items]|]; reflexivity.
    + intros [-> |[-> |(issue & -> & Hid)]]; try reflexivity.
      rewrite Hid. cbn [truthy negb]. rewrite orb_true_r. reflexivity.
    + intros issue -> Hid.
      assert (truthy (Some issue) = true) as ->.
      { destruct issue; try discriminate Hid; reflexivity. }
      rewrite Hid. reflexivity.
Qed.

(** "handles array response from bd": [bd] prints [[sampleIssue]]. *)
Lemma create_returns_issue_with_id_witness :
  create (fun _ => Returns "[{...}]") (fun _ => Returns (JArr [sampleJson]))
    newIssue = Returns sampleJson /\
  exists v, get "id" sampleJson = Some v /\ truthy (Some v) = true.
Proof.
  destruct (create_returns_issue_with_id (fun _ => Returns "[{...}]")
              (fun _ => Returns (JArr [sampleJson])) newIssue)
    as [Hid Hrun].
  destruct (Hrun "[{...}]" (JArr [sampleJson]) eq_refl eq_refl)
    as (_ & _ & Haccept).
  pose proof (Haccept sampleJson eq_refl eq_refl) as Hcreate.
  split; [exact Hcreate|]. exact (Hid sampleJson Hcreate).
Defined.

(** "throws if bd returns no issue": [bd] prints [{}]. *)
Example create_empty_object :
  create (fun _ => Returns "{}") (fun _ => Returns (JObj [])) newIssue
  = Throws (mkError "bd create did not return an issue").
Proof. reflexivity. Qed.

Example create_args_title_only :
  create_args newIssue = ["create"; "--json"; "New issue"].
Proof. reflexivity. Qed.

End BdCliFacts.

(** ** Callback arrays *)

Module SubscribersFacts.
Import Subscribers.
Local Open Scope list_scope.

Lemma unsubscribe_cons_eq (t : nat) (cb : callback) (l : list callback) :
  ref cb = t -> unsubscribe t (cb :: l) = l.
Proof.
  intros H. unfold unsubscribe. cbn [indexOf].
  apply Nat.eqb_eq in H. rewrite H. reflexivity.
Qed.

Lemma unsubscribe_cons_ne (t : nat) (cb : callback) (l : list callback) :
  ref cb <> t -> unsubscribe t (cb :: l) = cb :: unsubscribe t l.
Proof.
  intros H. unfold unsubscribe. cbn [indexOf].
  apply Nat.eqb_neq in H. rewrite H.
  destruct (indexOf t l); reflexivity.
Qed.

Lemma unsubscribe_app_later (t : nat) (pre l : list callback) :
  ~ In t (map ref pre) -> unsubscribe t (pre ++ l) = pre ++ unsubscribe t l.
Proof.
  induction pre as [|x pre IH]; intros Hnot; [reflexivity|].
  cbn [app]. rewrite unsubscribe_cons_ne.
  - rewrite IH; [reflexivity|]. intros Hin. apply Hnot. right. exact Hin.
  - intros Heq. apply Hnot. left. exact Heq.
Qed.

Lemma unsubscribe_length (t : nat) (l : list callback) :
  length (unsubscribe t l) <= length l.
Proof.
  induction l as [|x l IH]; [reflexivity|].
  destruct (Nat.eq_dec (ref x) t) as [E|E].
  - rewrite unsubscribe_cons_eq by exact E. cbn [length]. lia.
  - rewrite unsubscribe_cons_ne by exact E. cbn [length]. lia.
Qed.

Lemma unsubscribe_incl (t : nat) (l : list callback) (cb : callback) :
  In cb (unsubscribe t l) -> In cb l.
Proof.
  induction l as [|x l IH]; [intros []|].
  destruct (Nat.eq_dec (ref x) t) as [E|E].
  - rewrite unsubscribe_cons_eq by exact E. intros H. right. exact H.
  - rewrite unsubscribe_cons_ne by exact E. intros [H|H]; [left|right; apply IH];
      exact H.
Qed.


Lemma run_length (effects : list effect) (l : list callback) :
  length (run effects l) <= length l.
Proof.
  revert l. induction effects as [|[t] rest IH]; intros l; [reflexivity|].
  cbn [run]. etransitivity; [apply IH|apply unsubscribe_length].
Qed.

Lemma run_incl (effects : list effect) (l : list callback) (cb : callback) :
  In cb (run effects l) -> In cb l.
Proof.
  revert l. induction effects as [|[t] rest IH]; intros l; [exact id|].
  cbn [run]. intros H. apply (unsubscribe_incl t), IH, H.
Qed.

(** The fuel [notify] gives is enough: more of it changes nothing, so the
    loop has ended because the index ran off the array. *)
Lemma forOf_fuel (fuel fuel' i : nat) (l : list callback) (calls : list nat) :
  length l <= fuel + i -> fuel <= fuel' ->
  forOf fuel i l calls = forOf fuel' i l calls.
Proof.
  revert fuel' i l calls.
  induction fuel as [|fuel IH]; intros fuel' i l calls Hlen Hle.
  - destruct fuel' as [|fuel']; [reflexivity|].
    cbn [forOf]. rewrite lookup_ge_None_2 by lia. reflexivity.
  - destruct fuel' as [|fuel']; [lia|].
    cbn [forOf]. destruct (l !! i) as [cb|]; [|reflexivity].
    apply IH; [|lia].
    pose proof (run_length (body cb) l). lia.
Qed.

(** A stretch of inert callbacks is called through, one by one, and leaves
    the array as it is. *)
Lemma forOf_inert_run (mid before after : list callback) (fuel : nat)
    (calls : list nat) :
  Forall inert mid ->
  forOf (length mid + fuel) (length before) (before ++ mid ++ after) calls =
  forOf fuel (length before + length mid) (before ++ mid ++ after)
    (calls ++ map ref mid).
Proof.
  revert before calls.
  induction mid as [|m mid IH]; intros before calls Hinert.
  - cbn [length map app]. rewrite Nat.add_0_r, app_nil_r. reflexivity.
  - inversion Hinert as [|? ? Hm Hmid]; subst.
    cbn [length Nat.add forOf app].
    rewrite list_lookup_middle by reflexivity.
    rewrite Hm. cbn [run].
    replace (before ++ m :: mid ++ after)
      with ((before ++ [m]) ++ mid ++ after)
      by (rewrite <- app_assoc; reflexivity).
    replace (S (length before)) with (length (before ++ [m]))
      by (rewrite length_app; cbn; lia).
    rewrite IH by exact Hmid.
    rewrite length_app. cbn [length map].
    rewrite <- !app_assoc. cbn [app].
    replace (length before + 1 + length mid)
      with (length before + S (length mid)) by lia.
    reflexivity.
Qed.

Lemma forOf_done (fuel i : nat) (l : list callback) (calls : list nat) :
  length l <= i -> forOf fuel i l calls = (l, calls).
Proof.
  intros H. destruct fuel; [reflexivity|].
  cbn [forOf]. rewrite lookup_ge_None_2 by lia. reflexivity.
Qed.

(** Inert callbacks are each called once, in order of registration. *)
Lemma notify_inert (l : list callback) (calls : list nat) :
  Forall inert l -> notify l calls = (l, calls ++ map ref l).
Proof.
  intros H. unfold notify.
  pose proof (forOf_inert_run l [] [] 0 calls H) as E.
  cbn [app length Nat.add] in E. rewrite app_nil_r, Nat.add_0_r in E.
  rewrite E. apply forOf_done. lia.
Qed.


(** The calls of one round are calls of callbacks registered when the round
    began, and the round registers nothing. *)
Lemma forOf_calls (fuel i : nat) (l : list callback) (calls : list nat) :
  exists extra,
    snd (forOf fuel i l calls) = calls ++ extra /\
    (forall x, In x extra -> In x (map ref l)) /\
    (forall cb, In cb (fst (forOf fuel i l calls)) -> In cb l).
Proof.
  revert i l calls. induction fuel as [|fuel IH]; intros i l calls.
  - exists []. cbn [forOf fst snd]. rewrite app_nil_r.
    split; [reflexivity|]. split; [intros x []|intros cb H; exact H].
  - cbn [forOf]. destruct (l !! i) as [cb|] eqn:E.
    + destruct (IH (S i) (run (body cb) l) (calls ++ [ref cb]))
        as (extra & Hcalls & Hin & Hleft).
      exists (ref cb :: extra). rewrite Hcalls, <- app_assoc.
      split; [reflexivity|]. split.
      * intros x [<-|Hx].
        -- apply in_map. apply list_elem_of_In.
           apply (list_elem_of_lookup_2 _ _ _ E).
        -- apply Hin in Hx. apply in_map_iff in Hx as (c & <- & Hc).
           apply in_map. apply (run_incl (body cb)). exact Hc.
      * intros c Hc. apply (run_incl (body cb)), Hleft, Hc.
    + exists []. cbn [fst snd]. rewrite app_nil_r.
      split; [reflexivity|]. split; [intros x []|intros c H; exact H].
Qed.

Lemma unsubscribe_count (t x : nat) (l : list callback) :
  x <> t ->
  count_occ Nat.eq_dec (map ref (unsubscribe t l)) x =
  count_occ Nat.eq_dec (map ref l) x.
Proof.
  intros Hx. induction l as [|a l IH]; [reflexivity|].
  destruct (Nat.eq_dec (ref a) t) as [E|E].
  - rewrite unsubscribe_cons_eq by exact E. cbn [map].
    rewrite count_occ_cons_neq by congruence. reflexivity.
  - rewrite unsubscribe_cons_ne by exact E. cbn [map count_occ].
    rewrite IH. reflexivity.
Qed.

(** A callback that unsubscribes itself: the array closes up under the
    iterator, and the callback registered right after it is passed over. *)
Lemma notify_unsubscribe_self (pre post : list callback) (f : callback)
    (calls : list nat) :
  Forall inert pre -> Forall inert post ->
  body f = [Unsubscribe (ref f)] ->
  ~ In (ref f) (map ref pre) ->
  notify (pre ++ f :: post) calls =
  (pre ++ post, calls ++ map ref pre ++ ref f :: map ref (tail post)).
Proof.
  intros Hpre Hpost Hf Hnot. unfold notify.
  rewrite length_app. cbn [length].
  pose proof (forOf_inert_run pre [] (f :: post) (S (length post)) calls Hpre)
    as E.
  cbn [app length Nat.add] in E. rewrite E. clear E.
  cbn [forOf].
  rewrite (list_lookup_middle pre post f (length pre)) by reflexivity.
  rewrite Hf. cbn [run].
  rewrite unsubscribe_app_later by exact Hnot.
  rewrite unsubscribe_cons_eq by reflexivity.
  destruct post as [|x post'].
  - rewrite forOf_done by (rewrite length_app; cbn [length]; lia).
    cbn [tail map]. rewrite <- app_assoc. reflexivity.
  - inversion Hpost as [|? ? Hx Hpost']; subst.
    replace (pre ++ x :: post') with ((pre ++ [x]) ++ post' ++ [])
      by (rewrite app_nil_r, <- app_assoc; reflexivity).
    replace (S (length pre)) with (length (pre ++ [x]))
      by (rewrite length_app; cbn; lia).
    cbn [length].
    rewrite (forOf_fuel (S (length post')) (length post' + 1))
      by (rewrite ?length_app; cbn [length]; lia).
    rewrite forOf_inert_run by exact Hpost'.
    rewrite forOf_done by (rewrite !length_app; cbn [length]; lia).
    cbn [tail]. rewrite <- !app_assoc. reflexivity.
Qed.

End SubscribersFacts.

(** ** The change poller *)

Module ChangePollerFacts.
Import Subscribers ChangePoller PollerFixtures.
Local Open Scope list_scope.

Lemma fire_lastHash (p : t) : lastHash (fire p) = lastHash p.
Proof. unfold fire. destruct (notify (callbacks p) (calls p)). reflexivity. Qed.

Lemma fire_intervalId (p : t) : intervalId (fire p) = intervalId p.
Proof. unfold fire. destruct (notify (callbacks p) (calls p)). reflexivity. Qed.

Lemma fire_transport (p : t) : transport (fire p) = transport p.
Proof. unfold fire. destruct (notify (callbacks p) (calls p)). reflexivity. Qed.

Lemma fire_inert (p : t) :
  Forall inert (callbacks p) ->
  callbacks (fire p) = callbacks p /\
  calls (fire p) = calls p ++ map ref (callbacks p).
Proof.
  intros H. unfold fire. rewrite (SubscribersFacts.notify_inert _ _ H). split; reflexivity.
Qed.

Lemma poll_lastHash (answer : completion string) (w : Runtime * t) :
  lastHash (snd (poll answer w)) =
  match answer with
  | Returns hash => hash
  | Throws _ => lastHash (snd w)
  end.
Proof. destruct w as [r p]. destruct answer; reflexivity. Qed.

Lemma poll_intervalId (answer : completion string) (w : Runtime * t) :
  intervalId (snd (poll answer w)) = intervalId (snd w).
Proof.
  destruct w as [r p]. destruct answer as [hash|e]; [|reflexivity].
  cbn [poll snd intervalId]. destruct (changed hash p); [|reflexivity].
  apply fire_intervalId.
Qed.

Lemma poll_timers (answer : completion string) (w : Runtime * t) :
  timers (fst (poll answer w)) = timers (fst w).
Proof. destruct w as [r p]. destruct answer; reflexivity. Qed.

Lemma poll_sent (answer : completion string) (w : Runtime * t) :
  sent (fst (poll answer w)) =
  sent (fst w) ++ [(transport (snd w), "stats"%string, JObj [])].
Proof. destruct w as [r p]. destruct answer; reflexivity. Qed.

(** C7.  A poll cycle whose [transport.send("stats", {})] throws calls no
    callback and keeps the baseline, the subscribers and the timer as they
    were; the request was made and nothing else happened.  The timer being
    live, the next time it comes due the poller samples again. *)
Theorem poll_failure_skips_the_cycle (w : Runtime * t) (e : Error) :
  let w' := poll (Throws e) w in
  calls (snd w') = calls (snd w) /\
  lastHash (snd w') = lastHash (snd w) /\
  snd w' = snd w /\
  timers (fst w') = timers (fst w) /\
  sent (fst w') =
    sent (fst w) ++ [(transport (snd w), "stats"%string, JObj [])] /\
  (forall handle,
     intervalId (snd w) = Some handle -> is_live handle (fst w) = true ->
     tick (Throws e) w = w' /\
     forall answer, tick answer w' = poll answer w').
Proof.
  destruct w as [r p]. cbn [poll fst snd log_send timers sent].
  repeat (split; [reflexivity|]).
  intros handle Hid Hlive. unfold tick. rewrite Hid.
  unfold is_live in *. cbn [timers log_send]. rewrite Hlive.
  split; [reflexivity|]. intros answer. reflexivity.
Qed.

(** "survives transport errors": the daemon refuses twice, then answers. *)
Lemma poll_failure_skips_the_cycle_witness :
  let w := start (Some 1000%Z) refused
             (fresh_runtime, onChange first (new statsTransport)) in
  tick refused w = poll refused w /\
  tick total5 (poll refused w) = poll total5 (poll refused w) /\
  lastHash (snd (tick total5 (tick refused w))) = "[5]"%string /\
  calls (snd (tick total5 (tick refused w))) = [].
Proof.
  intros w.
  destruct (poll_failure_skips_the_cycle w (mkError "connection refused"))
    as (_ & _ & _ & _ & _ & Hnext).
  destruct (Hnext 0%nat eq_refl eq_refl) as [Htick Hagain].
  split; [exact Htick|].
  split; [exact (Hagain total5)|].
  split; reflexivity.
Defined.

Lemma start_intervalId (intervalMs : option Z) (answer : completion string)
    (w : Runtime * t) :
  intervalId (snd (start intervalMs answer w)) <> None.
Proof.
  destruct w as [r p]. unfold start.
  destruct (intervalId p) as [handle|] eqn:E.
  - cbn [snd]. rewrite E. discriminate.
  - cbn [setInterval]. rewrite poll_intervalId. discriminate.
Qed.

(** C8.  On a poller that is running, [start] does nothing: no timer, no
    request.  On a poller that is not, [start] sets one timer, with the
    period given or 2000 ms when none is, and takes a sample at once.
    So a second [start], whatever its arguments, changes nothing. *)
Theorem start_is_idempotent_while_running
    (w : Runtime * t) (intervalMs : option Z) (answer : completion string) :
  (intervalId (snd w) <> None -> start intervalMs answer w = w) /\
  (intervalId (snd w) = None ->
     let w' := start intervalMs answer w in
     intervalId (snd w') = Some (next_timer (fst w)) /\
     timers (fst w') =
       timers (fst w) ++ [(next_timer (fst w), default 2000%Z intervalMs)] /\
     sent (fst w') =
       sent (fst w) ++ [(transport (snd w), "stats"%string, JObj [])] /\
     lastHash (snd w') =
       match answer with
       | Returns hash => hash
       | Throws _ => lastHash (snd w)
       end) /\
  (intervalId (snd w) = None ->
     timers (fst (start None answer w)) =
       timers (fst w) ++ [(next_timer (fst w), 2000%Z)]) /\
  (forall intervalMs' answer',
     start intervalMs' answer' (start intervalMs answer w) =
     start intervalMs answer w).
Proof.
  assert (Hbegin : forall ms,
            intervalId (snd w) = None ->
            intervalId (snd (start ms answer w)) = Some (next_timer (fst w)) /\
            timers (fst (start ms answer w)) =
              timers (fst w) ++ [(next_timer (fst w), default 2000%Z ms)] /\
            sent (fst (start ms answer w)) =
              sent (fst w) ++ [(transport (snd w), "stats"%string, JObj [])] /\
            lastHash (snd (start ms answer w)) =
              match answer with
              | Returns hash => hash
              | Throws _ => lastHash (snd w)
              end).
  { intros ms. destruct w as [r p]. cbn [fst snd]. intros Hnone. unfold start.
    rewrite Hnone. cbn [setInterval].
    rewrite poll_intervalId, poll_timers, poll_sent, poll_lastHash.
    cbn [fst snd intervalId timers sent transport lastHash].
    repeat split; reflexivity. }
  split; [|split; [|split]].
  - destruct w as [r p]. cbn [snd]. unfold start.
    destruct (intervalId p); [reflexivity|congruence].
  - intros Hnone. apply Hbegin, Hnone.
  - intros Hnone. destruct (Hbegin None Hnone) as (_ & Htimers & _).
    exact Htimers.
  - intros intervalMs' answer'.
    pose proof (start_intervalId intervalMs answer w) as Hrunning.
    destruct (start intervalMs answer w) as [r' p'].
    cbn [snd] in Hrunning. unfold start.
    destruct (intervalId p'); [reflexivity|congruence].
Qed.

(** A poller started with no interval ticks every 2000 ms and has sampled
    once; starting it again, with another interval, leaves all of it. *)
Lemma start_is_idempotent_while_running_witness :
  let w := (fresh_runtime, new statsTransport) in
  timers (fst (start None total5 w)) = [(0%nat, 2000%Z)] /\
  length (sent (fst (start None total5 w))) = 1%nat /\
  start (Some 50%Z) total6 (start None total5 w) = start None total5 w.
Proof.
  intros w.
  destruct (start_is_idempotent_while_running w None total5)
    as (_ & Hbegin & Hdefault & Hagain).
  destruct (Hbegin eq_refl) as (_ & _ & Hsent & _).
  split; [exact (Hdefault eq_refl)|].
  split; [rewrite Hsent; reflexivity|].
  destruct (start_is_idempotent_while_running (start None total5 w)
              (Some 50%Z) total6) as (Hrunning & _).
  apply Hrunning. discriminate.
Defined.

End ChangePollerFacts.

(** ** The orchestrating client *)

Module BeadsClientFacts.
Import Subscribers BeadsClient ClientFixtures.
Local Open Scope list_scope.

Lemma includes_requires_daemon (op : write) :
  includes "requires a daemon connection"
    (requires_daemon_message (operation_of op)) = true.
Proof. destruct op; vm_compute; reflexivity. Qed.

(** With no daemon transport held, every write is refused by
    [requireDaemon]: nothing is sent and nothing changes. *)
Lemma write_without_daemon (op : write) (answer : completion json)
    (w : Runtime * t) :
  daemon (snd w) = None ->
  perform op answer w =
  (Throws (mkError (requires_daemon_message (operation_of op))), w).
Proof.
  intros Hnone. destruct w as [r c]. cbn [snd] in Hnone.
  destruct op;
    unfold perform, create, update, close, addDependency, requireDaemon;
    cbn [snd]; rewrite Hnone; reflexivity.
Qed.

(** C4, at the input where the code departs from it.  A client connects to
    the daemon, then connects again when the daemon is gone and falls back to
    the JSONL file.  The active transport is the JSONL transport, yet the
    client still holds the daemon transport of before, so [requireDaemon]
    lets every write through: the request is sent to the JSONL transport and
    the call completes the way that [send] does.  With the transport's own
    read-only error as the answer, [create] rejects with that error, which
    does not speak of a daemon connection. *)
Theorem create_after_fallback_reaches_jsonl :
  let w1 := snd (connect "/repo" daemonUp (fresh_runtime, new defaults)) in
  let w2 := snd (connect "/repo" fileOnly w1) in
  transport (snd w2) = Some (JsonlTransport "/repo") /\
  daemon (snd w2) = Some (DaemonTransport "/repo" None None) /\
  (forall answer,
     create newTitle answer w2 =
     (answer,
      (log_send (JsonlTransport "/repo") "create" newTitle (fst w2),
       snd w2))) /\
  (forall op answer,
     exists args,
       snd (perform op answer w2) =
       (log_send (JsonlTransport "/repo") (operation_of op) args (fst w2),
        snd w2)) /\
  fst (create newTitle readOnly w2) = readOnly /\
  includes "requires a daemon connection"
    (match fst (create newTitle readOnly w2) with
     | Throws e => message e
     | Returns _ => EmptyString
     end) = false.
Proof.
  intros w1 w2.
  split; [reflexivity|]. split; [reflexivity|].
  split; [intros answer; reflexivity|].
  split; [|split; reflexivity].
  intros op answer. destruct op; eexists; reflexivity.
Qed.

(** C5, amended.  When the ping fails and the JSONL file does not load,
    [connect] rejects with one fixed message, which speaks of the daemon and
    of [.beads/issues.jsonl]; the message does not depend on why the ping
    failed.  One ping was sent, and of the client only [workspaceRoot] has
    changed. *)
Theorem connect_without_daemon_or_file
    (root : string) (env : answers) (w : Runtime * t) (e : Error)
    (Hping : ping_answer env = Throws e)
    (Hload : load_answer env = false) :
  fst (connect root env w) = Throws (mkError no_file_message) /\
  includes "daemon" no_file_message = true /\
  includes ".beads/issues.jsonl" no_file_message = true /\
  (forall e' stats,
     fst (connect root (mkAnswers (Throws e') false stats) w) =
     fst (connect root env w)) /\
  sent (fst (snd (connect root env w))) =
    sent (fst w) ++
    [(DaemonTransport root (requestTimeout (options (snd w)))
        (actor (options (snd w))), "ping"%string, JObj [])] /\
  snd (snd (connect root env w)) =
    mkBeadsClient (daemon (snd w)) (jsonl (snd w)) (transport (snd w))
      (poller (snd w)) (changeCallbacks (snd w)) (jsonlUnsubscribe (snd w))
      (connected (snd w)) (Some root) (options (snd w)) (calls (snd w)).
Proof.
  destruct w as [r c]. unfold connect. rewrite Hping, Hload.
  cbn [fst snd ping_answer load_answer log_send sent].
  repeat split; reflexivity.
Qed.

Lemma connect_without_daemon_or_file_witness :
  fst (connect "/repo" neither (fresh_runtime, new defaults)) =
    Throws (mkError no_file_message) /\
  isConnected (snd (snd (connect "/repo" neither (fresh_runtime, new defaults))))
    = false.
Proof.
  destruct (connect_without_daemon_or_file "/repo" neither
              (fresh_runtime, new defaults) noSocket eq_refl eq_refl)
    as (Hmsg & _ & _ & _ & _ & Hstate).
  split; [exact Hmsg|]. rewrite Hstate. reflexivity.
Defined.

(** C5 as stated fails: the daemon attempt failed with "connect ENOENT
    /repo/.beads/bd.sock", and the error [connect] rejects with carries
    neither that reason nor the path of either attempt. *)
Lemma connect_drops_the_daemon_reason :
  exists err,
    fst (connect "/repo" neither (fresh_runtime, new defaults)) = Throws err /\
    ping_answer neither = Throws noSocket /\
    includes (message noSocket) (message err) = false /\
    includes "/repo" (message err) = false.
Proof.
  exists (mkError no_file_message). vm_compute. repeat split; reflexivity.
Qed.






(** A write never changes the client. *)
Lemma perform_client (op : write) (answer : completion json)
    (w : Runtime * t) :
  snd (snd (perform op answer w)) = snd w.
Proof.
  destruct w as [r c].
  destruct op;
    unfold perform, create, update, close, addDependency, requireDaemon, send;
    cbn [snd]; destruct (daemon c); try reflexivity;
    destruct (transport c); reflexivity.
Qed.

Lemma clearInterval_not_live (handle : nat) (r : Runtime) :
  is_live handle (clearInterval handle r) = false.
Proof.
  unfold is_live, clearInterval. cbn [timers].
  induction (timers r) as [|[h ms] l IH]; [reflexivity|].
  cbn [List.filter fst]. destruct (h =? handle)%nat eqn:E; cbn [negb].
  - exact IH.
  - cbn [existsb fst]. rewrite E. exact IH.
Qed.

End BeadsClientFacts.

(** ** The snapshot transport's [ready] query *)

Module JsonlTransportFacts.
Import JsonlTransport.
Local Open Scope list_scope.












(** "excludes issues with open blockers": the answer is [bd-blocker] and
    [bd-free], as the test expects. *)
Example ready_withBlocker :
  map id (ready (load withBlocker)) = ["bd-blocker"; "bd-free"]%string.
Proof. reflexivity. Qed.

(** "returns open issues with no blockers": in the specification's words
    the answer is [bd-1] and [bd-3], the issue in progress; the test of the
    repository expects [bd-1] alone.  So on in-progress issues the transport
    of the repository is narrower than the specification. *)
Example ready_threeStatuses :
  map id (ready (load threeStatuses)) = ["bd-1"; "bd-3"]%string.
Proof. reflexivity. Qed.

End JsonlTransportFacts.

(** ** More on the change poller: stopping, restarting, timers, requests *)

Module ChangePollerLifecycle.
Import Subscribers ChangePoller ChangePollerInvariants PollerFixtures.
Local Open Scope list_scope.

Lemma stop_fields (w : Runtime * t) :
  intervalId (snd (stop w)) = None /\
  callbacks (snd (stop w)) = callbacks (snd w) /\
  lastHash (snd (stop w)) = lastHash (snd w) /\
  calls (snd (stop w)) = calls (snd w) /\
  transport (snd (stop w)) = transport (snd w) /\
  sent (fst (stop w)) = sent (fst w).
Proof.
  destruct w as [r p]. unfold stop.
  destruct (intervalId p) eqn:E; cbn [fst snd]; rewrite ?E; repeat split.
Qed.

(** X1.  [stop()] is safe in any state and final.  On a poller that is not
    running it does nothing; a second [stop] does nothing; afterwards the
    interval of the poller is no longer live and a timer tick that was
    already due takes no sample.  Subscribers, baseline and the record of
    calls are kept. *)
Theorem stop_is_safe_and_final (w : Runtime * t) :
  (intervalId (snd w) = None -> stop w = w) /\
  stop (stop w) = stop w /\
  intervalId (snd (stop w)) = None /\
  (forall handle,
     intervalId (snd w) = Some handle -> is_live handle (fst (stop w)) = false) /\
  (forall answer, tick answer (stop w) = stop w) /\
  callbacks (snd (stop w)) = callbacks (snd w) /\
  lastHash (snd (stop w)) = lastHash (snd w) /\
  calls (snd (stop w)) = calls (snd w) /\
  sent (fst (stop w)) = sent (fst w).
Proof.
  destruct (stop_fields w) as (Hid & Hcbs & Hhash & Hcalls & _ & Hsent).
  split; [|split; [|split; [|split; [|split]]]].
  - destruct w as [r p]. cbn [snd]. intros H. unfold stop. rewrite H.
    reflexivity.
  - destruct (stop w) as [r' p'] eqn:E. cbn [snd] in Hid.
    unfold stop at 1. rewrite Hid. reflexivity.
  - exact Hid.
  - intros handle H. destruct w as [r p]. cbn [snd] in H.
    unfold stop. rewrite H. cbn [fst].
    apply BeadsClientFacts.clearInterval_not_live.
  - intros answer. destruct (stop w) as [r' p'] eqn:E. cbn [snd] in Hid.
    unfold tick. rewrite Hid. reflexivity.
  - repeat split; assumption.
Qed.

(** "stops polling when stop() is called". *)
Lemma stop_is_safe_and_final_witness :
  let w := start (Some 1000%Z) total5 (fresh_runtime, new statsTransport) in
  is_live 0 (fst w) = true /\
  is_live 0 (fst (stop w)) = false /\
  tick total6 (stop w) = stop w /\
  stop (fresh_runtime, new statsTransport) = (fresh_runtime, new statsTransport).
Proof.
  intros w.
  destruct (stop_is_safe_and_final w) as (_ & _ & _ & Hdead & Htick & _).
  destruct (stop_is_safe_and_final (fresh_runtime, new statsTransport))
    as (Hidle & _).
  split; [reflexivity|].
  split; [exact (Hdead 0%nat eq_refl)|].
  split; [exact (Htick total6)|exact (Hidle eq_refl)].
Defined.

(** X2.  [stop()] does not reset the baseline.  When a poller that has a
    baseline is stopped and started again, the sample [start] takes at once
    is compared with the baseline of before the stop: it calls the (inert)
    subscribers if the fingerprint differs and calls nobody if it is the
    same. *)
Theorem restart_compares_with_the_old_baseline
    (w : Runtime * t) (intervalMs : option Z) (h : string)
    (Hbase : lastHash (snd w) <> EmptyString)
    (Hinert : Forall inert (callbacks (snd w))) :
  let w' := start intervalMs (Returns h) (stop w) in
  lastHash (snd w') = h /\
  intervalId (snd w') <> None /\
  (h = lastHash (snd w) -> calls (snd w') = calls (snd w)) /\
  (h <> lastHash (snd w) ->
   calls (snd w') = calls (snd w) ++ map ref (callbacks (snd w))).
Proof.
  intros w'. subst w'.
  destruct (stop_fields w) as (Hid & Hcbs & Hhash & Hcalls & _ & _).
  destruct (stop w) as [r p]. cbn [snd] in *.
  rewrite <- Hhash in Hbase |- *. rewrite <- Hcalls, <- Hcbs.
  rewrite <- Hcbs in Hinert. clear Hhash Hcalls Hcbs.
  unfold start. rewrite Hid. cbn [setInterval poll snd].
  unfold changed. cbn [lastHash].
  split; [reflexivity|]. split.
  { cbn [intervalId].
    match goal with |- context [if ?b then _ else _] => destruct b end;
      [rewrite ChangePollerFacts.fire_intervalId|]; discriminate. }
  assert (Htruthy : truthy_string (lastHash p) = true).
  { unfold truthy_string. apply negb_true_iff, String.eqb_neq, Hbase. }
  rewrite Htruthy. cbn [andb]. split.
  - intros ->. rewrite String.eqb_refl. reflexivity.
  - intros Hne. apply String.eqb_neq in Hne. rewrite Hne. cbn [negb calls].
    destruct (ChangePollerFacts.fire_inert
                (mkChangePoller (transport p) (Some (next_timer r))
                   (callbacks p) (lastHash p) (calls p))) as [_ Hfire];
      [exact Hinert|].
    rewrite Hfire. reflexivity.
Qed.

Lemma restart_compares_with_the_old_baseline_witness :
  let w := start None total5
             (fresh_runtime, onChange first (new statsTransport)) in
  calls (snd (start None total6 (stop w))) = [1] /\
  calls (snd (start None total5 (stop w))) = [].
Proof.
  intros w.
  destruct (restart_compares_with_the_old_baseline w None "[6]")
    as (_ & _ & _ & Hdiff); [discriminate|repeat constructor|].
  destruct (restart_compares_with_the_old_baseline w None "[5]")
    as (_ & _ & Hsame & _); [discriminate|repeat constructor|].
  split; [exact (Hdiff ltac:(discriminate))|exact (Hsame eq_refl)].
Defined.

Lemma step_one_interval (e : event) (w : Runtime * t) :
  one_interval w -> one_interval (step w e).
Proof.
  unfold one_interval. destruct w as [r p]. cbn [fst snd].
  destruct e as [ms answer| |answer|cb|target]; cbn [step fst snd onChange
    unsubscribe intervalId]; try (intros H; exact H).
  - unfold start. destruct (intervalId p) as [handle|] eqn:E.
    + cbn [fst snd]. rewrite E. intros H; exact H.
    + intros Hnone. cbn [setInterval].
      rewrite ChangePollerFacts.poll_intervalId, ChangePollerFacts.poll_timers.
      cbn [fst snd intervalId timers]. rewrite Hnone.
      eexists. reflexivity.
  - unfold stop. destruct (intervalId p) as [handle|] eqn:E.
    + intros [ms Hms]. cbn [fst snd intervalId clearInterval timers].
      rewrite Hms. cbn [List.filter fst]. rewrite Nat.eqb_refl. reflexivity.
    + cbn [fst snd]. rewrite E. intros H; exact H.
  - unfold tick. destruct (intervalId p) as [handle|] eqn:E.
    + destruct (is_live handle r).
      * rewrite ChangePollerFacts.poll_intervalId,
          ChangePollerFacts.poll_timers.
        cbn [fst snd]. rewrite E. intros H; exact H.
      * cbn [fst snd]. rewrite E. intros H; exact H.
    + cbn [fst snd]. rewrite E. intros H; exact H.
Qed.

(** X3.  A poller never holds more than one interval.  Over any run of
    starts, stops, ticks and subscriptions of a new poller, the runtime has
    exactly the interval named by [intervalId] while the poller runs, and
    none while it does not: repeated starts set no second timer and a stop
    leaves none behind. *)
Theorem at_most_one_interval (tr : Transport) (events : list event) :
  let w := run_events events (fresh_runtime, new tr) in
  one_interval w /\
  (length (timers (fst w)) <= 1)%nat /\
  (forall handle,
     intervalId (snd w) = Some handle <-> is_live handle (fst w) = true).
Proof.
  intros w.
  assert (Hinv : one_interval w).
  { subst w. unfold run_events.
    assert (H0 : one_interval (fresh_runtime, new tr)) by reflexivity.
    revert H0. generalize (fresh_runtime, new tr).
    induction events as [|e rest IH]; intros w0 H0; [exact H0|].
    cbn [fold_left]. apply IH, step_one_interval, H0. }
  split; [exact Hinv|].
  unfold one_interval in Hinv. unfold is_live.
  destruct (intervalId (snd w)) as [h|].
  - destruct Hinv as [ms Hms]. rewrite Hms. cbn [length existsb fst].
    split; [lia|]. intros handle. rewrite orb_false_r, Nat.eqb_eq.
    split; [intros [= <-]; reflexivity|intros ->; reflexivity].
  - rewrite Hinv. cbn [length existsb]. split; [lia|].
    intros handle. split; discriminate.
Qed.

Lemma step_transport (e : event) (w : Runtime * t) :
  transport (snd (step w e)) = transport (snd w).
Proof.
  destruct w as [r p].
  assert (Hpoll : forall answer w0,
            transport (snd (poll answer w0)) = transport (snd w0)).
  { intros answer [r0 p0]. destruct answer as [hash|err]; [|reflexivity].
    cbn [poll snd transport]. destruct (changed hash p0); [|reflexivity].
    apply ChangePollerFacts.fire_transport. }
  destruct e as [ms answer| |answer|cb|target]; cbn [step snd]; try reflexivity.
  - unfold start. destruct (intervalId p); [reflexivity|].
    cbn [setInterval]. rewrite Hpoll. reflexivity.
  - unfold stop. destruct (intervalId p); reflexivity.
  - unfold tick. destruct (intervalId p); [|reflexivity].
    destruct (is_live _ r); [apply Hpoll|reflexivity].
Qed.

Lemma step_sent (e : event) (w : Runtime * t) :
  sent (fst (step w e)) =
  sent (fst w) ++
  repeat (transport (snd w), "stats"%string, JObj []) (length (sampled e w)).
Proof.
  destruct w as [r p].
  destruct e as [ms answer| |answer|cb|target];
    cbn [step sampled fst snd length repeat]; rewrite ?app_nil_r;
    try reflexivity.
  - unfold start. destruct (intervalId p); cbn [length repeat];
      [rewrite app_nil_r; reflexivity|].
    cbn [setInterval]. rewrite ChangePollerFacts.poll_sent. reflexivity.
  - unfold stop. destruct (intervalId p); reflexivity.
  - unfold tick. destruct (intervalId p); cbn [length repeat];
      [|rewrite app_nil_r; reflexivity].
    destruct (is_live _ r); cbn [length repeat];
      [|rewrite app_nil_r; reflexivity].
    rewrite ChangePollerFacts.poll_sent. reflexivity.
Qed.

(** X4.  The only request a poller makes is [send("stats", {})] on its own
    transport, one for each sample it takes: one at each start that begins
    polling and one at each tick of its live interval, and none for a start
    while running, a tick after stop, or a subscription. *)
Theorem poller_sends_one_stats_per_sample
    (events : list event) (w : Runtime * t) :
  sent (fst (run_events events w)) =
  sent (fst w) ++
  repeat (transport (snd w), "stats"%string, JObj [])
    (length (samples events w)).
Proof.
  revert w. induction events as [|e rest IH]; intros w.
  - cbn [run_events fold_left samples length repeat]. rewrite app_nil_r.
    reflexivity.
  - cbn [run_events fold_left samples]. unfold run_events in IH.
    rewrite IH, step_sent, step_transport, length_app, repeat_app, app_assoc.
    reflexivity.
Qed.

Lemma fire_calls (p : t) :
  exists extra,
    calls (fire p) = calls p ++ extra /\
    (forall x, In x extra -> In x (map ref (callbacks p))) /\
    (forall cb, In cb (callbacks (fire p)) -> In cb (callbacks p)).
Proof.
  unfold fire, notify.
  destruct (SubscribersFacts.forOf_calls (length (callbacks p)) 0
              (callbacks p) (calls p)) as (extra & Hcalls & Hin & Hleft).
  destruct (forOf (length (callbacks p)) 0 (callbacks p) (calls p))
    as [callbacks' calls'].
  exists extra. cbn [fst snd calls callbacks] in *.
  split; [exact Hcalls|]. split; assumption.
Qed.

Lemma poll_calls (target : nat) (answer : completion string)
    (w : Runtime * t) :
  ~ In target (map ref (callbacks (snd w))) ->
  exists extra,
    calls (snd (poll answer w)) = calls (snd w) ++ extra /\
    ~ In target extra /\
    ~ In target (map ref (callbacks (snd (poll answer w)))).
Proof.
  intros Hnot. destruct w as [r p]. cbn [snd] in *.
  destruct answer as [hash|err]; cbn [poll snd calls callbacks].
  - destruct (changed hash p).
    + destruct (fire_calls p) as (extra & Hcalls & Hin & Hleft).
      exists extra. split; [exact Hcalls|]. split.
      * intros Hx. apply Hnot, Hin, Hx.
      * intros Hx. apply in_map_iff in Hx as (cb & Hcb & Hx).
        apply Hnot. rewrite <- Hcb. apply in_map, Hleft, Hx.
    + exists []. rewrite app_nil_r. split; [reflexivity|].
      split; [intros []|exact Hnot].
  - exists []. rewrite app_nil_r. split; [reflexivity|].
    split; [intros []|exact Hnot].
Qed.

Lemma poller_step_calls (target : nat) (e : event) (w : Runtime * t) :
  ~ In target (map ref (callbacks (snd w))) ->
  ~ registers target e ->
  exists extra,
    calls (snd (step w e)) = calls (snd w) ++ extra /\
    ~ In target extra /\
    ~ In target (map ref (callbacks (snd (step w e)))).
Proof.
  intros Hnot Hreg.
  assert (Hsame : forall w' : Runtime * t,
            callbacks (snd w') = callbacks (snd w) ->
            calls (snd w') = calls (snd w) ->
            exists extra,
              calls (snd w') = calls (snd w) ++ extra /\
              ~ In target extra /\
              ~ In target (map ref (callbacks (snd w')))).
  { intros w' Hcbs Hcalls. exists []. rewrite app_nil_r, Hcbs.
    split; [exact Hcalls|]. split; [intros []|exact Hnot]. }
  destruct e as [ms answer| |answer|cb|t0]; cbn [step].
  - destruct w as [r p]. unfold start.
    destruct (intervalId p); [apply Hsame; reflexivity|].
    cbn [setInterval].
    apply (poll_calls target answer
             (mkRuntime (timers r ++ [(next_timer r, default 2000%Z ms)])
                (S (next_timer r)) (sent r) (closed r) (watching r)
                (subscribed r),
              mkChangePoller (transport p) (Some (next_timer r))
                (callbacks p) (lastHash p) (calls p))).
    exact Hnot.
  - destruct (stop_fields w) as (_ & Hcbs & _ & Hcalls & _).
    apply Hsame; assumption.
  - destruct w as [r p]. unfold tick.
    destruct (intervalId p); [|apply Hsame; reflexivity].
    destruct (is_live _ r); [|apply Hsame; reflexivity].
    apply poll_calls. exact Hnot.
  - exists []. cbn [snd onChange calls callbacks]. rewrite app_nil_r.
    split; [reflexivity|]. split; [intros []|].
    unfold push. rewrite map_app. intros Hin.
    apply in_app_or in Hin as [Hin|[Hin|[]]]; [exact (Hnot Hin)|].
    apply Hreg. exact Hin.
  - exists []. cbn [snd unsubscribe calls callbacks]. rewrite app_nil_r.
    split; [reflexivity|]. split; [intros []|].
    intros Hin. apply in_map_iff in Hin as (cb & Hcb & Hin).
    apply Hnot. rewrite <- Hcb.
    apply in_map, (SubscribersFacts.unsubscribe_incl t0), Hin.
Qed.

(** X5.  The poller calls only what is registered.  A function that is not
    among the subscribers, never registered or unsubscribed, is not called
    by any later sample, however the stats change, unless [onChange] is
    given it again. *)
Theorem poller_calls_only_subscribers
    (target : nat) (events : list event) (w : Runtime * t)
    (Hnot : ~ In target (map ref (callbacks (snd w))))
    (Hfresh : forall e, In e events -> ~ registers target e) :
  exists later,
    calls (snd (run_events events w)) = calls (snd w) ++ later /\
    ~ In target later.
Proof.
  revert w Hnot. induction events as [|e rest IH]; intros w Hnot.
  - exists []. cbn [run_events fold_left]. rewrite app_nil_r.
    split; [reflexivity|intros []].
  - destruct (poller_step_calls target e w Hnot) as (extra & Hcalls & Hextra & Hnot').
    { apply Hfresh. left. reflexivity. }
    destruct (IH ltac:(intros e' He'; apply Hfresh; right; exact He')
                (step w e) Hnot') as (later & Hlater & Hnotin).
    exists (extra ++ later). cbn [run_events fold_left].
    unfold run_events in Hlater. rewrite Hlater, Hcalls, <- app_assoc.
    split; [reflexivity|].
    intros Hin. apply in_app_or in Hin as [Hin|Hin]; contradiction.
Qed.

(** "unsubscribes callbacks": subscribed, sampled once, unsubscribed; the
    changed sample that follows calls nobody. *)
Lemma poller_calls_only_subscribers_witness :
  let w := run_events [OnChange first; Start (Some 1000%Z) total5; Unsub 1]
             (fresh_runtime, new statsTransport) in
  calls (snd (run_events [Tick total6; Tick total5] w)) = [] /\
  exists later,
    calls (snd (run_events [Tick total6; Tick total5] w)) =
      calls (snd w) ++ later /\ ~ In 1%nat later.
Proof.
  intros w. split; [reflexivity|].
  apply (poller_calls_only_subscribers 1 [Tick total6; Tick total5] w).
  - intros [].
  - intros e [<-|[<-|[]]]; exact id.
Defined.

End ChangePollerLifecycle.

(** ** Subscribing and unsubscribing, on the poller and on the client *)

Module SubscriptionFacts.
Import Subscribers.
Local Open Scope list_scope.

Lemma unsubscribe_absent (t : nat) (l : list callback) :
  ~ In t (map ref l) -> unsubscribe t l = l.
Proof.
  intros H. rewrite <- (app_nil_r l) at 1.
  rewrite SubscribersFacts.unsubscribe_app_later by exact H.
  rewrite app_nil_r. reflexivity.
Qed.

Lemma unsubscribe_earliest (t : nat) (pre post : list callback)
    (x : callback) :
  ref x = t -> ~ In t (map ref pre) ->
  unsubscribe t (pre ++ x :: post) = pre ++ post.
Proof.
  intros Hx Hpre.
  rewrite SubscribersFacts.unsubscribe_app_later by exact Hpre.
  rewrite SubscribersFacts.unsubscribe_cons_eq by exact Hx. reflexivity.
Qed.

Lemma unsubscribe_count_target (t : nat) (l : list callback) :
  count_occ Nat.eq_dec (map ref (unsubscribe t l)) t =
  Nat.pred (count_occ Nat.eq_dec (map ref l) t).
Proof.
  induction l as [|a l IH]; [reflexivity|].
  destruct (Nat.eq_dec (ref a) t) as [E|E].
  - rewrite SubscribersFacts.unsubscribe_cons_eq by exact E. cbn [map].
    rewrite count_occ_cons_eq by exact E. reflexivity.
  - rewrite SubscribersFacts.unsubscribe_cons_ne by exact E. cbn [map].
    rewrite !count_occ_cons_neq by exact E. exact IH.
Qed.

(** X6.  Subscribe, then unsubscribe.  For a function that is not yet
    registered, calling the unsubscribe function that [onChange] returned
    puts the poller, and likewise the client, back exactly as it was; calling
    it a second time changes nothing. *)
Theorem subscribe_then_unsubscribe
    (cb : callback) (p : ChangePoller.t) (c : BeadsClient.t) :
  (~ In (ref cb) (map ref (ChangePoller.callbacks p)) ->
   ChangePoller.unsubscribe (ref cb) (ChangePoller.onChange cb p) = p /\
   ChangePoller.unsubscribe (ref cb)
     (ChangePoller.unsubscribe (ref cb) (ChangePoller.onChange cb p)) = p) /\
  (~ In (ref cb) (map ref (BeadsClient.changeCallbacks c)) ->
   BeadsClient.unsubscribe (ref cb) (BeadsClient.onChange cb c) = c /\
   BeadsClient.unsubscribe (ref cb)
     (BeadsClient.unsubscribe (ref cb) (BeadsClient.onChange cb c)) = c).
Proof.
  split; intros Hnew.
  - assert (E : ChangePoller.unsubscribe (ref cb) (ChangePoller.onChange cb p)
                = p).
    { destruct p as [tr id cbs hash calls]. cbn in Hnew.
      unfold ChangePoller.unsubscribe, ChangePoller.onChange, push.
      cbn [ChangePoller.callbacks ChangePoller.transport
             ChangePoller.intervalId ChangePoller.lastHash ChangePoller.calls].
      rewrite (unsubscribe_earliest (ref cb) cbs [] cb eq_refl Hnew).
      rewrite app_nil_r. reflexivity. }
    split; [exact E|]. rewrite E.
    destruct p as [tr id cbs hash calls]. cbn in Hnew.
    unfold ChangePoller.unsubscribe. cbn [ChangePoller.callbacks
      ChangePoller.transport ChangePoller.intervalId ChangePoller.lastHash
      ChangePoller.calls].
    rewrite unsubscribe_absent by exact Hnew. reflexivity.
  - assert (E : BeadsClient.unsubscribe (ref cb) (BeadsClient.onChange cb c)
                = c).
    { destruct c. cbn in Hnew.
      unfold BeadsClient.unsubscribe, BeadsClient.onChange, push. cbn.
      rewrite (unsubscribe_earliest (ref cb) _ [] cb eq_refl Hnew).
      rewrite app_nil_r. reflexivity. }
    split; [exact E|]. rewrite E.
    destruct c. cbn in Hnew. unfold BeadsClient.unsubscribe. cbn.
    rewrite unsubscribe_absent by exact Hnew. reflexivity.
Qed.

Lemma subscribe_then_unsubscribe_witness :
  let p := ChangePoller.onChange PollerFixtures.second
             (ChangePoller.new PollerFixtures.statsTransport) in
  let c := BeadsClient.onChange PollerFixtures.second
             (BeadsClient.new ClientFixtures.defaults) in
  ChangePoller.unsubscribe 1
    (ChangePoller.onChange PollerFixtures.first p) = p /\
  BeadsClient.unsubscribe 1 (BeadsClient.onChange PollerFixtures.first c) = c.
Proof.
  intros p c.
  destruct (subscribe_then_unsubscribe PollerFixtures.first p c) as [Hp Hc].
  split.
  - apply Hp. intros [H|[]]. discriminate H.
  - apply Hc. intros [H|[]]. discriminate H.
Defined.

(** X7.  One unsubscribe removes one registration, the earliest.  On the
    poller and on the client alike, unsubscribing a function takes out its
    first entry in the list and nothing else: the other subscribers keep
    their order, a function registered twice stays registered once, and a
    function that is not registered leaves everything as it is. *)
Theorem unsubscribe_removes_the_earliest_registration
    (t : nat) (p : ChangePoller.t) (c : BeadsClient.t) :
  (forall pre x post,
     ref x = t -> ~ In t (map ref pre) ->
     (ChangePoller.callbacks p = pre ++ x :: post ->
      ChangePoller.callbacks (ChangePoller.unsubscribe t p) = pre ++ post) /\
     (BeadsClient.changeCallbacks c = pre ++ x :: post ->
      BeadsClient.changeCallbacks (BeadsClient.unsubscribe t c) = pre ++ post)) /\
  (~ In t (map ref (ChangePoller.callbacks p)) ->
   ChangePoller.unsubscribe t p = p) /\
  (~ In t (map ref (BeadsClient.changeCallbacks c)) ->
   BeadsClient.unsubscribe t c = c) /\
  count_occ Nat.eq_dec
    (map ref (ChangePoller.callbacks (ChangePoller.unsubscribe t p))) t =
  Nat.pred (count_occ Nat.eq_dec (map ref (ChangePoller.callbacks p)) t) /\
  count_occ Nat.eq_dec
    (map ref (BeadsClient.changeCallbacks (BeadsClient.unsubscribe t c))) t =
  Nat.pred (count_occ Nat.eq_dec (map ref (BeadsClient.changeCallbacks c)) t) /\
  (forall x, x <> t ->
     count_occ Nat.eq_dec
       (map ref (ChangePoller.callbacks (ChangePoller.unsubscribe t p))) x =
     count_occ Nat.eq_dec (map ref (ChangePoller.callbacks p)) x /\
     count_occ Nat.eq_dec
       (map ref (BeadsClient.changeCallbacks (BeadsClient.unsubscribe t c))) x =
     count_occ Nat.eq_dec (map ref (BeadsClient.changeCallbacks c)) x).
Proof.
  split; [|split; [|split; [|split; [|split]]]].
  - intros pre x post Hx Hpre. split; intros Hreg.
    + cbn [ChangePoller.unsubscribe ChangePoller.callbacks]. rewrite Hreg.
      apply unsubscribe_earliest; assumption.
    + cbn [BeadsClient.unsubscribe BeadsClient.changeCallbacks]. rewrite Hreg.
      apply unsubscribe_earliest; assumption.
  - intros H. destruct p. cbn in H. unfold ChangePoller.unsubscribe. cbn.
    rewrite unsubscribe_absent by exact H. reflexivity.
  - intros H. destruct c. cbn in H. unfold BeadsClient.unsubscribe. cbn.
    rewrite unsubscribe_absent by exact H. reflexivity.
  - apply unsubscribe_count_target.
  - apply unsubscribe_count_target.
  - intros x Hx. split; apply SubscribersFacts.unsubscribe_count; exact Hx.
Qed.

(** The same function registered twice, with another in between: one
    unsubscribe leaves the later registration, and a round still calls it. *)
Lemma unsubscribe_removes_the_earliest_registration_witness :
  let c := BeadsClient.onChange PollerFixtures.first
             (BeadsClient.onChange PollerFixtures.second
                (BeadsClient.onChange PollerFixtures.first
                   (BeadsClient.new ClientFixtures.defaults))) in
  BeadsClient.changeCallbacks (BeadsClient.unsubscribe 1 c) =
    [PollerFixtures.second; PollerFixtures.first] /\
  BeadsClient.calls (BeadsClient.notifyChange (BeadsClient.unsubscribe 1 c)) =
    [2; 1].
Proof.
  intros c.
  destruct (unsubscribe_removes_the_earliest_registration 1
              (ChangePoller.new PollerFixtures.statsTransport) c)
    as (Hfirst & _).
  destruct (Hfirst [] PollerFixtures.first
              [PollerFixtures.second; PollerFixtures.first]
              eq_refl ltac:(intros [])) as [_ Hc].
  split; [exact (Hc eq_refl)|reflexivity].
Defined.

(** X8.  A callback that unsubscribes itself while it is being called.  In a
    round of the poller (a changed sample) or of the client
    ([notifyChange]), with the other callbacks inert: the callbacks before
    it and itself are called, the callback registered right after it is
    passed over, the ones after that are called; afterwards the
    self-unsubscribing callback is gone and all others are still
    registered. *)
Theorem self_unsubscribe_passes_over_the_next
    (pre post : list callback) (f : callback)
    (p : ChangePoller.t) (c : BeadsClient.t)
    (Hpre : Forall inert pre) (Hpost : Forall inert post)
    (Hf : body f = [Unsubscribe (ref f)])
    (Hnot : ~ In (ref f) (map ref pre))
    (Hpoller : ChangePoller.callbacks p = pre ++ f :: post)
    (Hclient : BeadsClient.changeCallbacks c = pre ++ f :: post) :
  let called := map ref pre ++ ref f :: map ref (tail post) in
  (forall r h,
     ChangePoller.changed h p = true ->
     let w' := ChangePoller.poll (Returns h) (r, p) in
     ChangePoller.calls (snd w') = ChangePoller.calls p ++ called /\
     ChangePoller.callbacks (snd w') = pre ++ post) /\
  BeadsClient.calls (BeadsClient.notifyChange c) =
    BeadsClient.calls c ++ called /\
  BeadsClient.changeCallbacks (BeadsClient.notifyChange c) = pre ++ post.
Proof.
  intros called.
  pose proof (fun calls =>
                SubscribersFacts.notify_unsubscribe_self pre post f calls
                  Hpre Hpost Hf Hnot) as Hround.
  split; [|split].
  - intros r h Hchanged. cbn [ChangePoller.poll snd]. rewrite Hchanged.
    cbn [ChangePoller.calls ChangePoller.callbacks].
    unfold ChangePoller.fire. rewrite Hpoller, Hround.
    split; reflexivity.
  - unfold BeadsClient.notifyChange. rewrite Hclient, Hround. reflexivity.
  - unfold BeadsClient.notifyChange. rewrite Hclient, Hround. reflexivity.
Qed.

(** A one-shot listener between two others: the round calls the first and
    the one-shot listener and passes over the last. *)
Lemma self_unsubscribe_passes_over_the_next_witness :
  let oneShot := mkCallback 2 [Unsubscribe 2] in
  let c := BeadsClient.onChange PollerFixtures.third
             (BeadsClient.onChange oneShot
                (BeadsClient.onChange PollerFixtures.first
                   (BeadsClient.new ClientFixtures.defaults))) in
  BeadsClient.calls (BeadsClient.notifyChange c) = [1; 2] /\
  BeadsClient.changeCallbacks (BeadsClient.notifyChange c) =
    [PollerFixtures.first; PollerFixtures.third] /\
  BeadsClient.calls
    (BeadsClient.notifyChange (BeadsClient.notifyChange c)) = [1; 2; 1; 3].
Proof.
  intros oneShot c.
  destruct (self_unsubscribe_passes_over_the_next
              [PollerFixtures.first] [PollerFixtures.third] oneShot
              (ChangePoller.onChange PollerFixtures.third
                 (ChangePoller.onChange oneShot
                    (ChangePoller.onChange PollerFixtures.first
                       (ChangePoller.new PollerFixtures.statsTransport))))
              c ltac:(repeat constructor) ltac:(repeat constructor) eq_refl
              ltac:(intros [H|[]]; discriminate H) eq_refl eq_refl)
    as (_ & Hcalls & Hleft).
  split; [exact Hcalls|]. split; [exact Hleft|reflexivity].
Defined.

End SubscriptionFacts.

(** ** The life of a client: connecting, reading, writing, disconnecting *)

Module BeadsClientLifecycle.
Import Subscribers BeadsClient BeadsClientInvariants ClientFixtures.
Local Open Scope list_scope.

Lemma poll_keeps_inert (answer : completion string)
    (w : Runtime * ChangePoller.t) :
  Forall inert (ChangePoller.callbacks (snd w)) ->
  ChangePoller.callbacks (snd (ChangePoller.poll answer w)) =
  ChangePoller.callbacks (snd w).
Proof.
  destruct w as [r p]. cbn [snd]. intros Hinert.
  destruct answer as [hash|err]; [|reflexivity].
  cbn [ChangePoller.poll snd ChangePoller.callbacks].
  destruct (ChangePoller.changed hash p); [|reflexivity].
  apply ChangePollerFacts.fire_inert, Hinert.
Qed.

Lemma start_keeps_inert (ms : option Z) (answer : completion string)
    (w : Runtime * ChangePoller.t) :
  Forall inert (ChangePoller.callbacks (snd w)) ->
  ChangePoller.callbacks (snd (ChangePoller.start ms answer w)) =
  ChangePoller.callbacks (snd w).
Proof.
  destruct w as [r p]. cbn [snd]. intros Hinert. unfold ChangePoller.start.
  destruct (ChangePoller.intervalId p); [reflexivity|].
  cbn [setInterval]. rewrite poll_keeps_inert; [reflexivity|exact Hinert].
Qed.

Lemma tick_keeps_poller (answer : completion string)
    (w : Runtime * ChangePoller.t) :
  Forall inert (ChangePoller.callbacks (snd w)) ->
  ChangePoller.callbacks (snd (ChangePoller.tick answer w)) =
    ChangePoller.callbacks (snd w) /\
  ChangePoller.intervalId (snd (ChangePoller.tick answer w)) =
    ChangePoller.intervalId (snd w) /\
  ChangePoller.transport (snd (ChangePoller.tick answer w)) =
    ChangePoller.transport (snd w).
Proof.
  intros Hinert.
  pose proof (ChangePollerLifecycle.step_transport (ChangePoller.Tick answer) w)
    as Htr. cbn [ChangePoller.step] in Htr.
  split; [|split; [|exact Htr]].
  - destruct w as [r p]. unfold ChangePoller.tick.
    destruct (ChangePoller.intervalId p); [|reflexivity].
    destruct (is_live _ r); [|reflexivity].
    apply poll_keeps_inert, Hinert.
  - destruct w as [r p]. unfold ChangePoller.tick.
    destruct (ChangePoller.intervalId p); [|reflexivity].
    destruct (is_live _ r); [|reflexivity].
    apply ChangePollerFacts.poll_intervalId.
Qed.

Lemma coherent_fields (c c' : t) :
  daemon c' = daemon c -> jsonl c' = jsonl c -> transport c' = transport c ->
  poller c' = poller c -> jsonlUnsubscribe c' = jsonlUnsubscribe c ->
  connected c' = connected c ->
  coherent c -> coherent c'.
Proof.
  unfold coherent. intros -> -> -> -> -> ->. exact id.
Qed.

Lemma notifyChange_fields (c : t) :
  daemon (notifyChange c) = daemon c /\ jsonl (notifyChange c) = jsonl c /\
  transport (notifyChange c) = transport c /\
  poller (notifyChange c) = poller c /\
  jsonlUnsubscribe (notifyChange c) = jsonlUnsubscribe c /\
  connected (notifyChange c) = connected c /\
  workspaceRoot (notifyChange c) = workspaceRoot c /\
  options (notifyChange c) = options c.
Proof.
  unfold notifyChange. destruct (notify (changeCallbacks c) (calls c)).
  repeat split.
Qed.

Lemma notifyChange_coherent (c : t) : coherent c -> coherent (notifyChange c).
Proof.
  destruct (notifyChange_fields c) as (H1 & H2 & H3 & H4 & H5 & H6 & _).
  apply coherent_fields; assumption.
Qed.

Lemma new_poller_facts (d : Transport) (ms : option Z)
    (answer : completion string) (r : Runtime) :
  let w := ChangePoller.start ms answer
             (r, ChangePoller.onChange notifier (ChangePoller.new d)) in
  ChangePoller.transport (snd w) = d /\
  ChangePoller.callbacks (snd w) = [notifier] /\
  ChangePoller.intervalId (snd w) = Some (next_timer r) /\
  ChangePoller.calls (snd w) = [] /\
  timers (fst w) = timers r ++ [(next_timer r, default 2000%Z ms)] /\
  sent (fst w) = sent r ++ [(d, "stats"%string, JObj [])] /\
  closed (fst w) = closed r /\ subscribed (fst w) = subscribed r /\
  watching (fst w) = watching r.
Proof.
  destruct answer; cbn; repeat split.
Qed.

Lemma step_coherent (e : event) (w : Runtime * t) :
  coherent (snd w) -> coherent (snd (step w e)).
Proof.
  destruct w as [r c]. cbn [snd].
  destruct e as [root env| |cb|t0|answer|j| |op answer]; cbn [step snd].
  - intros (Hconn & Htr & Hj & Hp). unfold connect.
    destruct (ping_answer env) as [pong|err].
    + match goal with
      | |- context [ChangePoller.start ?ms ?a (?r0, ChangePoller.onChange
                      notifier (ChangePoller.new ?d))] =>
          destruct (new_poller_facts d ms a r0) as (Ht & Hc & Hi & _);
          destruct (ChangePoller.start ms a
                      (r0, ChangePoller.onChange notifier (ChangePoller.new d)))
            as [r' p']
      end.
      cbn [fst snd] in *. unfold coherent.
      cbn [connected transport daemon jsonl jsonlUnsubscribe poller].
      split; [split; [discriminate|reflexivity]|].
      split; [intros tr [= <-]; left; reflexivity|].
      split; [exact Hj|].
      intros p [= <-]. rewrite Ht, Hc, Hi.
      split; [reflexivity|]. split; [reflexivity|discriminate].
    + destruct (load_answer env); cbn [snd]; unfold coherent;
        cbn [connected transport daemon jsonl jsonlUnsubscribe poller].
      * split; [split; [discriminate|reflexivity]|].
        split; [intros tr [= <-]; right; reflexivity|].
        split; [reflexivity|exact Hp].
      * split; [exact Hconn|]. split; [exact Htr|]. split; [exact Hj|exact Hp].
  - intros _. unfold coherent. cbn.
    split; [split; [discriminate|congruence]|].
    split; [discriminate|]. split; [reflexivity|discriminate].
  - apply coherent_fields; reflexivity.
  - apply coherent_fields; reflexivity.
  - intros Hco. unfold tick. destruct (poller c) as [p|] eqn:Ep; [|exact Hco].
    destruct Hco as (Hconn & Htr & Hj & Hp).
    destruct (Hp p Ep) as (Hd & Hcbs & Hid).
    destruct (tick_keeps_poller answer (r, p)) as (Hc' & Hi' & Ht').
    { cbn [snd]. rewrite Hcbs. repeat constructor. }
    destruct (ChangePoller.tick answer (r, p)) as [r' p']. cbn [snd] in *.
    assert (Hco' : coherent
              (mkBeadsClient (daemon c) (jsonl c) (transport c) (Some p')
                 (changeCallbacks c) (jsonlUnsubscribe c) (connected c)
                 (workspaceRoot c) (options c) (calls c))).
    { unfold coherent.
      cbn [connected transport daemon jsonl jsonlUnsubscribe poller].
      split; [exact Hconn|]. split; [exact Htr|]. split; [exact Hj|].
      intros q [= <-]. rewrite Ht', Hc', Hi'. split; [exact Hd|].
      split; [exact Hcbs|exact Hid]. }
    match goal with |- context [if ?b then _ else _] => destruct b end;
      cbn [snd]; [apply notifyChange_coherent|]; exact Hco'.
  - unfold fileChange. destruct (bool_decide _); cbn [snd];
      [apply notifyChange_coherent|exact id].
  - apply notifyChange_coherent.
  - rewrite BeadsClientFacts.perform_client. exact id.
Qed.

Lemma run_events_coherent (events : list event) (w : Runtime * t) :
  coherent (snd w) -> coherent (snd (run_events events w)).
Proof.
  revert w. unfold run_events.
  induction events as [|e rest IH]; intros w H0; [exact H0|].
  cbn [fold_left]. apply IH, step_coherent, H0.
Qed.

(** X9.  The fields of a client stay coherent.  Over any run of connects,
    disconnects, subscriptions, timer ticks, file changes, notifications and
    writes on a new client: [isConnected()] is true exactly when there is an
    active transport; the active transport is the daemon transport or the
    JSONL transport the client holds; the stored JSONL unsubscribe function
    belongs to the JSONL transport held; and a poller, when there is one,
    polls the daemon transport held, has the client's notifier as its one
    subscriber, and is running. *)
Theorem client_stays_coherent
    (options : BeadsClientOptions) (r : Runtime) (events : list event) :
  coherent (snd (run_events events (r, new options))).
Proof.
  apply run_events_coherent. unfold coherent. cbn.
  split; [split; [discriminate|congruence]|].
  split; [discriminate|]. split; [reflexivity|discriminate].
Qed.

(** X10.  Reads follow [isConnected()].  At any point in the life of a client,
    a read ([list], [show], [ready], [blocked], [stats], [ping], [health])
    on a client that is not connected rejects with "Not connected. Call
    connect() first.", sends nothing and changes nothing; on a connected
    client it makes one request with the operation's name on the active
    transport, which is the daemon or the JSONL transport the client holds,
    and completes as that request does, whichever of the two it is. *)
Theorem reads_follow_isConnected
    (options : BeadsClientOptions) (r : Runtime) (events : list event)
    (q : BeadsClientReads.read) (answer : completion json) :
  let w := run_events events (r, new options) in
  (isConnected (snd w) = false ->
   BeadsClientReads.query q answer w =
   (Throws (mkError "Not connected. Call connect() first."), w)) /\
  (isConnected (snd w) = true ->
   exists tr,
     transport (snd w) = Some tr /\
     (daemon (snd w) = Some tr \/ jsonl (snd w) = Some tr) /\
     BeadsClientReads.query q answer w =
     (answer,
      (log_send tr (BeadsClientReads.read_operation q)
         match q with
         | BeadsClientReads.Show id => JObj [("id"%string, JStr id)]
         | BeadsClientReads.List filter | BeadsClientReads.Ready filter
         | BeadsClientReads.Blocked filter => JObj (spread [] filter)
         | _ => JObj []
         end (fst w),
       snd w))).
Proof.
  intros w.
  assert (Hco : coherent (snd w)).
  { apply run_events_coherent. unfold coherent. cbn.
    split; [split; [discriminate|congruence]|].
    split; [discriminate|]. split; [reflexivity|discriminate]. }
  destruct Hco as (Hconn & Htr & _). destruct w as [r' c]. cbn [fst snd] in *.
  unfold isConnected. split.
  - intros Hoff.
    assert (Hnone : transport c = None).
    { destruct (transport c) eqn:E; [|reflexivity].
      assert (connected c = true) by (apply Hconn; discriminate). congruence. }
    destruct q; cbn [BeadsClientReads.query]; unfold BeadsClientReads.list,
      BeadsClientReads.show, BeadsClientReads.ready, BeadsClientReads.blocked,
      BeadsClientReads.stats, BeadsClientReads.ping, BeadsClientReads.health,
      send; rewrite Hnone; reflexivity.
  - intros Hon. apply Hconn in Hon.
    destruct (transport c) as [tr|] eqn:E; [|contradiction].
    exists tr. split; [reflexivity|]. split; [apply Htr; reflexivity|].
    destruct q; cbn [BeadsClientReads.query]; unfold BeadsClientReads.list,
      BeadsClientReads.show, BeadsClientReads.ready, BeadsClientReads.blocked,
      BeadsClientReads.stats, BeadsClientReads.ping, BeadsClientReads.health,
      send; rewrite E; reflexivity.
Qed.

(** "throws when calling methods before connect", and a [list] after a
    connect that fell back to the JSONL file. *)
Lemma reads_follow_isConnected_witness :
  BeadsClientReads.query (BeadsClientReads.List []) (Returns (JArr []))
    (fresh_runtime, new defaults) =
  (Throws (mkError "Not connected. Call connect() first."),
   (fresh_runtime, new defaults)) /\
  fst (BeadsClientReads.query (BeadsClientReads.List []) (Returns (JArr []))
         (run_events [Connect "/repo" fileOnly] (fresh_runtime, new defaults)))
  = Returns (JArr []).
Proof.
  split.
  - destruct (reads_follow_isConnected defaults fresh_runtime []
                (BeadsClientReads.List []) (Returns (JArr []))) as [Hoff _].
    exact (Hoff eq_refl).
  - destruct (reads_follow_isConnected defaults fresh_runtime
                [Connect "/repo" fileOnly] (BeadsClientReads.List [])
                (Returns (JArr []))) as [_ Hon].
    destruct (Hon eq_refl) as (tr & _ & _ & Hq). rewrite Hq. reflexivity.
Defined.

(** X11.  [connect] picks the transport.  If the daemon answers the ping, the
    client is connected through a daemon transport for that root, with a
    new poller on it that is running at the configured interval (2000 ms
    when none is configured), has sampled once and has called nobody.  If
    the ping fails and the JSONL file loads, the client is connected through
    the JSONL transport, which is watched and subscribed to; no poller is
    made and no timer set.  Either way the change callbacks registered
    before stay registered. *)
Theorem connect_picks_the_transport
    (root : string) (env : answers) (w : Runtime * t) :
  let d := DaemonTransport root (requestTimeout (options (snd w)))
             (actor (options (snd w))) in
  let j := JsonlTransport root in
  let w' := snd (connect root env w) in
  (forall pong, ping_answer env = Returns pong ->
     fst (connect root env w) = Returns tt /\
     transport (snd w') = Some d /\ daemon (snd w') = Some d /\
     isConnected (snd w') = true /\
     (exists p,
        poller (snd w') = Some p /\
        ChangePoller.transport p = d /\
        ChangePoller.callbacks p = [notifier] /\
        ChangePoller.intervalId p = Some (next_timer (fst w)) /\
        ChangePoller.calls p = []) /\
     timers (fst w') =
       timers (fst w) ++
       [(next_timer (fst w), default 2000%Z (pollInterval (options (snd w))))] /\
     sent (fst w') =
       sent (fst w) ++
       [(d, "ping"%string, JObj []); (d, "stats"%string, JObj [])] /\
     subscribed (fst w') = subscribed (fst w) /\
     jsonl (snd w') = jsonl (snd w) /\
     changeCallbacks (snd w') = changeCallbacks (snd w) /\
     calls (snd w') = calls (snd w)) /\
  (forall err, ping_answer env = Throws err -> load_answer env = true ->
     fst (connect root env w) = Returns tt /\
     transport (snd w') = Some j /\ jsonl (snd w') = Some j /\
     jsonlUnsubscribe (snd w') = Some j /\
     isConnected (snd w') = true /\
     poller (snd w') = poller (snd w) /\
     daemon (snd w') = daemon (snd w) /\
     timers (fst w') = timers (fst w) /\
     sent (fst w') = sent (fst w) ++ [(d, "ping"%string, JObj [])] /\
     watching (fst w') = watching (fst w) ++ [j] /\
     subscribed (fst w') = subscribed (fst w) ++ [j] /\
     changeCallbacks (snd w') = changeCallbacks (snd w) /\
     calls (snd w') = calls (snd w)).
Proof.
  intros d j w'. subst w'. destruct w as [r c]. cbn [fst snd] in *.
  split.
  - intros pong Hping. unfold connect. rewrite Hping.
    destruct (new_poller_facts d
                (Some (default 2000%Z (pollInterval (options c))))
                (stats_answer env) (log_send d "ping" (JObj []) r))
      as (Ht & Hc & Hi & Hcalls & Htimers & Hsent & _ & Hsub & _).
    fold d.
    destruct (ChangePoller.start _ _ _) as [r' p']. cbn [fst snd] in *.
    unfold isConnected.
    cbn [transport daemon connected poller jsonl changeCallbacks calls].
    repeat (split; [reflexivity|]).
    split; [exists p'; repeat split; assumption|].
    split; [exact Htimers|].
    split; [rewrite Hsent; cbn [log_send sent]; rewrite <- app_assoc;
            reflexivity|].
    split; [exact Hsub|]. repeat split.
  - intros err Hping Hload. unfold connect. rewrite Hping, Hload.
    cbn. repeat split.
Qed.

Lemma connect_picks_the_transport_witness :
  isConnected
    (snd (snd (connect "/repo" daemonUp (fresh_runtime, new defaults)))) = true /\
  timers (fst (snd (connect "/repo" daemonUp (fresh_runtime, new defaults))))
    = [(0%nat, 2000%Z)] /\
  transport
    (snd (snd (connect "/repo" fileOnly (fresh_runtime, new defaults))))
    = Some (JsonlTransport "/repo") /\
  timers (fst (snd (connect "/repo" fileOnly (fresh_runtime, new defaults))))
    = [].
Proof.
  destruct (connect_picks_the_transport "/repo" daemonUp
              (fresh_runtime, new defaults)) as [Hup _].
  destruct (connect_picks_the_transport "/repo" fileOnly
              (fresh_runtime, new defaults)) as [_ Hfile].
  destruct (Hup pong eq_refl) as (_ & _ & _ & Hon & _ & Htimers & _).
  destruct (Hfile noSocket eq_refl eq_refl)
    as (_ & Htr & _ & _ & _ & _ & _ & Hsame & _).
  split; [exact Hon|]. split; [exact Htimers|].
  split; [exact Htr|exact Hsame].
Defined.

(** X12.  [disconnect] is safe in any state and idempotent.  It always
    resolves, and a second [disconnect] right after the first changes
    nothing at all: no transport is closed twice and nothing else is
    released again. *)
Theorem disconnect_is_idempotent (w : Runtime * t) :
  fst (disconnect w) = Returns tt /\
  disconnect (snd (disconnect w)) = (Returns tt, snd (disconnect w)).
Proof.
  destruct w as [r c]. repeat split.
Qed.

Lemma filter_other_handles (h : nat) (l : list (nat * Z)) :
  (forall t, In t l -> fst t <> h) ->
  List.filter (fun t => negb (fst t =? h)%nat) l = l.
Proof.
  intros H. induction l as [|a l IH]; [reflexivity|].
  cbn [List.filter].
  assert (E : (fst a =? h)%nat = false).
  { apply Nat.eqb_neq, H. left. reflexivity. }
  rewrite E. cbn [negb]. rewrite IH; [reflexivity|].
  intros t Ht. apply H. right. exact Ht.
Qed.

(** Taking back the subscription made last leaves the earlier ones. *)
Lemma unsubscribe_latest (j : Transport) (l : list Transport) :
  rev (without_first j (rev (l ++ [j]))) = l.
Proof.
  rewrite rev_app_distr. cbn [rev app without_first].
  rewrite bool_decide_eq_true_2 by reflexivity. apply rev_involutive.
Qed.

(** X13.  [connect] followed by [disconnect] releases what [connect] took.
    Starting from a client that holds no transport and no poller, whichever
    way [connect] goes (daemon, JSONL fallback, or failure), after
    [disconnect] the runtime has the timers and the file-watch subscriptions
    it had before, the transport that was built is closed, and the client
    is disconnected with no subscribers; it remembers the workspace root. *)
Theorem connect_then_disconnect_releases
    (root : string) (env : answers) (w : Runtime * t)
    (Hdaemon : daemon (snd w) = None) (Hjsonl : jsonl (snd w) = None)
    (Hpoller : poller (snd w) = None)
    (Hunsub : jsonlUnsubscribe (snd w) = None)
    (Hfresh : forall t, In t (timers (fst w)) -> fst t <> next_timer (fst w)) :
  let d := DaemonTransport root (requestTimeout (options (snd w)))
             (actor (options (snd w))) in
  let w' := snd (disconnect (snd (connect root env w))) in
  timers (fst w') = timers (fst w) /\
  subscribed (fst w') = subscribed (fst w) /\
  snd w' =
    mkBeadsClient None None None None [] None false (Some root)
      (options (snd w)) (calls (snd w)) /\
  closed (fst w') =
    closed (fst w) ++
    match ping_answer env with
    | Returns _ => [d]
    | Throws _ => if load_answer env then [JsonlTransport root] else []
    end.
Proof.
  intros d w'. subst w'. destruct w as [r c]. cbn [fst snd] in *.
  unfold connect. destruct (ping_answer env) as [pong|err].
  - destruct (new_poller_facts d
                (Some (default 2000%Z (pollInterval (options c))))
                (stats_answer env) (log_send d "ping" (JObj []) r))
      as (_ & _ & Hi & _ & Htimers & _ & Hclosed & Hsub & _).
    fold d.
    destruct (ChangePoller.start _ _ _) as [r' p']. cbn [fst snd] in *.
    unfold disconnect. cbn [fst snd poller daemon jsonl jsonlUnsubscribe
      workspaceRoot options calls].
    unfold ChangePoller.stop. rewrite Hi, Hunsub, Hjsonl.
    cbn [fst snd log_close clearInterval timers subscribed closed].
    rewrite Htimers, Hsub, Hclosed. cbn [log_send timers subscribed closed].
    rewrite List.filter_app. cbn [List.filter fst].
    rewrite Nat.eqb_refl. cbn [negb].
    rewrite filter_other_handles by exact Hfresh.
    rewrite app_nil_r. repeat split.
  - destruct (load_answer env).
    + unfold disconnect. cbn [fst snd poller daemon jsonl jsonlUnsubscribe
        workspaceRoot options calls].
      rewrite Hpoller, Hdaemon.
      cbn [fst snd log_close jsonl_unsubscribe jsonl_onChange startWatching
             log_send timers subscribed closed].
      rewrite unsubscribe_latest. repeat split.
    + unfold disconnect. cbn [fst snd poller daemon jsonl jsonlUnsubscribe
        workspaceRoot options calls].
      rewrite Hpoller, Hdaemon, Hjsonl, Hunsub.
      cbn [log_send timers subscribed closed]. rewrite app_nil_r.
      repeat split.
Qed.

Lemma connect_then_disconnect_releases_witness :
  let w := (fresh_runtime, onChange PollerFixtures.first (new defaults)) in
  timers (fst (snd (disconnect (snd (connect "/repo" daemonUp w))))) = [] /\
  closed (fst (snd (disconnect (snd (connect "/repo" daemonUp w))))) =
    [DaemonTransport "/repo" None None] /\
  subscribed (fst (snd (disconnect (snd (connect "/repo" fileOnly w))))) = [] /\
  changeCallbacks (snd (snd (disconnect (snd (connect "/repo" fileOnly w)))))
    = [].
Proof.
  intros w.
  destruct (connect_then_disconnect_releases "/repo" daemonUp w
              eq_refl eq_refl eq_refl eq_refl ltac:(intros t []))
    as (Htimers & _ & _ & Hclosed).
  destruct (connect_then_disconnect_releases "/repo" fileOnly w
              eq_refl eq_refl eq_refl eq_refl ltac:(intros t []))
    as (_ & Hsub & Hstate & _).
  split; [exact Htimers|]. split; [exact Hclosed|].
  split; [exact Hsub|]. rewrite Hstate. reflexivity.
Defined.

Lemma is_live_app (h : nat) (r : Runtime) (extra : list (nat * Z)) :
  is_live h r = true ->
  existsb (fun t => (fst t =? h)%nat) (timers r ++ extra) = true.
Proof.
  unfold is_live. intros H. rewrite existsb_app, H. reflexivity.
Qed.

Lemma is_live_after_clear (h h' : nat) (l : list (nat * Z)) :
  h <> h' ->
  existsb (fun t => (fst t =? h)%nat)
    (List.filter (fun t => negb (fst t =? h')%nat) l) =
  existsb (fun t => (fst t =? h)%nat) l.
Proof.
  intros Hne. induction l as [|a l IH]; [reflexivity|].
  cbn [List.filter existsb].
  destruct (fst a =? h')%nat eqn:E'; cbn [negb existsb].
  - apply Nat.eqb_eq in E'.
    assert (E : (fst a =? h)%nat = false)
      by (apply Nat.eqb_neq; congruence).
    rewrite E. exact IH.
  - rewrite IH. reflexivity.
Qed.

(** X14.  [connect] does not stop a poller the client already has.  On a
    client whose poller is running, a [connect] that reaches the daemon puts
    a new poller in its place and leaves the interval of the earlier one
    live; [disconnect] then clears the interval of the new poller only, so
    the earlier interval stays live with no poller left in the client
    (timer handles being fresh, the new handle differs from the old). *)
Theorem reconnect_leaves_the_earlier_interval
    (root : string) (env : answers) (w : Runtime * t)
    (p : ChangePoller.t) (handle : nat) (pong : json)
    (Hp : poller (snd w) = Some p)
    (Hid : ChangePoller.intervalId p = Some handle)
    (Hlive : is_live handle (fst w) = true)
    (Hfresh : handle <> next_timer (fst w))
    (Hping : ping_answer env = Returns pong) :
  let w1 := snd (connect root env w) in
  let w2 := snd (disconnect w1) in
  (exists p',
     poller (snd w1) = Some p' /\
     ChangePoller.intervalId p' = Some (next_timer (fst w))) /\
  is_live handle (fst w1) = true /\
  is_live (next_timer (fst w)) (fst w1) = true /\
  poller (snd w2) = None /\
  is_live (next_timer (fst w)) (fst w2) = false /\
  is_live handle (fst w2) = true.
Proof.
  intros w1 w2. subst w2 w1. destruct w as [r c]. cbn [fst snd] in *.
  unfold connect. rewrite Hping.
  match goal with
  | |- context [ChangePoller.start ?ms ?a (?r0, ChangePoller.onChange
                  notifier (ChangePoller.new ?d))] =>
      destruct (new_poller_facts d ms a r0)
        as (_ & _ & Hi & _ & Htimers & _);
      destruct (ChangePoller.start ms a
                  (r0, ChangePoller.onChange notifier (ChangePoller.new d)))
        as [r' p']
  end.
  cbn [fst snd log_send timers next_timer poller] in *.
  split; [exists p'; split; [reflexivity|exact Hi]|].
  assert (Hold : is_live handle r' = true).
  { unfold is_live. rewrite Htimers. apply is_live_app, Hlive. }
  assert (Hnewlive : is_live (next_timer r) r' = true).
  { unfold is_live. rewrite Htimers, existsb_app. cbn [existsb fst].
    rewrite Nat.eqb_refl, orb_true_r. reflexivity. }
  split; [exact Hold|]. split; [exact Hnewlive|].
  unfold disconnect. cbn [fst snd poller daemon jsonl jsonlUnsubscribe].
  unfold ChangePoller.stop. rewrite Hi. cbn [fst snd].
  split; [reflexivity|].
  assert (Htimers2 : forall r2 : Runtime,
            timers
              (match jsonl c with
               | Some j0 => log_close j0 r2
               | None => r2
               end) = timers r2)
    by (intros r2; destruct (jsonl c); reflexivity).
  assert (Htimers3 : forall r2 : Runtime,
            timers
              (match jsonlUnsubscribe c with
               | Some j0 => jsonl_unsubscribe j0 r2
               | None => r2
               end) = timers r2)
    by (intros r2; destruct (jsonlUnsubscribe c); reflexivity).
  unfold is_live. rewrite !Htimers2. cbn [log_close timers].
  rewrite !Htimers3. cbn [clearInterval timers].
  split.
  - apply (BeadsClientFacts.clearInterval_not_live (next_timer r) r').
  - rewrite is_live_after_clear by exact Hfresh. exact Hold.
Qed.

Lemma reconnect_leaves_the_earlier_interval_witness :
  let w := snd (connect "/repo" daemonUp (fresh_runtime, new defaults)) in
  let w2 := snd (disconnect (snd (connect "/repo" daemonUp w))) in
  poller (snd w2) = None /\ is_live 0 (fst w2) = true /\
  timers (fst w2) = [(0%nat, 2000%Z)].
Proof.
  intros w w2.
  destruct (reconnect_leaves_the_earlier_interval "/repo" daemonUp w
              (ChangePoller.mkChangePoller (DaemonTransport "/repo" None None)
                 (Some 0%nat) [notifier] "[5]" [])
              0%nat pong eq_refl eq_refl eq_refl ltac:(discriminate) eq_refl)
    as (_ & _ & _ & Hnone & _ & Hlive).
  split; [exact Hnone|]. split; [exact Hlive|reflexivity].
Defined.

Lemma lookup_set_prop (key k : string) (v : json)
    (props : list (string * json)) :
  lookup_prop key (set_prop k v props) =
  if (k =? key)%string then Some v else lookup_prop key props.
Proof.
  induction props as [|[k0 v0] rest IH]; cbn [set_prop lookup_prop].
  - destruct (k =? key)%string; reflexivity.
  - destruct (String.eqb_spec k0 k) as [E0|E0]; cbn [lookup_prop].
    + subst k0. destruct (k =? key)%string; reflexivity.
    + rewrite IH.
      destruct (String.eqb_spec k0 key) as [E1|E1]; [|reflexivity].
      destruct (String.eqb_spec k key) as [E2|E2]; [congruence|reflexivity].
Qed.

(** What [{ ...props, ...more }] holds under a key: the last entry of
    [more] for it, and the entry of [props] when [more] has none. *)
Lemma lookup_spread (key : string) (props more : list (string * json)) :
  lookup_prop key (spread props more) =
  match last_binding key more with
  | Some v => Some v
  | None => lookup_prop key props
  end.
Proof.
  unfold spread. revert props.
  induction more as [|[k0 v0] rest IH]; intros props; [reflexivity|].
  cbn [fold_left fst snd last_binding]. rewrite IH.
  destruct (last_binding key rest); [reflexivity|].
  rewrite lookup_set_prop. destruct (k0 =? key)%string; reflexivity.
Qed.

(** X15.  Writes on a daemon connection.  On a client that holds a daemon
    transport and has it as its active transport, [create], [update],
    [close] and [addDependency] each make exactly one request on it, named
    create, update, close, dep_add, and complete as that request does
    (a rejection by the daemon is passed on as it is); the client itself is
    not changed.  [create] sends the input as given; [update] sends the id
    together with every field of the changes; [close] sends the id, and the
    reason only when one is given and is not empty; [addDependency] sends
    [from_id], [to_id] and [dep_type]. *)
Theorem writes_reach_the_daemon
    (op : write) (answer : completion json) (w : Runtime * t) (d : Transport)
    (Hd : daemon (snd w) = Some d) (Ht : transport (snd w) = Some d) :
  exists args,
    perform op answer w =
    (bind answer (fun _ => Returns tt),
     (log_send d (operation_of op) args (fst w), snd w)) /\
    match op with
    | Create input => args = input
    | Update id changes =>
        forall key,
          get key args =
          match last_binding key changes with
          | Some v => Some v
          | None => if ("id" =? key)%string then Some (JStr id) else None
          end
    | Close id reason =>
        get "id" args = Some (JStr id) /\
        get "reason" args =
        match reason with
        | Some s => if truthy_string s then Some (JStr s) else None
        | None => None
        end
    | AddDependency fromId toId type =>
        args = JObj [("from_id"%string, JStr fromId);
                     ("to_id"%string, JStr toId);
                     ("dep_type"%string, JStr (DepType_to_string type))]
    end.
Proof.
  destruct w as [r c]. cbn [fst snd] in *.
  destruct op as [input|id changes|id reason|fromId toId type];
    unfold perform, create, update, close, addDependency, requireDaemon, send;
    cbn [snd]; rewrite Hd, Ht; eexists; (split; [reflexivity|]).
  - reflexivity.
  - intros key. cbn [get]. rewrite lookup_spread. reflexivity.
  - destruct reason as [s|]; [|split; reflexivity].
    destruct (truthy_string s); split; reflexivity.
  - reflexivity.
Qed.

(** A client connected to the daemon closes an issue, giving an empty
    reason: one [close] request with the id alone. *)
Lemma writes_reach_the_daemon_witness :
  let w := snd (connect "/repo" daemonUp (fresh_runtime, new defaults)) in
  snd (perform (Close "bd-1" (Some EmptyString)) (Returns pong) w) =
  (log_send (DaemonTransport "/repo" None None) "close"
     (JObj [("id"%string, JStr "bd-1")]) (fst w), snd w) /\
  fst (perform (Close "bd-1" (Some EmptyString)) readOnly w) =
  Throws (mkError "JSONL transport is read-only").
Proof.
  intros w.
  destruct (writes_reach_the_daemon (Close "bd-1" (Some EmptyString))
              (Returns pong) w (DaemonTransport "/repo" None None)
              eq_refl eq_refl) as (args & Hrun & _).
  destruct (writes_reach_the_daemon (Close "bd-1" (Some EmptyString))
              readOnly w (DaemonTransport "/repo" None None)
              eq_refl eq_refl) as (args' & Hrun' & _).
  split; [reflexivity|]. rewrite Hrun'. reflexivity.
Defined.

End BeadsClientLifecycle.

(** ** More on the subprocess client *)

Module BdCliMoreFacts.
Import BdCli BdCliOptions BdCliFixtures.
Local Open Scope list_scope.

(** X16.  Failures of [bd] pass through.  When the subprocess of [list]
    rejects, [listWithParents] rejects with the same error; when [list]
    prints no issue, [listWithParents] returns the empty list and does not
    depend on [bd show] at all; when [bd show] rejects, [listWithParents]
    rejects with that error and returns no partial result.  [create]
    likewise rejects with the error of the subprocess, or with the error of
    [JSON.parse] when the output is not JSON. *)
Theorem failures_pass_through
    exec parse_issues JSON_parse options create_options (e : Error) :
  (list exec parse_issues options = Throws e ->
   listWithParents exec parse_issues options = Throws e) /\
  (list exec parse_issues options = Returns [] ->
   listWithParents exec parse_issues options = Returns []) /\
  (forall issues,
     list exec parse_issues options = Returns issues -> issues <> [] ->
     show exec parse_issues (map id issues) = Throws e ->
     listWithParents exec parse_issues options = Throws e) /\
  (exec (create_args create_options) = Throws e ->
   create exec JSON_parse create_options = Throws e) /\
  (forall result,
     exec (create_args create_options) = Returns result ->
     JSON_parse result = Throws e ->
     create exec JSON_parse create_options = Throws e).
Proof.
  split; [|split; [|split; [|split]]].
  - intros H. unfold listWithParents. rewrite H. reflexivity.
  - intros H. unfold listWithParents. rewrite H. reflexivity.
  - intros issues H Hne Hshow. unfold listWithParents. rewrite H. cbn [bind].
    destruct issues as [|i rest]; [contradiction|].
    cbn [length Nat.eqb]. rewrite Hshow. reflexivity.
  - intros H. unfold create. rewrite H. reflexivity.
  - intros result H Hparse. unfold create. rewrite H. cbn [bind].
    rewrite Hparse. reflexivity.
Qed.

(** "rejects when bd exits with non-zero code", for [listWithParents] and
    [create]; and "returns empty array for empty list" with a [bd show]
    that would fail. *)
Lemma failures_pass_through_witness :
  let failed := mkError "bd exited with code 1: database not found" in
  let onlyList args :=
    match args with
    | "list"%string :: _ => Returns "[]"%string
    | _ => Throws failed
    end in
  listWithParents (fun _ => Throws failed) (mockParse [] []) noOptions =
    Throws failed /\
  create (fun _ => Throws failed) (fun _ => Returns sampleJson) newIssue =
    Throws failed /\
  listWithParents onlyList (fun _ => Returns []) noOptions = Returns [].
Proof.
  intros failed onlyList.
  destruct (failures_pass_through (fun _ => Throws failed) (mockParse [] [])
              (fun _ => Returns sampleJson) noOptions newIssue failed)
    as (Hlist & _ & _ & Hcreate & _).
  destruct (failures_pass_through onlyList (fun _ => Returns [])
              (fun _ => Returns sampleJson) noOptions newIssue failed)
    as (_ & Hempty & _).
  split; [exact (Hlist eq_refl)|].
  split; [exact (Hcreate eq_refl)|exact (Hempty eq_refl)].
Defined.

Lemma enrich_same_listing detailsMap (issue : BdIssue) :
  same_listing (enrich detailsMap issue) issue.
Proof.
  unfold enrich, same_listing.
  destruct (lookup (id issue) detailsMap) as [details|]; [|repeat split].
  destruct (truthy_field (parent details));
    (destruct (dependencies details) as [deps|]; [|repeat split]);
    (destruct (0 <? length (List.filter is_blocker deps))%nat;
       [|repeat split]);
    cbn [set_parent set_dependencies set_blocked_by set_blocked_by_count
           status];
    match goal with
    | |- context [IssueStatus_eqb ?s open] => destruct (IssueStatus_eqb s open)
    end; repeat split.
Qed.

(** X17.  [listWithParents] keeps the listing.  It returns one issue for each
    issue [bd list] printed, in the same order and with the same id; of an
    issue it may set [parent], [dependencies], [blocked_by],
    [blocked_by_count] and [status] and leaves every other field as
    listed. *)
Theorem listWithParents_keeps_the_listing
    exec parse_issues options (issues returned : Datatypes.list BdIssue)
    (Hlist : list exec parse_issues options = Returns issues)
    (Hrun : listWithParents exec parse_issues options = Returns returned) :
  Forall2 same_listing returned issues /\
  map id returned = map id issues /\
  length returned = length issues.
Proof.
  assert (Hmap : forall (f : BdIssue -> BdIssue) l,
            (forall x, same_listing (f x) x) ->
            Forall2 same_listing (map f l) l).
  { intros f l Hf. induction l as [|x l IH]; cbn [map].
    - constructor.
    - constructor; [apply Hf|exact IH]. }
  assert (H : Forall2 same_listing returned issues).
  { unfold listWithParents in Hrun. rewrite Hlist in Hrun. cbn [bind] in Hrun.
    destruct (length issues =? 0)%nat.
    - injection Hrun as <-. rewrite <- (map_id issues) at 1.
      apply Hmap. intros x. repeat split.
    - destruct (show exec parse_issues (map id issues)) as [detailed|err];
        [|discriminate].
      cbn [bind] in Hrun. injection Hrun as <-.
      apply Hmap, enrich_same_listing. }
  split; [exact H|]. clear Hlist Hrun Hmap.
  induction H as [|o i out ins Hsame _ IH]; [split; reflexivity|].
  destruct IH as [Hids Hlen]. cbn [map length].
  destruct Hsame as [Hid _]. rewrite Hid, Hids, Hlen. split; reflexivity.
Qed.

(** "enriches issues with parent and dependency info": the title and the
    id of the listed issue are those of the issue returned. *)
Lemma listWithParents_keeps_the_listing_witness :
  let detailed := [set_parent (Some "beads-000"%string)
                     (set_dependencies (Some [openBlocker]) sampleIssue)] in
  exists returned,
    listWithParents mockExec (mockParse [sampleIssue] detailed) noOptions =
      Returns [returned] /\
    id returned = "beads-001"%string /\
    title returned = "Test issue"%string /\
    parent returned = Some "beads-000"%string /\
    status returned = blocked.
Proof.
  intros detailed. eexists. split; [reflexivity|].
  destruct (listWithParents_keeps_the_listing mockExec
              (mockParse [sampleIssue] detailed) noOptions [sampleIssue]
              _ eq_refl eq_refl) as (Hsame & _).
  inversion Hsame as [|? ? ? ? (Hid & Htitle & _) _]; subst.
  split; [exact Hid|]. split; [exact Htitle|]. split; reflexivity.
Defined.

Lemma enrich_status detailsMap (issue : BdIssue) :
  status (enrich detailsMap issue) =
  match lookup (id issue) detailsMap with
  | Some details =>
      match dependencies details with
      | Some deps =>
          if existsb is_blocker deps && IssueStatus_eqb (status issue) open
          then blocked else status issue
      | None => status issue
      end
  | None => status issue
  end.
Proof.
  unfold enrich.
  destruct (lookup (id issue) detailsMap) as [details|]; [|reflexivity].
  assert (Hany : forall deps,
            (0 <? length (List.filter is_blocker deps))%nat =
            existsb is_blocker deps).
  { induction deps as [|d deps IH]; [reflexivity|].
    cbn [List.filter existsb]. destruct (is_blocker d); [reflexivity|].
    exact IH. }
  destruct (dependencies details) as [deps|].
  - rewrite Hany. destruct (existsb is_blocker deps); cbn [andb];
      destruct (truthy_field (parent details));
      cbn [set_parent set_dependencies set_blocked_by set_blocked_by_count
             status]; try reflexivity;
      destruct (IssueStatus_eqb (status issue) open); reflexivity.
  - destruct (truthy_field (parent details)); reflexivity.
Qed.

(** X18.  Only an open issue is turned into a blocked one.  The status of the
    issue returned is the listed status, except that an issue listed as
    open is returned as blocked exactly when its details list a dependency
    of type "blocks" that is not closed.  An issue that is in progress,
    deferred, closed or already blocked keeps its status whatever its
    dependencies are. *)
Theorem only_open_issues_become_blocked detailsMap (issue : BdIssue) :
  let enriched := enrich detailsMap issue in
  (status issue <> open -> status enriched = status issue) /\
  (status issue = open ->
   (status enriched = open \/ status enriched = blocked) /\
   (status enriched = blocked <->
    exists details deps dep,
      lookup (id issue) detailsMap = Some details /\
      dependencies details = Some deps /\ In dep deps /\
      dependency_type dep = Some "blocks"%string /\ status dep <> closed)).
Proof.
  intros enriched. subst enriched. rewrite enrich_status.
  split.
  - intros Hne.
    destruct (lookup (id issue) detailsMap) as [details|]; [|reflexivity].
    destruct (dependencies details) as [deps|]; [|reflexivity].
    destruct (IssueStatus_eqb (status issue) open) eqn:E.
    + apply BdCliFacts.IssueStatus_eqb_eq in E. contradiction.
    + rewrite andb_false_r. reflexivity.
  - intros Hopen. rewrite Hopen. cbn [IssueStatus_eqb].
    destruct (lookup (id issue) detailsMap) as [details|].
    2:{ split; [left; reflexivity|]. split; [discriminate|].
        intros (? & ? & ? & H & _). discriminate H. }
    destruct (dependencies details) as [deps|] eqn:Ed.
    2:{ split; [left; reflexivity|]. split; [discriminate|].
        intros (d' & ? & ? & [= <-] & H & _). congruence. }
    rewrite andb_true_r.
    destruct (existsb is_blocker deps) eqn:E.
    + split; [right; reflexivity|]. split; [|reflexivity]. intros _.
      apply existsb_exists in E as (dep & Hin & Hb).
      apply BdCliFacts.is_blocker_spec in Hb as [Ht Hs].
      exists details, deps, dep. repeat split; assumption.
    + split; [left; reflexivity|]. split; [discriminate|].
      intros (d' & deps' & dep & [= <-] & Hdeps & Hin & Ht & Hs).
      assert (deps' = deps) by congruence. subst deps'.
      assert (Hb : is_blocker dep = true)
        by (apply BdCliFacts.is_blocker_spec; split; assumption).
      assert (existsb is_blocker deps = true)
        by (apply existsb_exists; exists dep; split; assumption).
      congruence.
Qed.

(** "does not mark non-open issues as blocked". *)
Lemma only_open_issues_become_blocked_witness :
  let inProgress := set_status in_progress sampleIssue in
  let details := set_dependencies (Some [openBlocker]) inProgress in
  status (enrich (build_detailsMap [details]) inProgress) = in_progress /\
  blocked_by_count (enrich (build_detailsMap [details]) inProgress) =
    Some 1%Z /\
  status (enrich (build_detailsMap
                    [set_dependencies (Some [openBlocker]) sampleIssue])
            sampleIssue) = blocked.
Proof.
  intros inProgress details.
  destruct (only_open_issues_become_blocked (build_detailsMap [details])
              inProgress) as [Hkeep _].
  destruct (only_open_issues_become_blocked
              (build_detailsMap
                 [set_dependencies (Some [openBlocker]) sampleIssue])
              sampleIssue) as [_ Hopen].
  split; [exact (Hkeep ltac:(discriminate))|]. split; [reflexivity|].
  destruct (Hopen eq_refl) as [_ Hiff]. apply Hiff.
  exists (set_dependencies (Some [openBlocker]) sampleIssue), [openBlocker],
    openBlocker.
  repeat split; try reflexivity.
  - left. reflexivity.
  - discriminate.
Defined.

Lemma find_app_first {A : Type} (f : A -> bool) (l1 l2 : Datatypes.list A) :
  find f (l1 ++ l2) =
  match find f l1 with
  | Some x => Some x
  | None => find f l2
  end.
Proof.
  induction l1 as [|a l1 IH]; [reflexivity|].
  cbn [app find]. destruct (f a); [reflexivity|exact IH].
Qed.

Lemma detailsMap_lookup (key : string) (detailed : Datatypes.list BdIssue)
    (m : gmap string BdIssue) :
  lookup key
    (fold_left (fun m issue => insert (id issue) issue m) detailed m) =
  match last_shown key detailed with
  | Some issue => Some issue
  | None => lookup key m
  end.
Proof.
  unfold last_shown. revert m.
  induction detailed as [|a rest IH]; intros m; [reflexivity|].
  cbn [fold_left rev]. rewrite IH, find_app_first.
  destruct (find _ (rev rest)); [reflexivity|].
  cbn [find]. destruct (String.eqb_spec (id a) key) as [E|E].
  - rewrite <- E. apply lookup_insert_eq.
  - apply lookup_insert_ne. exact E.
Qed.

(** X19.  Details are matched to issues by id.  The details used for an issue
    are the last ones [bd show] printed with its id (a later entry with the
    same id replaces an earlier one), and they do carry that id; an issue
    whose id [bd show] did not print is returned exactly as listed. *)
Theorem details_are_matched_by_id
    (detailed : Datatypes.list BdIssue) (issue : BdIssue) :
  lookup (id issue) (build_detailsMap detailed) =
    last_shown (id issue) detailed /\
  (forall details,
     lookup (id issue) (build_detailsMap detailed) = Some details ->
     In details detailed /\ id details = id issue) /\
  ((forall details, In details detailed -> id details <> id issue) ->
   enrich (build_detailsMap detailed) issue = issue).
Proof.
  assert (Hlookup : lookup (id issue) (build_detailsMap detailed) =
                    last_shown (id issue) detailed).
  { unfold build_detailsMap. rewrite detailsMap_lookup.
    destruct (last_shown (id issue) detailed); [reflexivity|].
    apply lookup_empty. }
  split; [exact Hlookup|]. split.
  - intros details Hd. rewrite Hlookup in Hd. unfold last_shown in Hd.
    apply find_some in Hd as [Hin Heq].
    split; [apply in_rev, Hin|apply String.eqb_eq, Heq].
  - intros Hnone. unfold enrich. rewrite Hlookup.
    destruct (last_shown (id issue) detailed) as [details|] eqn:E;
      [|reflexivity].
    unfold last_shown in E. apply find_some in E as [Hin Heq].
    apply String.eqb_eq in Heq. apply in_rev in Hin.
    exfalso. exact (Hnone details Hin Heq).
Qed.

(** [bd show] prints the issue twice, first with an open blocker and then
    with the blocker closed: the later entry counts.  An issue it does not
    print comes back as listed. *)
Lemma details_are_matched_by_id_witness :
  let earlier := set_dependencies (Some [openBlocker]) sampleIssue in
  let later := set_dependencies (Some [closedBlocker]) sampleIssue in
  lookup "beads-001"%string (build_detailsMap [earlier; later]) = Some later /\
  enrich (build_detailsMap [closedBlocker]) sampleIssue = sampleIssue.
Proof.
  intros earlier later.
  destruct (details_are_matched_by_id [earlier; later] sampleIssue)
    as (Hlast & _).
  destruct (details_are_matched_by_id [closedBlocker] sampleIssue)
    as (_ & _ & Hmissing).
  split; [exact Hlast|].
  apply Hmissing. intros details [<-|[]]. discriminate.
Defined.

(** X20.  Enriching is idempotent.  Enriching an issue that was already
    enriched from the same details changes nothing more: in particular an
    issue turned from open to blocked stays blocked and its blockers are
    not counted twice. *)
Theorem enrich_is_idempotent detailsMap (issue : BdIssue) :
  enrich detailsMap (enrich detailsMap issue) = enrich detailsMap issue.
Proof.
  destruct issue as [i t de st pr ty a o ca cb ua cl pa la dc dtc dps dts bb
                       bc dty].
  unfold enrich. cbn [id].
  destruct (lookup i detailsMap) as [details|] eqn:E.
  2:{ cbn [id]. rewrite E. reflexivity. }
  destruct (truthy_field (parent details)) eqn:Ep;
    destruct (dependencies details) as [deps|] eqn:Ed;
    cbn [set_parent set_dependencies id]; rewrite ?E, ?Ep, ?Ed;
    try reflexivity;
    destruct (0 <? length (List.filter is_blocker deps))%nat eqn:Eb;
    cbn [set_parent set_dependencies set_blocked_by set_blocked_by_count
           set_status status id parent dependencies];
    rewrite ?E, ?Ep, ?Ed, ?Eb; try reflexivity;
    destruct st;
    cbn [IssueStatus_eqb set_parent set_dependencies set_blocked_by
           set_blocked_by_count set_status status id parent dependencies];
    rewrite ?E, ?Ep, ?Ed, ?Eb; reflexivity.
Qed.

Lemma push_string_nonempty (flag : string) (s : option string)
    (args : Datatypes.list string) :
  push_string flag (nonempty s) args = push_string flag s args.
Proof.
  destruct s as [s|]; [|reflexivity].
  unfold nonempty, truthy_field, push_string.
  destruct (truthy_string s) eqn:E; [rewrite E|]; reflexivity.
Qed.

Lemma push_flag_raised (flag : string) (b : option bool)
    (args : Datatypes.list string) :
  push_flag flag (raised b) args = push_flag flag b args.
Proof. destruct b as [[|]|]; reflexivity. Qed.

Lemma push_string_extends (flag : string) (s : option string)
    (args : Datatypes.list string) :
  exists more, push_string flag s args = args ++ more.
Proof.
  unfold push_string. destruct s as [s|]; [|exists []; symmetry; apply app_nil_r].
  destruct (truthy_string s); [eexists; reflexivity|].
  exists []. symmetry. apply app_nil_r.
Qed.

(** X21.  An option left empty is an option not given.  For [create] and
    [list], an empty string for the description, type, assignee or parent,
    an empty label list, and a [ready] or [all] of false give exactly the
    command line that leaving the option out gives.  A priority that is
    given is always passed on as [--priority] followed by the number, zero
    included. *)
Theorem empty_options_are_not_given
    exec parse_issues (o : BdCreateOptions) (lo : BdListOptions) :
  create_args o = create_args (create_given o) /\
  list exec parse_issues lo = list exec parse_issues (list_given lo) /\
  (forall n,
     co_priority o = Some n ->
     exists before after,
       create_args o =
       before ++ ["--priority"%string; String_of_number n] ++ after) /\
  String_of_number 0 = "0"%string.
Proof.
  split; [|split; [|split]].
  - unfold create_args, create_given.
    cbn [co_title co_description co_priority co_type co_assignee co_parent
           co_labels].
    rewrite !push_string_nonempty.
    destruct (co_labels o) as [[|l ls]|]; reflexivity.
  - unfold list, list_given.
    cbn [lo_limit lo_status lo_priority lo_type lo_assignee lo_parent
           lo_ready lo_all].
    rewrite !push_string_nonempty, !push_flag_raised. reflexivity.
  - intros n Hn. unfold create_args. rewrite Hn. cbn [push_number].
    set (base := push_string "--description" (co_description o)
                   ["create"%string; "--json"%string; co_title o]).
    destruct (push_string_extends "--type" (co_type o)
                (base ++ ["--priority"%string; String_of_number n]))
      as [m1 H1].
    rewrite H1.
    destruct (push_string_extends "--assignee" (co_assignee o)
                ((base ++ ["--priority"%string; String_of_number n]) ++ m1))
      as [m2 H2].
    rewrite H2.
    destruct (push_string_extends "--parent" (co_parent o)
                (((base ++ ["--priority"%string; String_of_number n]) ++ m1)
                 ++ m2)) as [m3 H3].
    rewrite H3.
    destruct (co_labels o) as [[|l ls]|].
    + exists base, (m1 ++ m2 ++ m3). rewrite <- !app_assoc. reflexivity.
    + exists base, (m1 ++ m2 ++ m3 ++ ["--labels"%string; join "," (l :: ls)]).
      rewrite <- !app_assoc. reflexivity.
    + exists base, (m1 ++ m2 ++ m3). rewrite <- !app_assoc. reflexivity.
  - reflexivity.
Qed.

(** A P0 bug with an empty assignee and no labels: the priority is passed,
    the assignee is not. *)
Lemma empty_options_are_not_given_witness :
  let o := mkBdCreateOptions "Crash" None (Some 0%Z) (Some "bug"%string)
             (Some EmptyString) None (Some []) in
  create_args o =
    ["create"; "--json"; "Crash"; "--priority"; "0"; "--type"; "bug"]%string /\
  exists before after,
    create_args o = before ++ ["--priority"%string; "0"%string] ++ after.
Proof.
  intros o.
  destruct (empty_options_are_not_given mockExec (mockParse [] []) o noOptions)
    as (Hsame & _ & Hpriority & _).
  split; [rewrite Hsame; reflexivity|].
  exact (Hpriority 0%Z eq_refl).
Defined.

End BdCliMoreFacts.

(** ** [JSON.stringify] *)

Module JSONFacts.

Lemma append_nonempty (a b : string) : a <> EmptyString -> a ++ b <> EmptyString.
Proof. destruct a; [congruence|discriminate]. Qed.

Lemma uint_numeral_nonempty (d : Decimal.uint) :
  d <> Decimal.Nil -> NilEmpty.string_of_uint d <> EmptyString.
Proof. destruct d; [congruence|discriminate..]. Qed.

Lemma String_of_number_nonempty (n : Z) : String_of_number n <> EmptyString.
Proof.
  unfold String_of_number, NilZero.string_of_int.
  destruct (Z.to_int n) as [d|d].
  - unfold NilZero.string_of_uint. destruct d; discriminate.
  - discriminate.
Qed.

(** The fingerprint of a JSON value is never the empty string. *)
Lemma JSON_stringify_nonempty (v : json) : JSON_stringify v <> EmptyString.
Proof.
  destruct v as [|[|]|n|s|items|props]; cbn [JSON_stringify];
    try discriminate.
  apply String_of_number_nonempty.
Qed.

Lemma JSON_stringify_truthy (v : json) :
  truthy_string (JSON_stringify v) = true.
Proof.
  unfold truthy_string. apply negb_true_iff, String.eqb_neq,
    JSON_stringify_nonempty.
Qed.

End JSONFacts.

(** ** Callback arrays, whatever the callbacks do *)

Module CallbacksFacts.
Import Callbacks.
Local Open Scope list_scope.

Section Array.
Context {A : Type}.
Implicit Types (l : list (callback A)) (cb : callback A).

Lemma splice_cons_eq (t : nat) cb l :
  ref cb = t -> unsubscribe t (cb :: l) = l.
Proof.
  intros H. unfold unsubscribe. cbn [indexOf].
  apply Nat.eqb_eq in H. rewrite H. reflexivity.
Qed.

Lemma splice_cons_ne (t : nat) cb l :
  ref cb <> t -> unsubscribe t (cb :: l) = cb :: unsubscribe t l.
Proof.
  intros H. unfold unsubscribe. cbn [indexOf].
  apply Nat.eqb_neq in H. rewrite H.
  destruct (indexOf t l); reflexivity.
Qed.

Lemma splice_length (t : nat) l : length (unsubscribe t l) <= length l.
Proof.
  induction l as [|x l IH]; [reflexivity|].
  destruct (Nat.eq_dec (ref x) t) as [E|E].
  - rewrite splice_cons_eq by exact E. cbn [length]. lia.
  - rewrite splice_cons_ne by exact E. cbn [length]. lia.
Qed.

Lemma splice_incl (t : nat) l cb : In cb (unsubscribe t l) -> In cb l.
Proof.
  induction l as [|x l IH]; [intros []|].
  destruct (Nat.eq_dec (ref x) t) as [E|E].
  - rewrite splice_cons_eq by exact E. intros H. right. exact H.
  - rewrite splice_cons_ne by exact E.
    intros [H|H]; [left|right; apply IH]; exact H.
Qed.


Lemma splice_refs (t x : nat) l :
  In x (map ref (unsubscribe t l)) -> In x (map ref l).
Proof.
  intros H. apply in_map_iff in H as (cb & <- & H).
  apply in_map, (splice_incl t), H.
Qed.

End Array.

End CallbacksFacts.

(** ** The change poller with callbacks that throw or call back *)

Module ReentrantPollerFacts.
Import Callbacks ReentrantPoller ReentrantPollerInvariants ReentrantFixtures.
Local Open Scope list_scope.

Lemma stop_keeps (w : Runtime * t) :
  lastHash (snd (stop w)) = lastHash (snd w) /\
  inflight (snd (stop w)) = inflight (snd w) /\
  calls (snd (stop w)) = calls (snd w) /\
  transport (snd (stop w)) = transport (snd w) /\
  callbacks (snd (stop w)) = callbacks (snd w).
Proof.
  destruct w as [r p]. unfold stop.
  destruct (intervalId p); repeat split; reflexivity.
Qed.

(** What the steps of a callback leave alone and what they may do: the
    baseline, the requests that wait and the calls recorded stay; the
    subscribers may only get fewer. *)
Lemma run_keeps (actions : list action) (w : Runtime * t) :
  let w' := snd (run actions w) in
  lastHash (snd w') = lastHash (snd w) /\
  inflight (snd w') = inflight (snd w) /\
  calls (snd w') = calls (snd w) /\
  transport (snd w') = transport (snd w) /\
  length (callbacks (snd w')) <= length (callbacks (snd w)) /\
  (forall cb, In cb (callbacks (snd w')) -> In cb (callbacks (snd w))).
Proof.
  revert w. induction actions as [|a rest IH]; intros [r p].
  - cbn. repeat split; auto.
  - destruct a as [target| |e]; cbn [run].
    + specialize (IH (r, unsubscribe target p)). cbn zeta in *.
      destruct IH as (H1 & H2 & H3 & H4 & H5 & H6).
      cbn [fst snd] in *.
      rewrite H1, H2, H3, H4. repeat split; try reflexivity.
      * etransitivity; [exact H5|]. apply CallbacksFacts.splice_length.
      * intros cb Hcb. apply (CallbacksFacts.splice_incl target), H6, Hcb.
    + specialize (IH (stop (r, p))). cbn zeta in *.
      destruct IH as (H1 & H2 & H3 & H4 & H5 & H6).
      destruct (stop_keeps (r, p)) as (S1 & S2 & S3 & S4 & S5).
      rewrite S5 in H5, H6.
      rewrite H1, H2, H3, H4, S1, S2, S3, S4. repeat split; auto.
    + cbn. repeat split; auto.
Qed.

Lemma call_keeps (cb : callback) (w : Runtime * t) :
  let w' := snd (call cb w) in
  lastHash (snd w') = lastHash (snd w) /\
  inflight (snd w') = inflight (snd w) /\
  calls (snd w') = calls (snd w) ++ [ref cb] /\
  transport (snd w') = transport (snd w) /\
  length (callbacks (snd w')) <= length (callbacks (snd w)) /\
  (forall c, In c (callbacks (snd w')) -> In c (callbacks (snd w))).
Proof.
  unfold call.
  pose proof (run_keeps (body cb)
                (fst w, set_calls (calls (snd w) ++ [ref cb]) (snd w))) as H.
  cbn zeta in *. cbn [fst snd set_calls lastHash inflight calls transport
                        callbacks] in H.
  exact H.
Qed.




(** The fuel [fire] gives is enough: more of it changes nothing, so a
    round ends because a callback threw or the index ran off the array. *)
Lemma poller_forOf_fuel (fuel fuel' i : nat) (w : Runtime * t) :
  length (callbacks (snd w)) <= fuel + i -> fuel <= fuel' ->
  forOf fuel i w = forOf fuel' i w.
Proof.
  revert fuel' i w.
  induction fuel as [|fuel IH]; intros fuel' i w Hlen Hle.
  - destruct fuel' as [|fuel']; [reflexivity|].
    cbn [forOf]. rewrite lookup_ge_None_2 by lia. reflexivity.
  - destruct fuel' as [|fuel']; [lia|].
    cbn [forOf]. destruct (callbacks (snd w) !! i) as [cb|]; [|reflexivity].
    destruct (call_keeps cb w) as (_ & _ & _ & _ & Hshort & _).
    destruct (call cb w) as [[[]|e] w1]; [|reflexivity].
    apply IH; [|lia]. cbn [snd] in Hshort. lia.
Qed.






Lemma request_keeps (w : Runtime * t) :
  lastHash (snd (request w)) = lastHash (snd w) /\
  callbacks (snd (request w)) = callbacks (snd w) /\
  calls (snd (request w)) = calls (snd w) /\
  inflight (snd (request w)) = S (inflight (snd w)).
Proof. destruct w as [r p]. repeat split; reflexivity. Qed.















End ReentrantPollerFacts.

(** ** The poller of the first sections is a special case *)

Module EmbeddingFacts.
Import Embedding.
Local Open Scope list_scope.

Lemma indexOf_plain (target : nat) (l : list Subscribers.callback) :
  Callbacks.indexOf target (map poller_callback l) =
  Subscribers.indexOf target l.
Proof.
  induction l as [|cb l IH]; [reflexivity|].
  cbn [map Callbacks.indexOf Subscribers.indexOf poller_callback
         Callbacks.ref].
  destruct (Subscribers.ref cb =? target)%nat; [reflexivity|].
  rewrite IH. reflexivity.
Qed.

Lemma unsubscribe_plain (target : nat) (l : list Subscribers.callback) :
  Callbacks.unsubscribe target (map poller_callback l) =
  map poller_callback (Subscribers.unsubscribe target l).
Proof.
  unfold Callbacks.unsubscribe, Subscribers.unsubscribe.
  rewrite indexOf_plain.
  destruct (Subscribers.indexOf target l) as [idx|]; [|reflexivity].
  symmetry. apply (list_fmap_delete poller_callback).
Qed.

Lemma run_plain (effects : list Subscribers.effect) (r : Runtime)
    (n : nat) (p : ChangePoller.t) :
  ReentrantPoller.run (map poller_action effects) (r, poller n p) =
  (Returns tt,
   (r, poller n
         (ChangePoller.mkChangePoller (ChangePoller.transport p)
            (ChangePoller.intervalId p)
            (Subscribers.run effects (ChangePoller.callbacks p))
            (ChangePoller.lastHash p) (ChangePoller.calls p)))).
Proof.
  revert p. induction effects as [|[target] rest IH]; intros p.
  - destruct p; reflexivity.
  - cbn [map poller_action ReentrantPoller.run Subscribers.run fst snd].
    specialize (IH (ChangePoller.mkChangePoller (ChangePoller.transport p)
                      (ChangePoller.intervalId p)
                      (Subscribers.unsubscribe target (ChangePoller.callbacks p))
                      (ChangePoller.lastHash p) (ChangePoller.calls p))).
    cbn [ChangePoller.transport ChangePoller.intervalId ChangePoller.callbacks
           ChangePoller.lastHash ChangePoller.calls] in IH.
    rewrite <- IH. f_equal. f_equal.
    unfold ReentrantPoller.unsubscribe, ReentrantPoller.set_callbacks, poller.
    cbn [ReentrantPoller.callbacks ReentrantPoller.transport
           ReentrantPoller.intervalId ReentrantPoller.lastHash
           ReentrantPoller.inflight ReentrantPoller.calls
           ChangePoller.transport ChangePoller.intervalId
           ChangePoller.callbacks ChangePoller.lastHash ChangePoller.calls].
    rewrite unsubscribe_plain. reflexivity.
Qed.

(** A round of the first sections is a round here. *)
Lemma forOf_plain (fuel i : nat) (r : Runtime) (n : nat) (p : ChangePoller.t) :
  ReentrantPoller.forOf fuel i (r, poller n p) =
  (Returns tt,
   (r, poller n
         (ChangePoller.mkChangePoller (ChangePoller.transport p)
            (ChangePoller.intervalId p)
            (fst (Subscribers.forOf fuel i (ChangePoller.callbacks p)
                    (ChangePoller.calls p)))
            (ChangePoller.lastHash p)
            (snd (Subscribers.forOf fuel i (ChangePoller.callbacks p)
                    (ChangePoller.calls p)))))).
Proof.
  revert i p. induction fuel as [|fuel IH]; intros i p.
  - destruct p; reflexivity.
  - cbn [ReentrantPoller.forOf Subscribers.forOf snd poller
           ReentrantPoller.callbacks].
    rewrite (list_lookup_fmap poller_callback).
    destruct (ChangePoller.callbacks p !! i) as [cb|] eqn:E;
      cbn [fmap option_fmap option_map]; [|destruct p; reflexivity].
    unfold ReentrantPoller.call.
    cbn [Callbacks.body Callbacks.ref poller_callback fst snd].
    pose proof (run_plain (Subscribers.body cb) r n
                  (ChangePoller.mkChangePoller (ChangePoller.transport p)
                     (ChangePoller.intervalId p) (ChangePoller.callbacks p)
                     (ChangePoller.lastHash p)
                     (ChangePoller.calls p ++ [Subscribers.ref cb]))) as Hrun.
    cbn [ChangePoller.transport ChangePoller.intervalId ChangePoller.callbacks
           ChangePoller.lastHash ChangePoller.calls] in Hrun.
    change (ReentrantPoller.set_calls
              (ReentrantPoller.calls (poller n p) ++ [Subscribers.ref cb])
              (poller n p))
      with (poller n
              (ChangePoller.mkChangePoller (ChangePoller.transport p)
                 (ChangePoller.intervalId p) (ChangePoller.callbacks p)
                 (ChangePoller.lastHash p)
                 (ChangePoller.calls p ++ [Subscribers.ref cb]))).
    rewrite Hrun. rewrite IH. reflexivity.
Qed.

Lemma changed_plain (hash : string) (n : nat) (p : ChangePoller.t) :
  ReentrantPoller.changed hash (poller n p) = ChangePoller.changed hash p.
Proof. reflexivity. Qed.

(** The poller of the first sections is the poller here with callbacks that
    only unsubscribe and with every request answered at once: [poll],
    [start] and the timer coming due agree, and so do [stop], [onChange]
    and the unsubscribe functions. *)
Theorem plain_poller_agrees (answer : completion json) (r : Runtime)
    (p : ChangePoller.t) :
  let text := stats_text answer in
  let embed (w : Runtime * ChangePoller.t) := (fst w, poller 0 (snd w)) in
  (forall n,
     ReentrantPoller.poll answer (r, poller n p) =
     (fst (ChangePoller.poll text (r, p)),
      poller n (snd (ChangePoller.poll text (r, p))))) /\
  (forall intervalMs,
     ReentrantPoller.reply answer
       (ReentrantPoller.start intervalMs (embed (r, p))) =
     embed (ChangePoller.start intervalMs text (r, p))) /\
  ReentrantPoller.reply answer (ReentrantPoller.tick (embed (r, p))) =
    embed (ChangePoller.tick text (r, p)) /\
  ReentrantPoller.stop (embed (r, p)) = embed (ChangePoller.stop (r, p)) /\
  (forall cb,
     ReentrantPoller.onChange (poller_callback cb) (poller 0 p) =
     poller 0 (ChangePoller.onChange cb p)) /\
  (forall target,
     ReentrantPoller.unsubscribe target (poller 0 p) =
     poller 0 (ChangePoller.unsubscribe target p)).
Proof.
  intros text embed.
  assert (Hpoll : forall n r p,
            ReentrantPoller.poll answer (r, poller n p) =
            (fst (ChangePoller.poll text (r, p)),
             poller n (snd (ChangePoller.poll text (r, p))))).
  { clear r p. intros n r p. subst text.
    unfold ReentrantPoller.poll, ReentrantPoller.request,
      ReentrantPoller.resume, ChangePoller.poll.
    cbn [ReentrantPoller.transport ReentrantPoller.inflight poller pred].
    change (ReentrantPoller.set_inflight
              (pred (ReentrantPoller.inflight
                       (ReentrantPoller.set_inflight (S n) (poller n p))))
              (ReentrantPoller.set_inflight (S n) (poller n p)))
      with (poller n p).
    destruct answer as [stats|e]; cbn [stats_text fst snd]; [|reflexivity].
    rewrite changed_plain.
    destruct (ChangePoller.changed (JSON_stringify stats) p);
      [|reflexivity].
    unfold ReentrantPoller.fire.
    replace (length (ReentrantPoller.callbacks
                       (snd (log_send (ChangePoller.transport p) "stats"
                               (JObj []) r, poller n p))))
      with (length (ChangePoller.callbacks p))
      by (cbn [snd poller ReentrantPoller.callbacks]; rewrite length_map;
          reflexivity).
    rewrite forOf_plain.
    unfold ChangePoller.fire, Subscribers.notify.
    destruct (Subscribers.forOf _ _ _ _) as [cbs' calls']. reflexivity. }
  split; [intros n; apply Hpoll|].
  split; [|split; [|split; [|split]]].
  - intros ms. subst embed. cbn [fst snd].
    unfold ReentrantPoller.start, ChangePoller.start.
    cbn [poller ReentrantPoller.intervalId].
    destruct (ChangePoller.intervalId p) as [handle|] eqn:E.
    + unfold ReentrantPoller.reply. cbn [snd ReentrantPoller.inflight Nat.ltb Nat.leb].
      reflexivity.
    + cbn [setInterval].
      set (r1 := mkRuntime _ _ _ _ _ _).
      set (p1 := ChangePoller.mkChangePoller _ _ _ _ _).
      change (ReentrantPoller.set_intervalId (Some (next_timer r)) (poller 0 p))
        with (poller 0 p1).
      unfold ReentrantPoller.reply.
      change (ReentrantPoller.resume answer
                (ReentrantPoller.request (r1, poller 0 p1)))
        with (ReentrantPoller.poll answer (r1, poller 0 p1)).
      cbn [ReentrantPoller.request snd ReentrantPoller.inflight
             ReentrantPoller.set_inflight Nat.ltb Nat.leb].
      apply Hpoll.
  - subst embed. cbn [fst snd].
    unfold ReentrantPoller.tick, ChangePoller.tick.
    cbn [poller ReentrantPoller.intervalId].
    destruct (ChangePoller.intervalId p) as [handle|] eqn:E.
    + destruct (is_live handle r).
      * unfold ReentrantPoller.reply.
        change (ReentrantPoller.resume answer
                  (ReentrantPoller.request (r, poller 0 p)))
          with (ReentrantPoller.poll answer (r, poller 0 p)).
        cbn [ReentrantPoller.request snd ReentrantPoller.inflight
               ReentrantPoller.set_inflight Nat.ltb Nat.leb].
        apply Hpoll.
      * reflexivity.
    + reflexivity.
  - subst embed. cbn [fst snd].
    unfold ReentrantPoller.stop, ChangePoller.stop.
    cbn [poller ReentrantPoller.intervalId].
    destruct (ChangePoller.intervalId p); reflexivity.
  - intros cb. unfold ReentrantPoller.onChange, ChangePoller.onChange,
      Subscribers.push, poller, ReentrantPoller.set_callbacks.
    cbn [ReentrantPoller.callbacks ReentrantPoller.transport
           ReentrantPoller.intervalId ReentrantPoller.lastHash
           ReentrantPoller.inflight ReentrantPoller.calls
           ChangePoller.transport ChangePoller.intervalId
           ChangePoller.callbacks ChangePoller.lastHash ChangePoller.calls].
    rewrite map_app. reflexivity.
  - intros target. unfold ReentrantPoller.unsubscribe,
      ChangePoller.unsubscribe, poller, ReentrantPoller.set_callbacks.
    cbn [ReentrantPoller.callbacks ReentrantPoller.transport
           ReentrantPoller.intervalId ReentrantPoller.lastHash
           ReentrantPoller.inflight ReentrantPoller.calls
           ChangePoller.transport ChangePoller.intervalId
           ChangePoller.callbacks ChangePoller.lastHash ChangePoller.calls].
    rewrite unsubscribe_plain. reflexivity.
Qed.

End EmbeddingFacts.

(** ** The orchestrating client with callbacks that throw or call back *)

Module ReentrantClientFacts.
Import Callbacks ReentrantClient ReentrantClientInvariants.
Local Open Scope list_scope.

Lemma shrinks_refl (w : world) : shrinks w w.
Proof. repeat split; auto. Qed.

Lemma shrinks_trans (w1 w2 w3 : world) :
  shrinks w1 w2 -> shrinks w2 w3 -> shrinks w1 w3.
Proof.
  intros (A1 & B1 & C1 & D1) (A2 & B2 & C2 & D2). repeat split.
  - intros a cb H. apply A1, A2, H.
  - intros a. etransitivity; [apply B2|apply B1].
  - intros cb H. apply C1, C2, H.
  - intros H. apply D2, D1, H.
Qed.

Lemma array_set_array (a b : nat) (l : list callback) (w : world) :
  array a (set_array b l w) =
  if decide (b = a /\ b < length (arrays w)) then l else array a w.
Proof.
  unfold array, set_array. cbn [arrays].
  rewrite list_lookup_insert. destruct (decide _); reflexivity.
Qed.

(** Unsubscribing takes a callback out of the array the client holds, and
    touches nothing else. *)
Lemma unsubscribe_shrinks (target : nat) (w : world) :
  shrinks w (unsubscribe target w) /\
  log (unsubscribe target w) = log w /\
  client (unsubscribe target w) = client w /\
  runtime (unsubscribe target w) = runtime w.
Proof.
  split; [|repeat split; reflexivity].
  assert (Harr : forall a,
            array a (unsubscribe target w) = array a w \/
            array a (unsubscribe target w) =
              Callbacks.unsubscribe target (array a w)).
  { intros a. unfold unsubscribe. rewrite array_set_array.
    destruct (decide _) as [[E _]|_]; [right|left; reflexivity].
    unfold current. rewrite E. reflexivity. }
  assert (Hin : forall a cb,
            In cb (array a (unsubscribe target w)) -> In cb (array a w)).
  { intros a cb. destruct (Harr a) as [-> | ->]; [auto|].
    apply CallbacksFacts.splice_incl. }
  repeat split.
  - exact Hin.
  - intros a. destruct (Harr a) as [-> | ->]; [lia|].
    apply CallbacksFacts.splice_length.
  - intros cb. apply Hin.
  - intros E.
    change (current (unsubscribe target w))
      with (array (changeCallbacks (client w)) (unsubscribe target w)).
    destruct (Harr (changeCallbacks (client w))) as [H|H];
      rewrite H; fold (current w); rewrite E; reflexivity.
Qed.

Lemma array_disconnect (a : nat) (w : world) :
  array a (snd (disconnect w)) = array a w.
Proof.
  unfold array, disconnect. cbn [snd arrays].
  destruct (decide (a < length (arrays w))) as [H|H].
  - rewrite lookup_app_l by exact H. reflexivity.
  - rewrite (lookup_ge_None_2 (arrays w)) by lia.
    destruct (decide (a = length (arrays w))) as [->|H'].
    + rewrite list_lookup_middle by reflexivity. reflexivity.
    + rewrite lookup_ge_None_2; [reflexivity|].
      rewrite length_app. cbn [length]. lia.
Qed.

Lemma current_disconnect (w : world) : current (snd (disconnect w)) = [].
Proof.
  unfold current, array, disconnect. cbn [snd arrays client changeCallbacks].
  rewrite list_lookup_middle by reflexivity. reflexivity.
Qed.

(** [disconnect()] leaves every array as it is and lets go of the one the
    client held: the client holds a new, empty one. *)
Lemma disconnect_shrinks (w : world) :
  shrinks w (snd (disconnect w)) /\
  log (snd (disconnect w)) = log w ++ [Disconnected].
Proof.
  split; [|reflexivity]. repeat split.
  - intros a cb. rewrite array_disconnect. auto.
  - intros a. rewrite array_disconnect. lia.
  - rewrite current_disconnect. intros cb [].
  - intros _. apply current_disconnect.
Qed.

(** The steps of a callback: arrays only lose callbacks, no callback is
    called, and once [disconnect()] has run the client holds an empty
    array. *)
Lemma run_shrinks (actions : list action) (w : world) :
  let w' := snd (run actions w) in
  shrinks w w' /\
  exists seen,
    since w w' seen /\
    (forall x, ~ In (Called x) seen) /\
    (In Disconnected seen -> current w' = []).
Proof.
  revert w. induction actions as [|a rest IH]; intros w; cbn zeta.
  - cbn [run snd]. split; [apply shrinks_refl|].
    exists []. unfold since. rewrite app_nil_r.
    split; [reflexivity|]. split; [intros x []|intros []].
  - destruct a as [target| |e]; cbn [run].
    + destruct (unsubscribe_shrinks target w) as (Hs & Hlog & _).
      destruct (IH (unsubscribe target w)) as (Hs' & seen & Hseen & Hno & Hd).
      split; [exact (shrinks_trans _ _ _ Hs Hs')|].
      exists seen. unfold since in *. rewrite Hseen, Hlog.
      split; [reflexivity|]. split; assumption.
    + destruct (disconnect_shrinks w) as (Hs & Hlog).
      destruct (IH (snd (disconnect w))) as (Hs' & seen & Hseen & Hno & Hd).
      split; [exact (shrinks_trans _ _ _ Hs Hs')|].
      exists (Disconnected :: seen). unfold since in *.
      rewrite Hseen, Hlog, <- app_assoc. split; [reflexivity|]. split.
      * intros x [H|H]; [discriminate H|exact (Hno x H)].
      * intros _. destruct Hs' as (_ & _ & _ & Hempty).
        apply Hempty, current_disconnect.
    + cbn [snd]. split; [apply shrinks_refl|].
      exists []. unfold since. rewrite app_nil_r.
      split; [reflexivity|]. split; [intros x []|intros []].
Qed.

Lemma call_shrinks (cb : callback) (w : world) :
  let w' := snd (call cb w) in
  shrinks w w' /\
  exists seen,
    since w w' (Called (ref cb) :: seen) /\
    (forall x, ~ In (Called x) seen) /\
    (In Disconnected seen -> current w' = []).
Proof.
  unfold call.
  destruct (run_shrinks (body cb)
              (mkWorld (runtime w) (arrays w) (client w)
                 (log w ++ [Called (ref cb)])))
    as (Hs & seen & Hseen & Hno & Hd).
  cbn zeta. split.
  - destruct Hs as (A & B & C & D). repeat split; assumption.
  - exists seen. unfold since in *. cbn [log] in Hseen.
    rewrite Hseen, <- app_assoc. split; [reflexivity|]. split; assumption.
Qed.

(** A round over the array [a]: it calls callbacks that the array held
    when the round began, and no other. *)
Lemma forOf_shrinks (fuel i a : nat) (w : world) :
  let w' := snd (forOf fuel i a w) in
  shrinks w w' /\
  exists seen,
    since w w' seen /\
    (forall x, In (Called x) seen -> In x (map ref (array a w))) /\
    (In Disconnected seen -> current w' = []).
Proof.
  revert i w. induction fuel as [|fuel IH]; intros i w; cbn zeta.
  - cbn [forOf snd]. split; [apply shrinks_refl|].
    exists []. unfold since. rewrite app_nil_r.
    split; [reflexivity|]. split; [intros x []|intros []].
  - cbn [forOf]. destruct (array a w !! i) as [cb|] eqn:E.
    + destruct (call_shrinks cb w) as (Hs & seen & Hseen & Hno & Hd).
      assert (Hcb : In (ref cb) (map ref (array a w))).
      { apply in_map, list_elem_of_In.
        apply (list_elem_of_lookup_2 _ _ _ E). }
      destruct (call cb w) as [[[]|e] w1]; cbn [snd] in *.
      * destruct (IH (S i) w1) as (Hs' & seen' & Hseen' & Hin' & Hd').
        split; [exact (shrinks_trans _ _ _ Hs Hs')|].
        exists (Called (ref cb) :: seen ++ seen'). unfold since in *.
        rewrite Hseen', Hseen, <- !app_assoc. cbn [app].
        split; [reflexivity|]. split.
        -- intros x [H|H]; [injection H as <-; exact Hcb|].
           apply in_app_or in H as [H|H]; [destruct (Hno x H)|].
           apply Hin' in H. apply in_map_iff in H as (c & <- & Hc).
           apply in_map. destruct Hs as (A & _). apply A, Hc.
        -- intros [H|H]; [discriminate H|].
           apply in_app_or in H as [H|H]; [|exact (Hd' H)].
           destruct Hs' as (_ & _ & _ & Hempty). apply Hempty, Hd, H.
      * split; [exact Hs|].
        exists (Called (ref cb) :: seen). split; [exact Hseen|]. split.
        -- intros x [H|H]; [injection H as <-; exact Hcb|destruct (Hno x H)].
        -- intros [H|H]; [discriminate H|exact (Hd H)].
    + cbn [snd]. split; [apply shrinks_refl|].
      exists []. unfold since. rewrite app_nil_r.
      split; [reflexivity|]. split; [intros x []|intros []].
Qed.

(** [notifyChange()] calls callbacks of the array the client holds when it
    begins, and no other. *)
Lemma notifyChange_shrinks (w : world) :
  let w' := snd (notifyChange w) in
  shrinks w w' /\
  exists seen,
    since w w' seen /\
    (forall x, In (Called x) seen -> In x (map ref (current w))) /\
    (In Disconnected seen -> current w' = []).
Proof. apply forOf_shrinks. Qed.

Lemma settles_same (w w' : world) :
  arrays w' = arrays w ->
  changeCallbacks (client w') = changeCallbacks (client w) ->
  log w' = log w ->
  settles w w'.
Proof.
  intros Ha Hc Hl.
  assert (Harr : forall a, array a w' = array a w).
  { intros a. unfold array. rewrite Ha. reflexivity. }
  assert (Hcur : current w' = current w).
  { unfold current. rewrite Hc. apply Harr. }
  split.
  - repeat split.
    + intros a cb. rewrite Harr. auto.
    + intros a. rewrite Harr. lia.
    + intros cb. rewrite Hcur. auto.
    + rewrite Hcur. auto.
  - exists []. unfold since. rewrite app_nil_r.
    split; [exact Hl|]. split; [intros x []|intros []].
Qed.

Lemma settles_refl (w : world) : settles w w.
Proof. apply settles_same; reflexivity. Qed.

Lemma settles_trans (w1 w2 w3 : world) :
  settles w1 w2 -> settles w2 w3 -> settles w1 w3.
Proof.
  intros (Hs & seen & Hseen & Hin & Hd) (Hs' & seen' & Hseen' & Hin' & Hd').
  split; [exact (shrinks_trans _ _ _ Hs Hs')|].
  exists (seen ++ seen'). unfold since in *.
  rewrite Hseen', Hseen, <- app_assoc. split; [reflexivity|]. split.
  - intros x H. apply in_app_or in H as [H|H]; [exact (Hin x H)|].
    apply Hin' in H. apply in_map_iff in H as (c & <- & Hc).
    apply in_map. destruct Hs as (_ & _ & C & _). apply C, Hc.
  - intros H. apply in_app_or in H as [H|H]; [|exact (Hd' H)].
    destruct Hs' as (_ & _ & _ & Hempty). apply Hempty, Hd, H.
Qed.

Lemma notifyChange_settles (w : world) : settles w (snd (notifyChange w)).
Proof. apply notifyChange_shrinks. Qed.

Lemma disconnect_settles (w : world) : settles w (snd (disconnect w)).
Proof.
  destruct (disconnect_shrinks w) as (Hs & Hlog). split; [exact Hs|].
  exists [Disconnected]. split; [exact Hlog|]. split.
  - intros x [H|[]]. discriminate H.
  - intros _. apply current_disconnect.
Qed.

Lemma unsubscribe_settles (target : nat) (w : world) :
  settles w (unsubscribe target w).
Proof.
  destruct (unsubscribe_shrinks target w) as (Hs & Hlog & _).
  split; [exact Hs|]. exists []. unfold since. rewrite app_nil_r.
  split; [exact Hlog|]. split; [intros x []|intros []].
Qed.

Lemma connect_settles (root : string) (env : BeadsClient.answers) (w : world) :
  settles w (snd (connect root env w)).
Proof.
  apply settles_same; unfold connect;
    destruct (BeadsClient.ping_answer env);
    try destruct (ChangePoller.start _ _ _);
    try destruct (BeadsClient.load_answer env); reflexivity.
Qed.

Lemma send_settles (operation : string) (args : json)
    (answer : completion json) (w : world) :
  settles w (snd (send operation args answer w)).
Proof.
  apply settles_same; unfold send; destruct (transport (client w));
    reflexivity.
Qed.

Lemma store_hash_settles (hash : string) (w : world) :
  settles w (store_hash hash w).
Proof.
  apply settles_same; unfold store_hash; destruct (poller (client w));
    reflexivity.
Qed.

Lemma notifiers_settles (subscribers : list Subscribers.callback) (w : world) :
  settles w (snd (notifiers subscribers w)).
Proof.
  revert w. induction subscribers as [|s rest IH]; intros w;
    [apply settles_refl|].
  cbn [notifiers].
  pose proof (notifyChange_settles w) as H.
  destruct (notifyChange w) as [[[]|e] w1]; cbn [snd] in *; [|exact H].
  exact (settles_trans _ _ _ H (IH w1)).
Qed.

Lemma poll_settles (answer : completion string) (p : ChangePoller.t)
    (w : world) :
  settles w (poll answer p w).
Proof.
  unfold poll.
  set (w1 := set_runtime _ w).
  assert (H1 : settles w w1) by (apply settles_same; reflexivity).
  destruct answer as [hash|e]; [|exact H1].
  destruct (ChangePoller.changed hash p).
  - pose proof (notifiers_settles (ChangePoller.callbacks p) w1) as H2.
    destruct (notifiers (ChangePoller.callbacks p) w1) as [[[]|e] w2];
      cbn [snd] in H2.
    + exact (settles_trans _ _ _ H1
               (settles_trans _ _ _ H2 (store_hash_settles hash w2))).
    + exact (settles_trans _ _ _ H1 H2).
  - exact (settles_trans _ _ _ H1 (store_hash_settles hash w1)).
Qed.

Lemma tick_settles (answer : completion string) (w : world) :
  settles w (tick answer w).
Proof.
  unfold tick. destruct (poller (client w)) as [p|]; [|apply settles_refl].
  destruct (ChangePoller.intervalId p) as [handle|]; [|apply settles_refl].
  destruct (is_live handle (runtime w)); [apply poll_settles|apply settles_refl].
Qed.

(** Every event but a registration settles. *)
Lemma step_settles (e : event) (w : world) :
  (forall cb, e <> OnChange cb) -> settles w (step w e).
Proof.
  intros Hreg. destruct e as [root env| |cb|target|answer|j| |op args answer];
    cbn [step].
  - apply connect_settles.
  - apply disconnect_settles.
  - destruct (Hreg cb eq_refl).
  - apply unsubscribe_settles.
  - apply tick_settles.
  - unfold fileChange. destruct (bool_decide _);
      [apply notifyChange_settles|apply settles_refl].
  - apply notifyChange_settles.
  - apply send_settles.
Qed.

(** A registration adds its callback to the array the client holds, and
    nothing is called. *)
Lemma onChange_current (cb : callback) (w : world) (c : callback) :
  In c (current (onChange cb w)) -> In c (current w) \/ c = cb.
Proof.
  change (current (onChange cb w))
    with (array (changeCallbacks (client w)) (onChange cb w)).
  unfold onChange. rewrite array_set_array.
  destruct (decide _) as [_|_].
  - intros H. apply in_app_or in H as [H|[H|[]]]; [left|right]; auto.
  - intros H. left. exact H.
Qed.

Lemma classic_event (e : event) :
  (exists cb, e = OnChange cb) \/ (forall cb, e <> OnChange cb).
Proof.
  destruct e; try (right; intros cb0; discriminate).
  left. eexists. reflexivity.
Qed.

(** One event calls only callbacks that the client holds, and leaves the
    client with callbacks it held or was given. *)
Lemma step_forgets (target : nat) (e : event) (w : world) :
  ~ In target (map ref (current w)) ->
  ~ registers target e ->
  exists seen,
    since w (step w e) seen /\
    ~ In (Called target) seen /\
    ~ In target (map ref (current (step w e))) /\
    (In Disconnected seen -> current (step w e) = []).
Proof.
  intros Hnot Hreg.
  destruct (classic_event e) as [[cb ->]|Hother].
  - exists []. unfold since. cbn [step]. rewrite app_nil_r.
    split; [reflexivity|]. split; [intros []|]. split; [|intros []].
    intros H. apply in_map_iff in H as (c & Hc & H).
    apply onChange_current in H as [H| ->].
    + apply Hnot. rewrite <- Hc. apply in_map, H.
    + apply Hreg. exact Hc.
  - destruct (step_settles e w Hother)
      as ((_ & _ & Hcur & _) & seen & Hseen & Hin & Hd).
    exists seen. split; [exact Hseen|]. split; [|split; [|exact Hd]].
    + intros H. apply Hnot, Hin, H.
    + intros H. apply in_map_iff in H as (c & Hc & H).
      apply Hnot. rewrite <- Hc. apply in_map, Hcur, H.
Qed.

Lemma run_events_forgets (target : nat) (events : list event) (w : world) :
  ~ In target (map ref (current w)) ->
  (forall e, In e events -> ~ registers target e) ->
  exists later,
    since w (run_events events w) later /\ ~ In (Called target) later.
Proof.
  revert w. induction events as [|e rest IH]; intros w Hnot Hreg.
  - exists []. unfold since. cbn [run_events fold_left]. rewrite app_nil_r.
    split; [reflexivity|intros []].
  - destruct (step_forgets target e w Hnot) as (seen & Hseen & Hno & Hnot' & _).
    { apply Hreg. left. reflexivity. }
    destruct (IH (step w e) Hnot') as (later & Hlater & Hnone).
    { intros e' He'. apply Hreg. right. exact He'. }
    exists (seen ++ later). unfold since in *. cbn [run_events fold_left].
    unfold run_events in Hlater. rewrite Hlater, Hseen, <- app_assoc.
    split; [reflexivity|].
    intros H. apply in_app_or in H as [H|H]; contradiction.
Qed.

(** The fuel [notifyChange] gives is enough: more of it changes nothing, so
    a round ends because a callback threw or the index ran off the array. *)
Lemma client_forOf_fuel (fuel fuel' i a : nat) (w : world) :
  length (array a w) <= fuel + i -> fuel <= fuel' ->
  forOf fuel i a w = forOf fuel' i a w.
Proof.
  revert fuel' i w.
  induction fuel as [|fuel IH]; intros fuel' i w Hlen Hle.
  - destruct fuel' as [|fuel']; [reflexivity|].
    cbn [forOf]. rewrite lookup_ge_None_2 by lia. reflexivity.
  - destruct fuel' as [|fuel']; [lia|].
    cbn [forOf]. destruct (array a w !! i) as [cb|]; [|reflexivity].
    destruct (call_shrinks cb w) as ((_ & Hshort & _) & _).
    destruct (call cb w) as [[[]|e] w1]; [|reflexivity].
    apply IH; [|lia]. cbn [snd] in Hshort. specialize (Hshort a). lia.
Qed.

Lemma step_disconnected (e : event) (w : world) (seen : list observation) :
  since w (step w e) seen -> In Disconnected seen -> current (step w e) = [].
Proof.
  intros Hseen Hd.
  destruct (classic_event e) as [[cb ->]|Hother].
  - unfold since in Hseen. cbn [step onChange set_array log] in Hseen.
    rewrite <- (app_nil_r (log w)) in Hseen at 1.
    apply app_inv_head in Hseen. subst seen. destruct Hd.
  - destruct (step_settles e w Hother) as (_ & seen' & Hseen' & _ & Hd').
    unfold since in *. rewrite Hseen' in Hseen.
    apply app_inv_head in Hseen. subst seen'. exact (Hd' Hd).
Qed.

Lemma called_app (l1 l2 : list observation) :
  called (l1 ++ l2) = called l1 ++ called l2.
Proof.
  induction l1 as [|[x|] l1 IH]; cbn [app called]; [reflexivity| |exact IH].
  rewrite IH. reflexivity.
Qed.

Lemma called_map (refs : list nat) : called (map Called refs) = refs.
Proof.
  induction refs as [|x refs IH]; [reflexivity|].
  cbn [map called]. rewrite IH. reflexivity.
Qed.

(** Once the client has let go of an array, nothing a callback does reaches
    it. *)
Lemma run_let_go (actions : list action) (a : nat) (w : world) :
  let_go a w ->
  (forall e, ~ In (Throw e) actions) ->
  fst (run actions w) = Returns tt /\
  let_go a (snd (run actions w)) /\
  array a (snd (run actions w)) = array a w /\
  called (log (snd (run actions w))) = called (log w) /\
  (connected (client w) = false ->
   connected (client (snd (run actions w))) = false).
Proof.
  revert w. induction actions as [|x rest IH]; intros w Hgo Hret;
    [split; [reflexivity|]; split; [exact Hgo|]; repeat split; auto|].
  assert (Hrest : forall e, ~ In (Throw e) rest).
  { intros e He. apply (Hret e). right. exact He. }
  destruct x as [target| |e]; cbn [run].
  - destruct (IH (unsubscribe target w)) as (I1 & I2 & I3 & I4 & I5);
      [|exact Hrest|].
    { unfold let_go, unsubscribe, set_array in *. cbn [client arrays].
      rewrite length_insert. exact Hgo. }
    rewrite I1, I3, I4. split; [reflexivity|]. split; [exact I2|].
    split; [|split; [reflexivity|exact I5]].
    unfold unsubscribe. rewrite array_set_array.
    destruct (decide _) as [[E _]|_]; [|reflexivity].
    destruct Hgo as [Hlt _]. lia.
  - destruct (IH (snd (disconnect w))) as (I1 & I2 & I3 & I4 & I5);
      [|exact Hrest|].
    { unfold let_go, disconnect in *. cbn [snd client arrays changeCallbacks].
      rewrite length_app. cbn [length]. lia. }
    rewrite I1, I3, I4, array_disconnect. split; [reflexivity|].
    split; [exact I2|]. split; [reflexivity|]. split.
    + cbn [disconnect snd log]. rewrite called_app. cbn [called].
      apply app_nil_r.
    + intros _. apply I5. reflexivity.
  - destruct (Hret e). left. reflexivity.
Qed.

Lemma call_let_go (cb : callback) (a : nat) (w : world) :
  let_go a w -> returns cb ->
  fst (call cb w) = Returns tt /\
  let_go a (snd (call cb w)) /\
  array a (snd (call cb w)) = array a w /\
  called (log (snd (call cb w))) = called (log w) ++ [ref cb] /\
  (connected (client w) = false ->
   connected (client (snd (call cb w))) = false).
Proof.
  intros Hgo Hret. unfold call.
  destruct (run_let_go (body cb) a
              (mkWorld (runtime w) (arrays w) (client w)
                 (log w ++ [Called (ref cb)])) Hgo Hret)
    as (H1 & H2 & H3 & H4 & H5).
  cbn [log] in H4. rewrite called_app in H4. cbn [called] in H4.
  split; [exact H1|]. split; [exact H2|]. split; [exact H3|].
  split; [exact H4|exact H5].
Qed.

(** A round over an array the client has let go of calls every callback
    left in it, as long as none throws. *)
Lemma forOf_let_go (l : list callback) (fuel i a : nat) (w : world) :
  let_go a w -> array a w = l ->
  Forall returns l -> length l <= fuel + i ->
  fst (forOf fuel i a w) = Returns tt /\
  called (log (snd (forOf fuel i a w))) =
    called (log w) ++ map ref (drop i l) /\
  (connected (client w) = false ->
   connected (client (snd (forOf fuel i a w))) = false).
Proof.
  revert i w. induction fuel as [|fuel IH]; intros i w Hgo Harr Hret Hlen.
  - cbn [forOf fst snd]. rewrite drop_ge by lia. cbn [map].
    rewrite app_nil_r. repeat split; auto.
  - cbn [forOf]. rewrite Harr. destruct (l !! i) as [cb|] eqn:E.
    + assert (Hcb : returns cb).
      { rewrite List.Forall_forall in Hret. apply Hret, list_elem_of_In.
        apply (list_elem_of_lookup_2 _ _ _ E). }
      destruct (call_let_go cb a w Hgo Hcb) as (H1 & H2 & H3 & H4 & H5).
      destruct (call cb w) as [[[]|e] w1]; cbn [fst snd] in *;
        [|discriminate H1].
      destruct (IH (S i) w1) as (I1 & I2 & I3);
        [exact H2|congruence|exact Hret|lia|].
      rewrite I1, I2, H4, <- app_assoc, (drop_S _ _ _ E).
      repeat split. intros H. apply I3, H5, H.
    + cbn [fst snd]. rewrite drop_ge by (apply lookup_ge_None_1, E).
      cbn [map]. rewrite app_nil_r. repeat split; auto.
Qed.

(** A stretch of inert callbacks is called through, one by one, and leaves
    everything but the log as it is. *)
Lemma forOf_inert_stretch (mid before after : list callback)
    (fuel a : nat) (w : world) :
  Forall inert mid ->
  array a w = before ++ mid ++ after ->
  forOf (length mid + fuel) (length before) a w =
  forOf fuel (length before + length mid) a
    (mkWorld (runtime w) (arrays w) (client w)
       (log w ++ map Called (map ref mid))).
Proof.
  revert before w.
  induction mid as [|m mid IH]; intros before w Hinert Harr.
  - cbn [length map Nat.add]. rewrite Nat.add_0_r, app_nil_r.
    destruct w; reflexivity.
  - inversion Hinert as [|? ? Hm Hmid]; subst.
    cbn [length Nat.add forOf]. rewrite Harr. cbn [app].
    rewrite list_lookup_middle by reflexivity.
    unfold call. rewrite Hm. cbn [run].
    replace (S (length before)) with (length (before ++ [m]))
      by (rewrite length_app; cbn [length]; lia).
    rewrite (IH (before ++ [m])); [|exact Hmid|].
    + rewrite length_app. cbn [length map runtime arrays client log].
      rewrite <- !app_assoc. cbn [app].
      replace (length before + 1 + length mid)
        with (length before + S (length mid)) by lia.
      reflexivity.
    + unfold array in *. cbn [arrays]. rewrite Harr, <- app_assoc.
      reflexivity.
Qed.

(** A callback disconnects the client in the middle of a round: the round
    goes on over the array it began with and calls the callbacks that
    follow, and afterwards the client is disconnected and holds an empty
    array. *)
Lemma round_goes_on_after_disconnect (pre post : list callback)
    (d : callback) (w : world) :
  current w = pre ++ d :: post ->
  Forall inert pre -> body d = [Disconnect] -> Forall returns post ->
  let w' := snd (notifyChange w) in
  (exists seen,
     log w' =
       log w ++ map Called (map ref pre) ++
       Called (ref d) :: Disconnected :: seen /\
     called seen = map ref post) /\
  isConnected (client w') = false /\
  current w' = [].
Proof.
  intros Hcur Hpre Hd Hpost.
  set (a := changeCallbacks (client w)).
  assert (Harr : array a w = pre ++ d :: post) by exact Hcur.
  assert (Hin : a < length (arrays w)).
  { apply lookup_lt_is_Some. unfold array in Harr.
    destruct (arrays w !! a); [eexists; reflexivity|].
    cbn in Harr. destruct pre; discriminate Harr. }
  cbn zeta. unfold notifyChange. fold a. rewrite Harr.
  rewrite length_app. cbn [length].
  pose proof (forOf_inert_stretch pre [] (d :: post) (S (length post)) a w
                Hpre Harr) as E.
  cbn [app length Nat.add] in E. rewrite E. clear E.
  set (w1 := mkWorld (runtime w) (arrays w) (client w)
               (log w ++ map Called (map ref pre))).
  assert (Harr1 : array a w1 = pre ++ d :: post) by exact Harr.
  cbn [forOf]. rewrite Harr1, list_lookup_middle by reflexivity.
  unfold call. rewrite Hd. cbn [run].
  set (w2 := snd (disconnect _)).
  assert (Hgo : let_go a w2).
  { unfold let_go, w2, disconnect, w1.
    cbn [snd client arrays changeCallbacks].
    rewrite length_app. cbn [length]. fold a. lia. }
  assert (Harr2 : array a w2 = pre ++ d :: post).
  { unfold w2. rewrite array_disconnect. exact Harr. }
  destruct (forOf_let_go (pre ++ d :: post) (length post) (S (length pre)) a
              w2 Hgo Harr2) as (H1 & H2 & H3).
  { apply List.Forall_app. split.
    - rewrite List.Forall_forall in *. intros cb Hcb e.
      rewrite (Hpre cb Hcb). intros [].
    - constructor; [|exact Hpost]. intros e. rewrite Hd.
      intros [H|[]]. discriminate H. }
  { rewrite length_app. cbn [length]. lia. }
  destruct (forOf_shrinks (length post) (S (length pre)) a w2)
    as ((_ & _ & _ & Hempty) & seen & Hseen & _ & _).
  destruct (forOf (length post) (S (length pre)) a w2) as [out w3].
  cbn [fst snd] in *.
  assert (Hdrop : drop (S (length pre)) (pre ++ d :: post) = post).
  { replace (pre ++ d :: post) with ((pre ++ [d]) ++ post)
      by (rewrite <- app_assoc; reflexivity).
    replace (S (length pre)) with (length (pre ++ [d]))
      by (rewrite length_app; cbn [length]; lia).
    apply drop_app_length. }
  rewrite Hdrop in H2. unfold since in Hseen.
  split; [|split].
  - exists seen. split.
    + rewrite Hseen. unfold w2. cbn [disconnect snd log w1].
      rewrite <- !app_assoc. reflexivity.
    + rewrite Hseen, called_app in H2. apply app_inv_head in H2. exact H2.
  - apply H3. reflexivity.
  - apply Hempty. unfold w2. apply current_disconnect.
Qed.

(** C9, amended.  [disconnect()] leaves the client with a new, empty
    change-callback array, no poller, no transport, not connected; the
    interval of the poller it had is cleared, and the transports it held are
    closed.  Take any event during which [disconnect()] has run, called from
    outside or by a change callback in a notification round.  Once that
    event is over, the client holds an empty array, and whatever happens
    afterwards (connecting again, timer ticks, file changes, change
    notifications from sources left behind, reads and writes, other
    subscriptions, with change callbacks that may unsubscribe, disconnect
    or throw), a callback is not called again unless [onChange] is given it
    again.  Only the round in which a change callback calls [disconnect()]
    goes on over the array it began with: the callbacks that follow are
    still called, after the client has disconnected. *)
Theorem disconnect_forgets_earlier_subscribers
    (w : world) (e : event) (target : nat) (events : list event)
    (pre post : list callback) (leaver : callback) :
  let w1 := snd (disconnect w) in
  (current w1 = [] /\
   poller (client w1) = None /\
   transport (client w1) = None /\
   daemon (client w1) = None /\
   jsonl (client w1) = None /\
   isConnected (client w1) = false /\
   (forall p handle,
      poller (client w) = Some p -> ChangePoller.intervalId p = Some handle ->
      is_live handle (runtime w1) = false) /\
   (forall d, daemon (client w) = Some d -> In d (closed (runtime w1))) /\
   (forall j, jsonl (client w) = Some j -> In j (closed (runtime w1))) /\
   step w CallDisconnect = w1 /\
   log w1 = log w ++ [Disconnected]) /\
  (forall seen,
     since w (step w e) seen -> In Disconnected seen ->
     (forall e', In e' events -> ~ registers target e') ->
     current (step w e) = [] /\
     exists later,
       since (step w e) (run_events events (step w e)) later /\
       ~ In (Called target) later) /\
  (current w = pre ++ leaver :: post ->
   Forall inert pre -> body leaver = [Disconnect] -> Forall returns post ->
   let w' := snd (notifyChange w) in
   (exists seen,
      log w' =
        log w ++ map Called (map ref pre) ++
        Called (ref leaver) :: Disconnected :: seen /\
      called seen = map ref post) /\
   isConnected (client w') = false /\
   current w' = []).
Proof.
  intros w1. split; [|split; [|apply round_goes_on_after_disconnect]].
  - split; [apply current_disconnect|].
    repeat (split; [reflexivity|]).
    split; [|split; [|split; [|split; reflexivity]]].
    + intros p handle Hp Hid. subst w1. unfold disconnect. rewrite Hp.
      unfold ChangePoller.stop. rewrite Hid. cbn [fst snd runtime].
      pose proof (BeadsClientFacts.clearInterval_not_live handle (runtime w))
        as Hdead.
      unfold is_live in *.
      destruct (jsonlUnsubscribe (client w)), (daemon (client w)),
        (jsonl (client w)); exact Hdead.
    + intros d Hd. subst w1. unfold disconnect. rewrite Hd.
      cbn [fst snd runtime].
      destruct (jsonl (client w)); cbn [log_close closed];
        rewrite ?in_app_iff; cbn [In]; tauto.
    + intros j Hj. subst w1. unfold disconnect. rewrite Hj.
      cbn [fst snd runtime log_close closed].
      rewrite in_app_iff. right. left. reflexivity.
  - intros seen Hseen Hd Hfresh.
    pose proof (step_disconnected e w seen Hseen Hd) as Hempty.
    split; [exact Hempty|].
    apply run_events_forgets; [|exact Hfresh].
    rewrite Hempty. intros [].
Qed.

(** Two subscribers, the first of which disconnects the client when it is
    called.  A file change starts a round: the first is called, the client
    disconnects, and the second is still called.  After that round the
    client connects again, a newcomer subscribes, and changes are notified:
    the newcomer is called, the subscribers of before are not. *)
Lemma disconnect_forgets_earlier_subscribers_witness :
  let w := run_events
             [Connect "/repo" ClientFixtures.fileOnly;
              OnChange ReentrantFixtures.leaver;
              OnChange ReentrantFixtures.listener]
             (new ClientFixtures.defaults fresh_runtime) in
  let e := FileChange (JsonlTransport "/repo") in
  let events := [Connect "/repo" ClientFixtures.fileOnly;
                 OnChange ReentrantFixtures.newcomer;
                 FileChange (JsonlTransport "/repo"); Notified] in
  log (step w e) = [Called 1; Disconnected; Called 2] /\
  log (run_events events (step w e)) =
    [Called 1; Disconnected; Called 2; Called 3; Called 3] /\
  (exists later,
     since (step w e) (run_events events (step w e)) later /\
     ~ In (Called 2) later) /\
  (exists seen,
     log (snd (notifyChange w)) = Called 1 :: Disconnected :: seen /\
     called seen = [2]).
Proof.
  intros w e events.
  destruct (disconnect_forgets_earlier_subscribers w e 2 events
              [] [ReentrantFixtures.listener] ReentrantFixtures.leaver)
    as (_ & Hlater & Hround).
  split; [reflexivity|]. split; [reflexivity|]. split.
  - apply (Hlater [Called 1; Disconnected; Called 2]);
      [reflexivity|right; left; reflexivity|].
    intros e' [<-|[<-|[<-|[<-|[]]]]]; cbn; [tauto|discriminate|tauto|tauto].
  - destruct Hround as ((seen & Hlog & Hcalled) & _).
    + reflexivity.
    + constructor.
    + reflexivity.
    + constructor; [intros err []|constructor].
    + exists seen. split; [exact Hlog|exact Hcalled].
Defined.

(** C9 as stated fails: a change callback that calls [disconnect()] is
    followed, in its round, by the callbacks registered after it.  Here the
    first of two subscribers disconnects the client; the round, started by
    the watcher of the JSONL file or by the poller, goes on to call the
    second, which was registered before the disconnect and not since. *)
Lemma callback_is_called_after_disconnect_in_its_round :
  let subscribe := [OnChange ReentrantFixtures.leaver;
                    OnChange ReentrantFixtures.listener] in
  let w1 := run_events
              (Connect "/repo" ClientFixtures.fileOnly :: subscribe ++
               [FileChange (JsonlTransport "/repo")])
              (new ClientFixtures.defaults fresh_runtime) in
  let w2 := run_events
              (Connect "/repo" ClientFixtures.daemonUp :: subscribe ++
               [Tick (Returns "[6]")])
              (new ClientFixtures.defaults fresh_runtime) in
  (log w1 = [Called 1; Disconnected; Called 2] /\
   isConnected (client w1) = false /\ current w1 = []) /\
  (log w2 = [Called 1; Disconnected; Called 2] /\
   isConnected (client w2) = false /\ current w2 = []).
Proof. vm_compute. repeat split; reflexivity. Qed.

End ReentrantClientFacts.

(** ** The first client inside the second *)

Module ClientEmbeddingFacts.
Import Embedding.
Import ReentrantClientInvariants.
Import ReentrantClientFacts.
Local Open Scope list_scope.

Lemma client_indexOf_plain (target : nat) (l : list Subscribers.callback) :
  Callbacks.indexOf target (map client_callback l) =
  Subscribers.indexOf target l.
Proof.
  induction l as [|cb l IH]; [reflexivity|].
  cbn [map Callbacks.indexOf Subscribers.indexOf client_callback
         Callbacks.ref].
  destruct (Subscribers.ref cb =? target)%nat; [reflexivity|].
  rewrite IH. reflexivity.
Qed.

Lemma client_unsubscribe_plain (target : nat)
    (l : list Subscribers.callback) :
  Callbacks.unsubscribe target (map client_callback l) =
  map client_callback (Subscribers.unsubscribe target l).
Proof.
  unfold Callbacks.unsubscribe, Subscribers.unsubscribe.
  rewrite client_indexOf_plain.
  destruct (Subscribers.indexOf target l) as [idx|]; [|reflexivity].
  symmetry. apply (list_fmap_delete client_callback).
Qed.

(** The calls of a round do not depend on the calls made before it. *)
Lemma forOf_shift (fuel i : nat) (l : list Subscribers.callback)
    (calls : list nat) :
  Subscribers.forOf fuel i l calls =
  (fst (Subscribers.forOf fuel i l []),
   calls ++ snd (Subscribers.forOf fuel i l [])).
Proof.
  revert i l calls. induction fuel as [|fuel IH]; intros i l calls.
  - cbn [Subscribers.forOf fst snd]. rewrite app_nil_r. reflexivity.
  - cbn [Subscribers.forOf]. destruct (l !! i) as [cb|];
      [|cbn [fst snd]; rewrite app_nil_r; reflexivity].
    rewrite (IH _ _ (calls ++ [Subscribers.ref cb])).
    rewrite (IH _ _ ([] ++ [Subscribers.ref cb])).
    cbn [fst snd app]. rewrite <- app_assoc. reflexivity.
Qed.

(** Writing to an array what it holds changes nothing. *)
Lemma set_array_same (g : ReentrantClient.world) (a : nat)
    (l : list ReentrantClient.callback) :
  a < length (ReentrantClient.arrays g) -> ReentrantClient.array a g = l ->
  ReentrantClient.set_array a l g = g.
Proof.
  intros Ha Hl. destruct g as [rt arrs k lg].
  unfold ReentrantClient.set_array, ReentrantClient.array in *.
  cbn [ReentrantClient.arrays ReentrantClient.runtime ReentrantClient.client
         ReentrantClient.log] in *.
  f_equal. apply list_insert_id.
  destruct (arrs !! a) as [x|] eqn:E.
  - cbn [default] in Hl. subst. reflexivity.
  - apply lookup_ge_None_1 in E. lia.
Qed.

Lemma set_array_twice (g : ReentrantClient.world) (a : nat)
    (l l' : list ReentrantClient.callback) :
  ReentrantClient.set_array a l' (ReentrantClient.set_array a l g) =
  ReentrantClient.set_array a l' g.
Proof.
  unfold ReentrantClient.set_array.
  cbn [ReentrantClient.arrays ReentrantClient.runtime ReentrantClient.client
         ReentrantClient.log].
  rewrite list_insert_insert_eq. reflexivity.
Qed.

Lemma run_client_plain (effects : list Subscribers.effect)
    (g : ReentrantClient.world) (l : list Subscribers.callback) :
  let a := ReentrantClient.changeCallbacks (ReentrantClient.client g) in
  a < length (ReentrantClient.arrays g) ->
  ReentrantClient.current g = map client_callback l ->
  ReentrantClient.run (map client_action effects) g =
  (Returns tt,
   ReentrantClient.set_array a
     (map client_callback (Subscribers.run effects l)) g).
Proof.
  intros a. subst a. revert g l.
  induction effects as [|[target] rest IH]; intros g l Ha Hl.
  - cbn [map ReentrantClient.run Subscribers.run].
    rewrite set_array_same; [reflexivity|exact Ha|exact Hl].
  - cbn [map client_action ReentrantClient.run Subscribers.run].
    unfold ReentrantClient.unsubscribe. rewrite Hl, client_unsubscribe_plain.
    rewrite (IH _ (Subscribers.unsubscribe target l)).
    + cbn [ReentrantClient.set_array ReentrantClient.client].
      rewrite set_array_twice. reflexivity.
    + unfold ReentrantClient.set_array.
      cbn [ReentrantClient.arrays ReentrantClient.client].
      rewrite length_insert. exact Ha.
    + unfold ReentrantClient.current.
      cbn [ReentrantClient.set_array ReentrantClient.client].
      rewrite array_set_array. rewrite decide_True; [reflexivity|].
      split; [reflexivity|exact Ha].
Qed.


(** A round of the first sections is a round here. *)
Lemma forOf_client_plain (fuel i : nat) (g : ReentrantClient.world)
    (l : list Subscribers.callback) :
  let a := ReentrantClient.changeCallbacks (ReentrantClient.client g) in
  a < length (ReentrantClient.arrays g) ->
  ReentrantClient.current g = map client_callback l ->
  ReentrantClient.forOf fuel i a g =
  (Returns tt,
   ReentrantClient.mkWorld (ReentrantClient.runtime g)
     (<[a := map client_callback (fst (Subscribers.forOf fuel i l []))]>
        (ReentrantClient.arrays g))
     (ReentrantClient.client g)
     (ReentrantClient.log g ++
      map ReentrantClient.Called (snd (Subscribers.forOf fuel i l [])))).
Proof.
  intros a. subst a. revert i g l.
  induction fuel as [|fuel IH]; intros i g l Ha Hl.
  - cbn [ReentrantClient.forOf Subscribers.forOf fst snd map].
    rewrite app_nil_r.
    change (ReentrantClient.mkWorld (ReentrantClient.runtime g)
              (<[ReentrantClient.changeCallbacks (ReentrantClient.client g)
                 := map client_callback l]> (ReentrantClient.arrays g))
              (ReentrantClient.client g) (ReentrantClient.log g))
      with (ReentrantClient.set_array
              (ReentrantClient.changeCallbacks (ReentrantClient.client g))
              (map client_callback l) g).
    rewrite set_array_same; [reflexivity|exact Ha|exact Hl].
  - cbn [ReentrantClient.forOf Subscribers.forOf].
    change (ReentrantClient.array
              (ReentrantClient.changeCallbacks (ReentrantClient.client g)) g)
      with (ReentrantClient.current g).
    rewrite Hl, (list_lookup_fmap client_callback).
    destruct (l !! i) as [cb|] eqn:E; cbn [fmap option_fmap option_map].
    + unfold ReentrantClient.call.
      cbn [Callbacks.body Callbacks.ref client_callback].
      set (g1 := ReentrantClient.mkWorld _ _ _ _).
      rewrite (run_client_plain (Subscribers.body cb) g1 l); [|exact Ha|exact Hl].
      cbn [ReentrantClient.changeCallbacks ReentrantClient.client g1].
      set (g2 := ReentrantClient.set_array _ _ g1).
      change (ReentrantClient.changeCallbacks (ReentrantClient.client g))
        with (ReentrantClient.changeCallbacks (ReentrantClient.client g2)).
      rewrite (IH (S i) g2 (Subscribers.run (Subscribers.body cb) l)).
      * rewrite (forOf_shift fuel (S i) _ ([] ++ [Subscribers.ref cb])).
        cbn [fst snd app map].
        subst g2 g1.
        cbn [ReentrantClient.set_array ReentrantClient.runtime
               ReentrantClient.arrays ReentrantClient.client
               ReentrantClient.log].
        rewrite list_insert_insert_eq, <- app_assoc. reflexivity.
      * subst g2 g1. cbn [ReentrantClient.set_array ReentrantClient.arrays
                            ReentrantClient.client].
        rewrite length_insert. exact Ha.
      * subst g2. unfold ReentrantClient.current.
        cbn [ReentrantClient.set_array ReentrantClient.client].
        rewrite array_set_array. rewrite decide_True; [reflexivity|].
        split; [reflexivity|exact Ha].
    + cbn [fst snd map]. rewrite app_nil_r.
      change (ReentrantClient.mkWorld (ReentrantClient.runtime g)
                (<[ReentrantClient.changeCallbacks (ReentrantClient.client g)
                   := map client_callback l]> (ReentrantClient.arrays g))
                (ReentrantClient.client g) (ReentrantClient.log g))
        with (ReentrantClient.set_array
                (ReentrantClient.changeCallbacks (ReentrantClient.client g))
                (map client_callback l) g).
      rewrite set_array_same; [reflexivity|exact Ha|exact Hl].
Qed.

(** [notifyChange] of the first sections is [notifyChange] here. *)
Lemma notifyChange_agrees (w : Runtime * BeadsClient.t)
    (g : ReentrantClient.world) :
  same_client w g ->
  fst (ReentrantClient.notifyChange g) = Returns tt /\
  ReentrantClient.client (snd (ReentrantClient.notifyChange g)) =
    ReentrantClient.client g /\
  same_client (fst w, BeadsClient.notifyChange (snd w))
    (snd (ReentrantClient.notifyChange g)).
Proof.
  intros (Hr & Hc & Hp & Ha & Hl & Hlog).
  unfold ReentrantClient.notifyChange.
  rewrite (forOf_client_plain _ 0 g (BeadsClient.changeCallbacks (snd w)) Ha Hl).
  split; [reflexivity|]. split; [reflexivity|].
  change (ReentrantClient.array
            (ReentrantClient.changeCallbacks (ReentrantClient.client g)) g)
    with (ReentrantClient.current g).
  rewrite Hl, length_map.
  unfold BeadsClient.notifyChange, Subscribers.notify.
  rewrite forOf_shift.
  set (round := Subscribers.forOf _ 0 _ []).
  cbn [fst snd].
  unfold same_client.
  cbn [fst snd ReentrantClient.runtime ReentrantClient.client
         ReentrantClient.arrays ReentrantClient.log BeadsClient.poller
         BeadsClient.changeCallbacks BeadsClient.calls].
  split; [exact Hr|]. split; [exact Hc|]. split; [exact Hp|].
  split; [rewrite length_insert; exact Ha|].
  split.
  - unfold ReentrantClient.current, ReentrantClient.array.
    cbn [ReentrantClient.arrays ReentrantClient.client].
    rewrite list_lookup_insert. rewrite decide_True; [reflexivity|].
    split; [reflexivity|exact Ha].
  - rewrite called_app, called_map, Hlog. reflexivity.
Qed.


Ltac open_clients H w g :=
  let r := fresh "r" in
  let c := fresh "c" in
  let k := fresh "k" in
  destruct w as [r c];
  destruct g as [rt arrs k lg];
  destruct k as [kd kj kt kp ka ku kc kw ko];
  destruct c as [cd cj ct cp cl cu cc cw co ccalls];
  unfold same_client, client_fields in H;
  cbn [fst snd ReentrantClient.runtime ReentrantClient.client
         ReentrantClient.arrays ReentrantClient.log
         ReentrantClient.daemon ReentrantClient.jsonl
         ReentrantClient.transport ReentrantClient.poller
         ReentrantClient.changeCallbacks ReentrantClient.jsonlUnsubscribe
         ReentrantClient.connected ReentrantClient.workspaceRoot
         ReentrantClient.options
         BeadsClient.daemon BeadsClient.jsonl BeadsClient.transport
         BeadsClient.poller BeadsClient.changeCallbacks
         BeadsClient.jsonlUnsubscribe BeadsClient.connected
         BeadsClient.workspaceRoot BeadsClient.options BeadsClient.calls] in H;
  destruct H as (Hr & Hc & Hp & Ha & Hl & Hlog);
  injection Hc as -> -> -> -> -> -> ->; subst rt.

Ltac show_clients :=
  unfold same_client, client_fields;
  cbn [fst snd ReentrantClient.runtime ReentrantClient.client
         ReentrantClient.arrays ReentrantClient.log
         ReentrantClient.daemon ReentrantClient.jsonl
         ReentrantClient.transport ReentrantClient.poller
         ReentrantClient.changeCallbacks ReentrantClient.jsonlUnsubscribe
         ReentrantClient.connected ReentrantClient.workspaceRoot
         ReentrantClient.options
         BeadsClient.daemon BeadsClient.jsonl BeadsClient.transport
         BeadsClient.poller BeadsClient.changeCallbacks
         BeadsClient.jsonlUnsubscribe BeadsClient.connected
         BeadsClient.workspaceRoot BeadsClient.options BeadsClient.calls].

Lemma connect_agrees (root : string) (env : BeadsClient.answers)
    (w : Runtime * BeadsClient.t) (g : ReentrantClient.world) :
  same_client w g ->
  fst (ReentrantClient.connect root env g) = fst (BeadsClient.connect root env w) /\
  same_client (snd (BeadsClient.connect root env w))
    (snd (ReentrantClient.connect root env g)).
Proof.
  intros H. open_clients H w g.
  unfold BeadsClient.connect, ReentrantClient.connect.
  cbn [ReentrantClient.runtime ReentrantClient.client
         ReentrantClient.arrays ReentrantClient.log
         ReentrantClient.daemon ReentrantClient.jsonl
         ReentrantClient.transport ReentrantClient.poller
         ReentrantClient.changeCallbacks ReentrantClient.jsonlUnsubscribe
         ReentrantClient.connected ReentrantClient.workspaceRoot
         ReentrantClient.options
         BeadsClient.daemon BeadsClient.jsonl BeadsClient.transport
         BeadsClient.poller BeadsClient.changeCallbacks
         BeadsClient.jsonlUnsubscribe BeadsClient.connected
         BeadsClient.workspaceRoot BeadsClient.options BeadsClient.calls].
  destruct (BeadsClient.ping_answer env) as [pong|err].
  - unfold ChangePoller.start, ChangePoller.onChange, ChangePoller.new,
      ChangePoller.poll, ChangePoller.changed, Subscribers.push.
    cbn [ChangePoller.intervalId ChangePoller.transport
           ChangePoller.callbacks ChangePoller.lastHash ChangePoller.calls
           setInterval truthy_string andb app].
    destruct (BeadsClient.stats_answer env) as [hash|err];
      (split; [reflexivity|]); show_clients;
      cbn [same_poller ChangePoller.intervalId ChangePoller.transport
             ChangePoller.callbacks ChangePoller.lastHash];
      repeat (split; try reflexivity; try assumption).
  - destruct (BeadsClient.load_answer env);
      (split; [reflexivity|]); show_clients;
      repeat (split; try reflexivity; try assumption).
Qed.


Lemma disconnect_agrees (w : Runtime * BeadsClient.t)
    (g : ReentrantClient.world) :
  same_client w g ->
  same_client (snd (BeadsClient.disconnect w))
    (snd (ReentrantClient.disconnect g)).
Proof.
  intros H. open_clients H w g.
  unfold BeadsClient.disconnect, ReentrantClient.disconnect.
  show_clients.
  split.
  - destruct cp as [p|], kp as [q|]; cbn [same_poller] in Hp; try contradiction;
      [|reflexivity].
    destruct Hp as (_ & Hi & _).
    unfold ChangePoller.stop. rewrite Hi.
    destruct (ChangePoller.intervalId p); reflexivity.
  - split; [reflexivity|]. split; [exact I|].
    split; [rewrite length_app; cbn [length]; lia|].
    split.
    + unfold ReentrantClient.current, ReentrantClient.array.
      cbn [ReentrantClient.arrays ReentrantClient.client
             ReentrantClient.changeCallbacks].
      rewrite list_lookup_middle; reflexivity.
    + rewrite called_app. cbn [called]. rewrite app_nil_r. exact Hlog.
Qed.

Lemma onChange_agrees (cb : Subscribers.callback)
    (w : Runtime * BeadsClient.t) (g : ReentrantClient.world) :
  same_client w g ->
  same_client (fst w, BeadsClient.onChange cb (snd w))
    (ReentrantClient.onChange (client_callback cb) g).
Proof.
  intros (Hr & Hc & Hp & Ha & Hl & Hlog).
  unfold ReentrantClient.onChange. rewrite Hl.
  unfold same_client.
  cbn [fst snd ReentrantClient.set_array ReentrantClient.runtime
         ReentrantClient.client ReentrantClient.arrays ReentrantClient.log].
  split; [exact Hr|]. split; [exact Hc|]. split; [exact Hp|].
  split; [rewrite length_insert; exact Ha|].
  split; [|exact Hlog].
  unfold ReentrantClient.current, ReentrantClient.array,
    ReentrantClient.set_array.
  cbn [ReentrantClient.arrays ReentrantClient.client].
  rewrite list_lookup_insert, decide_True by (split; [reflexivity|exact Ha]).
  cbn [default BeadsClient.onChange BeadsClient.changeCallbacks].
  unfold Subscribers.push. rewrite map_app. reflexivity.
Qed.

Lemma unsubscribe_agrees (target : nat)
    (w : Runtime * BeadsClient.t) (g : ReentrantClient.world) :
  same_client w g ->
  same_client (fst w, BeadsClient.unsubscribe target (snd w))
    (ReentrantClient.unsubscribe target g).
Proof.
  intros (Hr & Hc & Hp & Ha & Hl & Hlog).
  unfold ReentrantClient.unsubscribe. rewrite Hl.
  unfold same_client.
  cbn [fst snd ReentrantClient.set_array ReentrantClient.runtime
         ReentrantClient.client ReentrantClient.arrays ReentrantClient.log].
  split; [exact Hr|]. split; [exact Hc|]. split; [exact Hp|].
  split; [rewrite length_insert; exact Ha|].
  split; [|exact Hlog].
  unfold ReentrantClient.current, ReentrantClient.array,
    ReentrantClient.set_array.
  cbn [ReentrantClient.arrays ReentrantClient.client].
  rewrite list_lookup_insert, decide_True by (split; [reflexivity|exact Ha]).
  cbn [default BeadsClient.unsubscribe BeadsClient.changeCallbacks].
  apply client_unsubscribe_plain.
Qed.

Lemma send_agrees (operation : string) (args : json)
    (answer : completion json) (w : Runtime * BeadsClient.t)
    (g : ReentrantClient.world) :
  same_client w g ->
  fst (ReentrantClient.send operation args answer g) =
    fst (BeadsClient.send operation args answer w) /\
  same_client (snd (BeadsClient.send operation args answer w))
    (snd (ReentrantClient.send operation args answer g)).
Proof.
  intros H. pose proof H as H'. open_clients H w g.
  unfold BeadsClient.send, ReentrantClient.send.
  cbn [ReentrantClient.client ReentrantClient.transport
         BeadsClient.transport].
  destruct ct as [tr|]; (split; [reflexivity|]); [|exact H'].
  show_clients. cbn [ReentrantClient.set_runtime ReentrantClient.runtime
                       ReentrantClient.client ReentrantClient.arrays
                       ReentrantClient.log].
  repeat (split; try reflexivity; try assumption).
Qed.

Lemma perform_agrees (op : BeadsClient.write) (answer : completion json)
    (w : Runtime * BeadsClient.t) (g : ReentrantClient.world) :
  same_client w g ->
  same_client (snd (BeadsClient.perform op answer w))
    (ReentrantClient.run_events
       (client_event (snd w) (BeadsClient.Write op answer)) g).
Proof.
  intros H.
  assert (Hsend : forall operation args,
            BeadsClient.daemon (snd w) <> None ->
            same_client (snd (BeadsClient.send operation args answer w))
              (ReentrantClient.run_events
                 [ReentrantClient.Send operation args answer] g)).
  { intros operation args _. apply send_agrees. exact H. }
  cbn [client_event].
  destruct (BeadsClient.daemon (snd w)) as [d|] eqn:Ed.
  - specialize (fun operation args => Hsend operation args ltac:(discriminate)).
    destruct op as [input|id changes|id reason|fromId toId type];
      cbn [BeadsClient.perform BeadsClient.operation_of args_of];
      unfold BeadsClient.create, BeadsClient.update, BeadsClient.close,
        BeadsClient.addDependency, BeadsClient.requireDaemon;
      rewrite Ed.
    + destruct (BeadsClient.send _ _ _ _) as [res w'] eqn:E.
      specialize (Hsend "create" input). rewrite E in Hsend. exact Hsend.
    + destruct (BeadsClient.send _ _ _ _) as [res w'] eqn:E.
      specialize (Hsend "update" (JObj (spread [("id", JStr id)] changes))).
      rewrite E in Hsend. exact Hsend.
    + destruct (BeadsClient.send _ _ _ _) as [res w'] eqn:E.
      match type of E with
      | BeadsClient.send _ ?a _ _ = _ => specialize (Hsend "close" a)
      end.
      rewrite E in Hsend. exact Hsend.
    + destruct (BeadsClient.send _ _ _ _) as [res w'] eqn:E.
      match type of E with
      | BeadsClient.send _ ?a _ _ = _ => specialize (Hsend "dep_add" a)
      end.
      rewrite E in Hsend. exact Hsend.
  - destruct op as [input|id changes|id reason|fromId toId type];
      cbn [BeadsClient.perform];
      unfold BeadsClient.create, BeadsClient.update, BeadsClient.close,
        BeadsClient.addDependency, BeadsClient.requireDaemon;
      rewrite Ed; exact H.
Qed.


Lemma fileChange_agrees (j : Transport) (w : Runtime * BeadsClient.t)
    (g : ReentrantClient.world) :
  same_client w g ->
  same_client (BeadsClient.fileChange j w) (ReentrantClient.fileChange j g).
Proof.
  intros H. pose proof H as (Hr & _).
  unfold BeadsClient.fileChange, ReentrantClient.fileChange.
  destruct w as [r c]. cbn [fst] in Hr. rewrite Hr.
  destruct (bool_decide _); [|exact H].
  apply (notifyChange_agrees (r, c) g H).
Qed.

(** The runtime and the poller's baseline may change together. *)
Lemma same_client_sampled (r' : Runtime) (w : Runtime * BeadsClient.t)
    (g : ReentrantClient.world) (p q : ChangePoller.t) (hash : string)
    (calls' : list nat) :
  same_client w g ->
  BeadsClient.poller (snd w) = Some p ->
  ReentrantClient.poller (ReentrantClient.client g) = Some q ->
  same_client
    (r', BeadsClient.mkBeadsClient (BeadsClient.daemon (snd w))
           (BeadsClient.jsonl (snd w)) (BeadsClient.transport (snd w))
           (Some (ChangePoller.mkChangePoller (ChangePoller.transport p)
                    (ChangePoller.intervalId p) (ChangePoller.callbacks p)
                    hash calls'))
           (BeadsClient.changeCallbacks (snd w))
           (BeadsClient.jsonlUnsubscribe (snd w))
           (BeadsClient.connected (snd w)) (BeadsClient.workspaceRoot (snd w))
           (BeadsClient.options (snd w)) (BeadsClient.calls (snd w)))
    (ReentrantClient.store_hash hash (ReentrantClient.set_runtime r' g)).
Proof.
  intros H Ep Eq. open_clients H w g.
  cbn [snd BeadsClient.poller ReentrantClient.poller ReentrantClient.client]
    in Ep, Eq.
  subst cp kp. cbn [same_poller] in Hp.
  destruct Hp as (Ht & Hi & Hq & Hcb & Hh).
  unfold ReentrantClient.store_hash, ReentrantClient.set_runtime,
    ReentrantClient.set_client.
  show_clients.
  cbn [same_poller ChangePoller.transport ChangePoller.intervalId
         ChangePoller.callbacks ChangePoller.lastHash].
  repeat (split; try reflexivity; try assumption).
Qed.

Lemma same_client_runtime (r r' : Runtime) (c : BeadsClient.t)
    (g : ReentrantClient.world) :
  same_client (r, c) g ->
  same_client (r', c) (ReentrantClient.set_runtime r' g).
Proof.
  intros (Hr & Hc & Hp & Ha & Hl & Hlog).
  unfold same_client, ReentrantClient.set_runtime.
  cbn [fst snd ReentrantClient.runtime ReentrantClient.client
         ReentrantClient.arrays ReentrantClient.log] in *.
  repeat (split; try reflexivity; try assumption).
Qed.

Lemma tick_agrees (answer : completion string)
    (w : Runtime * BeadsClient.t) (g : ReentrantClient.world) :
  same_client w g ->
  same_client (BeadsClient.tick answer w) (ReentrantClient.tick answer g).
Proof.
  intros H. pose proof H as (Hr & Hc & Hp & Ha & Hl & Hlog).
  destruct w as [r c]. cbn [fst snd] in *.
  unfold BeadsClient.tick, ReentrantClient.tick.
  destruct (BeadsClient.poller c) as [p|] eqn:Ep,
    (ReentrantClient.poller (ReentrantClient.client g)) as [q|] eqn:Eq;
    cbn [same_poller] in Hp; try contradiction; [|exact H].
  destruct Hp as (Ht & Hi & Hq & Hcb & Hh).
  unfold ChangePoller.tick. rewrite Hi, Hr.
  destruct (ChangePoller.intervalId p) as [handle|] eqn:Ei.
  2:{ rewrite Nat.ltb_irrefl. destruct c; cbn in Ep; subst; exact H. }
  destruct (is_live handle r).
  2:{ rewrite Nat.ltb_irrefl. destruct c; cbn in Ep; subst; exact H. }
  unfold ChangePoller.poll, ReentrantClient.poll.
  rewrite Ht, ?Hr.
  set (r' := log_send (ChangePoller.transport p) "stats" (JObj []) r).
  destruct answer as [hash|err].
  2:{ rewrite Nat.ltb_irrefl.
      replace (BeadsClient.mkBeadsClient _ _ _ _ _ _ _ _ _ _) with c
        by (destruct c; cbn in Ep; subst; reflexivity).
      apply (same_client_runtime r r'). exact H. }
  replace (ChangePoller.changed hash q) with (ChangePoller.changed hash p)
    by (unfold ChangePoller.changed; rewrite Hh; reflexivity).
  destruct (ChangePoller.changed hash p).
  - unfold ChangePoller.fire, Subscribers.notify. rewrite Hcb, Hq.
    cbn [length Subscribers.forOf lookup list_lookup BeadsClient.notifier
           Subscribers.body Subscribers.ref Subscribers.run
           ChangePoller.transport ChangePoller.intervalId
           ChangePoller.callbacks ChangePoller.calls
           ReentrantClient.notifiers].
    replace (length (ChangePoller.calls p) <?
             length (ChangePoller.calls p ++ [0]))%nat with true
      by (symmetry; apply Nat.ltb_lt; rewrite length_app; cbn [length]; lia).
    pose proof (same_client_runtime r r' c g H) as H1.
    pose proof (notifyChange_agrees (r', c) _ H1) as (Hret & Hsame & H2).
    destruct (ReentrantClient.notifyChange (ReentrantClient.set_runtime r' g))
      as [res g2] eqn:En.
    cbn [fst snd ReentrantClient.set_runtime ReentrantClient.client]
      in Hret, Hsame, H2. subst res.
    assert (Ep2 : BeadsClient.poller (BeadsClient.notifyChange c) = Some p).
    { unfold BeadsClient.notifyChange.
      destruct (Subscribers.notify _ _). exact Ep. }
    assert (Eq2 : ReentrantClient.poller (ReentrantClient.client g2) = Some q)
      by (rewrite Hsame; exact Eq).
    pose proof (same_client_sampled r' (r', BeadsClient.notifyChange c) g2
                  p q hash (ChangePoller.calls p ++ [0]) H2 Ep2 Eq2) as H3.
    replace (ReentrantClient.set_runtime r' g2) with g2 in H3
      by (destruct H2 as (Hr2 & _); destruct g2; cbn in Hr2; subst;
          reflexivity).
    rewrite Hcb in H3.
    unfold BeadsClient.notifyChange in H3 |- *.
    cbn [snd BeadsClient.daemon BeadsClient.jsonl BeadsClient.transport
           BeadsClient.poller BeadsClient.changeCallbacks
           BeadsClient.jsonlUnsubscribe BeadsClient.connected
           BeadsClient.workspaceRoot BeadsClient.options BeadsClient.calls]
      in H3 |- *.
    destruct (Subscribers.notify _ _) as [callbacks' calls'].
    exact H3.
  - rewrite Nat.ltb_irrefl.
    apply (same_client_sampled r' (r, c) g p q hash _ H Ep Eq).
Qed.


Lemma step_agrees (w : Runtime * BeadsClient.t) (g : ReentrantClient.world)
    (e : BeadsClient.event) :
  same_client w g ->
  same_client (BeadsClient.step w e)
    (ReentrantClient.run_events (client_event (snd w) e) g).
Proof.
  intros H.
  destruct e as [root env| |cb|target|answer|j| |op answer];
    cbn [client_event ReentrantClient.run_events fold_left
           ReentrantClient.step BeadsClient.step].
  - apply connect_agrees. exact H.
  - apply disconnect_agrees. exact H.
  - apply onChange_agrees. exact H.
  - apply unsubscribe_agrees. exact H.
  - apply tick_agrees. exact H.
  - apply fileChange_agrees. exact H.
  - apply notifyChange_agrees. exact H.
  - apply perform_agrees. exact H.
Qed.

Lemma new_agrees (options : BeadsClient.BeadsClientOptions) (r : Runtime) :
  same_client (r, BeadsClient.new options) (ReentrantClient.new options r).
Proof.
  unfold same_client, BeadsClient.new, ReentrantClient.new, client_fields.
  cbn. repeat (split; try reflexivity). lia.
Qed.

(** From the same state, a run of events there and the same events here
    end in the same state. *)
Lemma run_events_agree (events : list BeadsClient.event)
    (w : Runtime * BeadsClient.t) (g : ReentrantClient.world) :
  same_client w g ->
  same_client (BeadsClient.run_events events w)
    (ReentrantClient.run_events (client_events events w) g).
Proof.
  revert w g. induction events as [|e events IH]; intros w g H; [exact H|].
  cbn [client_events BeadsClient.run_events fold_left].
  unfold ReentrantClient.run_events. rewrite fold_left_app.
  apply IH. apply step_agrees. exact H.
Qed.

(** The client of the first sections is the client here with change
    callbacks that only unsubscribe: after any run of events on a new
    client, both have the same runtime and fields, hold the same callbacks
    and have called the same change callbacks in the same order. *)
Theorem plain_client_agrees (options : BeadsClient.BeadsClientOptions)
    (r : Runtime) (events : list BeadsClient.event) :
  let w0 := (r, BeadsClient.new options) in
  let w := BeadsClient.run_events events w0 in
  let g :=
    ReentrantClient.run_events (client_events events w0)
      (ReentrantClient.new options r) in
  same_client w g /\
  ReentrantClient.runtime g = fst w /\
  ReentrantClient.isConnected (ReentrantClient.client g) =
    BeadsClient.isConnected (snd w) /\
  ReentrantClient.current g =
    map client_callback (BeadsClient.changeCallbacks (snd w)) /\
  called (ReentrantClient.log g) = BeadsClient.calls (snd w).
Proof.
  intros w0 w g.
  assert (Hsame : same_client w g)
    by (apply run_events_agree, new_agrees).
  split; [exact Hsame|].
  destruct Hsame as (Hr & Hc & Hp & Ha & Hl & Hlog).
  split; [exact Hr|]. split; [|split; [exact Hl|exact Hlog]].
  rewrite Hc. reflexivity.
Qed.

End ClientEmbeddingFacts.
